(** * nOmicron: compressed-sensing site sampler and nearest-neighbour planner

    A shallow embedding of [compressedSensing] from
    [nOmicron/microscope/continuous_spectroscopy.py] (lines 326-447) and of
    its inner functions [nn_tsp_matrix], [distance] and [tour_length].

    Numbers.  NumPy's float64 values are read as real numbers ([R]); the
    positive infinity used to mask visited cities is a separate constructor.
    Python's [int] is [Z], array positions are [nat] once an index has been
    resolved.  Where the source produces a NaN (normalising by a zero sum)
    the model records that fact explicitly instead of a number.

    Rounding.  Three decisions of the source depend on how a float64
    operation rounds: the number of sites [math.ceil(p*len(flat_input))], the
    comparison of the computed sums [|x| + |y|] that selects the start, and
    the comparison of the computed distances in [argmin].  They are modelled
    a second time in IEEE 754 binary64 (the definitions whose names end in
    [_f64]), with the Standard Library's [SpecFloat]; the statements that
    depend on such a decision are made about these definitions.

    Effects.  Exceptions are a [result] type.  The pseudo-random generator,
    the standard output and the figure written by matplotlib are fields of a
    [world] that every effectful step threads. *)

From Stdlib Require Import Ascii String.
From Stdlib Require Import Reals Lra Lia ZArith List Bool Permutation.
From Stdlib Require Import SpecFloat QArith Qround Qpower Qreals.
Import ListNotations.

Local Open Scope R_scope.

(** ** Exceptions *)

Inductive exn : Type :=
| Exception (msg : string)      (* [raise Exception("...")], the validation error *)
| IndexError                    (* raised by list / ndarray indexing *)
| ValueError                    (* raised by numpy on malformed arguments *)
| ZeroDivisionError             (* Python [int / int] with a zero divisor *)
| OverflowError.                (* an infinite float converted to an [int], or an [int] beyond the floats *)

Inductive result (A : Type) : Type :=
| Ok (a : A)
| Raise (e : exn).

Arguments Ok {A} a.
Arguments Raise {A} e.

Definition bind {A B : Type} (c : result A) (k : A -> result B) : result B :=
  match c with
  | Ok a => k a
  | Raise e => Raise e
  end.

Notation "x <- c ;; k" := (bind c (fun x => k))
  (at level 61, c at next level, right associativity).

(** ** Python sequences *)

(** Position designated by index [i] in a sequence of [len] items: the
    indices [-len .. -1] count from the end, everything outside
    [-len .. len-1] raises IndexError. *)
Definition py_index (len : nat) (i : Z) : result nat :=
  if ((0 <=? i) && (i <? Z.of_nat len))%Z then Ok (Z.to_nat i)
  else if ((- Z.of_nat len <=? i) && (i <? 0))%Z then Ok (Z.to_nat (i + Z.of_nat len))
  else Raise IndexError.

Definition getitem {A : Type} (l : list A) (i : Z) : result A :=
  k <- py_index (length l) i ;;
  match nth_error l k with
  | Some a => Ok a
  | None => Raise IndexError
  end.

Fixpoint upd {A : Type} (l : list A) (k : nat) (v : A) : list A :=
  match l, k with
  | [], _ => []
  | _ :: l', O => v :: l'
  | a :: l', S k' => a :: upd l' k' v
  end.

Definition setitem {A : Type} (l : list A) (i : Z) (v : A) : result (list A) :=
  k <- py_index (length l) i ;; Ok (upd l k v).

(** [arr[idx]] with an integer index array [idx] (NumPy "take"). *)
Fixpoint take_rows {A : Type} (l : list A) (idx : list Z) : result (list A) :=
  match idx with
  | [] => Ok []
  | i :: idx' =>
      a <- getitem l i ;;
      rest <- take_rows l idx' ;;
      Ok (a :: rest)
  end.

(** ** Numbers *)

Definition Rltb (x y : R) : bool := if Rlt_dec x y then true else false.

(** [np.sum] and the builtin [sum]: accumulation from 0, left to right. *)
Definition np_sum (l : list R) : R := fold_left Rplus l 0.

(** [math.floor] and [math.ceil]. *)
Definition math_floor (x : R) : Z := Int_part x.
Definition math_ceil (x : R) : Z := (- Int_part (- x))%Z.

(** Python [int / int]. *)
Definition py_truediv (a b : Z) : result R :=
  if (b =? 0)%Z then Raise ZeroDivisionError else Ok (IZR a / IZR b).

(** [x % m] on floats with a positive modulus [m]. *)
Definition py_fmod (x m : R) : R := x - m * IZR (Int_part (x / m)).

(** [np.linspace(start, stop, num)]. *)
Definition linspace (start stop : R) (num : nat) : list R :=
  match num with
  | O => []
  | S O => [start]
  | _ => map (fun i => start + INR i * ((stop - start) / INR (num - 1))) (seq 0 num)
  end.

(** ** Binary64 arithmetic *)

(** A double is a [spec_float] of the Standard Library's specification of
    IEEE 754: a signed zero, a signed infinity, NaN, or a finite number
    [(-1)^s * m * 2^e].  Binary64 has precision 53 and exponents up to 1024;
    its operations round to nearest, ties to even. *)
Definition f64_prec : Z := 53.
Definition f64_emax : Z := 1024.

Definition f64_add : spec_float -> spec_float -> spec_float := SFadd f64_prec f64_emax.
Definition f64_sub : spec_float -> spec_float -> spec_float := SFsub f64_prec f64_emax.
Definition f64_mul : spec_float -> spec_float -> spec_float := SFmul f64_prec f64_emax.
Definition f64_sqrt : spec_float -> spec_float := SFsqrt f64_prec f64_emax.

(** The doubles [0.0] and [1.0]. *)
Definition f64_zero : spec_float := S754_zero false.
Definition f64_one : spec_float := S754_finite false 4503599627370496 (-52).

(** The number a finite double stands for, as a fraction and as a real. *)
Definition F2Q (x : spec_float) : Q :=
  match x with
  | S754_finite s m e => (inject_Z (cond_Zopp s (Zpos m)) * (2 # 1) ^ e)%Q
  | _ => 0%Q
  end.

Definition F2R (x : spec_float) : R := Q2R (F2Q x).

Definition f64_is_finite (x : spec_float) : bool :=
  match x with
  | S754_zero _ | S754_finite _ _ _ => true
  | S754_infinity _ | S754_nan => false
  end.

(** [x < y] on doubles: the order of the extended reals, and false when an
    operand is NaN. *)
Definition f64_ltb (x y : spec_float) : bool :=
  match x, y with
  | S754_nan, _ | _, S754_nan => false
  | S754_infinity sx, S754_infinity sy => sx && negb sy
  | S754_infinity sx, _ => sx
  | _, S754_infinity sy => negb sy
  | _, _ => if Qlt_le_dec (F2Q x) (F2Q y) then true else false
  end.

Definition f64_div : spec_float -> spec_float -> spec_float := SFdiv f64_prec f64_emax.

(** The double nearest to an integer. *)
Definition f64_of_Z (z : Z) : spec_float := binary_normalize f64_prec f64_emax z 0 false.

(** The conversion of a Python [int] to a float, as in [float * int]: the
    nearest double; OverflowError beyond the largest double. *)
Definition float_of_int (z : Z) : result spec_float :=
  match f64_of_Z z with
  | S754_infinity _ => Raise OverflowError
  | x => Ok x
  end.

(** [math.ceil] of a float: a Python [int]; ValueError on NaN, OverflowError
    on an infinity. *)
Definition math_ceil_f64 (x : spec_float) : result Z :=
  match x with
  | S754_nan => Raise ValueError
  | S754_infinity _ => Raise OverflowError
  | _ => Ok (Qceiling (F2Q x))
  end.

(** [math.floor] of a float, with the same errors. *)
Definition math_floor_f64 (x : spec_float) : result Z :=
  match x with
  | S754_nan => Raise ValueError
  | S754_infinity _ => Raise OverflowError
  | _ => Ok (Qfloor (F2Q x))
  end.

(** [x % m] for a float64 [x] and a Python [int] [m] that is exactly a
    double: NaN when [x] is not finite or [m] is zero; otherwise the
    remainder of the floor division, which has the sign of [m].  With
    [x = X * 2^e0] and [m = M * 2^e0] for integers [X] and [M], it is
    [(X mod M) * 2^e0]. *)
Definition f64_mod_int (x : spec_float) (m : Z) : spec_float :=
  match x with
  | S754_nan | S754_infinity _ => S754_nan
  | _ =>
      if (m =? 0)%Z then S754_nan
      else
        let e0 := match x with S754_finite _ _ e => Z.min e 0 | _ => 0%Z end in
        let X := match x with
                 | S754_finite s mx e => (cond_Zopp s (Zpos mx) * 2 ^ (e - e0))%Z
                 | _ => 0%Z
                 end in
        binary_normalize f64_prec f64_emax (X mod (m * 2 ^ (- e0))) e0 (m <? 0)%Z
  end.

(** ** Arrays *)

(** An ndarray of floats: its shape and its items in row-major order, which
    is what [flatten()] returns. *)
Record ndarray : Type := mk_ndarray { shape : list nat; flatten : list R }.

Definition wf_ndarray (a : ndarray) : Prop :=
  length (flatten a) = fold_right Nat.mul 1%nat (shape a).

(** A row of a [(k, 2)] array. *)
Abbreviation point := (R * R)%type.

(** A float64 entry of the distance matrix: finite, or [np.inf]. *)
Inductive ext : Type :=
| Fin (r : R)
| Inf.

Definition ext_ltb (a b : ext) : bool :=
  match a, b with
  | Fin x, Fin y => Rltb x y
  | Fin _, Inf => true
  | Inf, _ => false
  end.

(** [ndarray.argmin()]: position of the first occurrence of the minimum;
    ValueError on an empty array. *)
Fixpoint argmin_from (best : ext) (bi : nat) (i : nat) (l : list ext) : nat :=
  match l with
  | [] => bi
  | x :: l' =>
      if ext_ltb x best then argmin_from x i (S i) l'
      else argmin_from best bi (S i) l'
  end.

Definition argmin (l : list ext) : result nat :=
  match l with
  | [] => Raise ValueError
  | x :: l' => Ok (argmin_from x 0 1 l')
  end.

(** [scipy.spatial.distance.cdist(XA, XB)] with the default Euclidean metric. *)
Definition euclidean (a b : point) : R :=
  sqrt ((fst a - fst b) ^ 2 + (snd a - snd b) ^ 2).

Definition cdist (XA XB : list point) : list (list ext) :=
  map (fun a => map (fun b => Fin (euclidean a b)) XB) XA.

(** ** The planner: [nn_tsp_matrix], [distance], [tour_length] *)

Record nn_state : Type := mk_nn {
  st_D : list (list ext);
  st_visited : list bool;
  st_tour : list Z;
  st_current : Z
}.

(** [row[visited] = np.inf] for a boolean mask as long as the row. *)
Definition mask_row (row : list ext) (visited : list bool) : list ext :=
  map (fun dv : ext * bool => if snd dv then Inf else fst dv) (combine row visited).

(** The body of [for i in range(1, n)] (lines 415-421). *)
Definition nn_step (st : nn_state) (i : nat) : result nn_state :=
  row <- getitem (st_D st) (st_current st) ;;
  let row' := mask_row row (st_visited st) in
  D' <- setitem (st_D st) (st_current st) row' ;;
  nxt <- argmin row' ;;
  tour' <- setitem (st_tour st) (Z.of_nat i) (Z.of_nat nxt) ;;
  visited' <- setitem (st_visited st) (Z.of_nat nxt) true ;;
  Ok (mk_nn D' visited' tour' (Z.of_nat nxt)).

Fixpoint nn_loop (st : nn_state) (range : list nat) : result nn_state :=
  match range with
  | [] => Ok st
  | i :: range' => st' <- nn_step st i ;; nn_loop st' range'
  end.

(** Lines 401-421: the index array [tour] when the loop is over.
    [np.empty] leaves the items of [tour] arbitrary; they are zeros here and
    every one of them is overwritten before [tour] is read. *)
Definition nn_tsp_order (coords : list point) (start_idx : Z) : result (list Z) :=
  let n := length coords in
  let D := cdist coords coords in
  let visited := repeat false n in
  let tour := repeat 0%Z n in
  let current := start_idx in
  visited <- setitem visited current true ;;
  tour <- setitem tour 0 current ;;
  st <- nn_loop (mk_nn D visited tour current) (seq 1 (n - 1)) ;;
  Ok (st_tour st).

(** Line 423: [return coords[tour]]. *)
Definition nn_tsp_matrix (coords : list point) (start_idx : Z) : result (list point) :=
  tour <- nn_tsp_order coords start_idx ;;
  take_rows coords tour.

(** Lines 425-426. *)
Definition distance (coord_1 coord_2 : point) : R :=
  sqrt (np_sum [(fst coord_1 - fst coord_2) ^ 2; (snd coord_1 - snd coord_2) ^ 2]).

(** [tour[i]] for an index the caller keeps in range. *)
Definition item (tour : list point) (i : Z) : point :=
  match getitem tour i with
  | Ok c => c
  | Raise _ => (0, 0)
  end.

(** Lines 428-431: the generator ranges over [i = 0 .. len(tour)-1], and
    [tour[i-1]] at [i = 0] is [tour[-1]], the last city. *)
Definition tour_length (tour : list point) : R :=
  np_sum (map (fun i => distance (item tour (Z.of_nat i)) (item tour (Z.of_nat i - 1)))
              (seq 0 (length tour))).

(** ** The outside world *)

Record world : Type := mk_world {
  rng_draws : nat -> list nat;   (* positions the generator selects at its k-th sampling call *)
  rng_calls : nat;               (* sampling calls served so far *)
  stdout : list (string * nat);  (* what [print] has written: a label and a count *)
  figures : list string          (* files written by [plt.savefig] *)
}.

Definition next_draw (w : world) : list nat := rng_draws w (rng_calls w).

Definition consume_draw (w : world) : world :=
  mk_world (rng_draws w) (S (rng_calls w)) (stdout w) (figures w).

Definition print (label : string) (k : nat) (w : world) : world :=
  mk_world (rng_draws w) (rng_calls w) (stdout w ++ [(label, k)]) (figures w).

Definition savefig (path : string) (w : world) : world :=
  mk_world (rng_draws w) (rng_calls w) (stdout w) (figures w ++ [path]).

(** ** [np.random.choice(a, size, replace=False, p)] *)

(** Tolerance of the "probabilities do not sum to 1" test: the square root of
    the float64 machine epsilon [2^-52]. *)
Definition atol : R := / 2 ^ 26.

Definition count_positive (pr : list R) : nat :=
  length (filter (fun x => Rltb 0 x) pr).

(** The argument checks of [choice], in the order NumPy makes them; every one
    of them raises ValueError.  [None] for the probabilities stands for a
    vector whose sum is NaN. *)
Definition choice_check (a : list R) (size : Z) (p : option (list R)) : result unit :=
  if ((length a =? 0)%nat && negb (size =? 0)%Z)%bool then Raise ValueError
  else match p with
       | None => Raise ValueError
       | Some pr =>
           if negb (length pr =? length a)%nat then Raise ValueError
           else if existsb (fun x => Rltb x 0) pr then Raise ValueError
           else if Rltb atol (Rabs (np_sum pr - 1)) then Raise ValueError
           else if (Z.of_nat (length a) <? size)%Z then Raise ValueError
           else if (size <? 0)%Z then Raise ValueError
           else if (Z.of_nat (count_positive pr) <? size)%Z then Raise ValueError
           else Ok tt
       end.

(** When the checks pass the generator is asked once and the selected
    positions are read off [a]. *)
Definition random_choice (a : list R) (size : Z) (p : option (list R)) (w : world)
  : result (list R) * world :=
  match choice_check a size p with
  | Raise e => (Raise e, w)
  | Ok _ => (Ok (map (fun i => nth i a 0) (next_draw w)), consume_draw w)
  end.

(** What sampling without replacement can select: [size] pairwise different
    positions, each of positive probability. *)
Definition choice_outcome (pr : list R) (size : Z) (idx : list nat) : Prop :=
  Z.of_nat (length idx) = size /\
  NoDup idx /\
  Forall (fun i => (i < length pr)%nat /\ 0 < nth i pr 0) idx.

(** ** [compressedSensing] *)

(** Lines 349-357. *)
Definition validate (a : ndarray) (p : R) : result unit :=
  if negb (length (shape a) =? 2)%nat
  then Raise (Exception "inputProbDensArray must be of dimension 2")
  else if negb (nth 0 (shape a) 0 =? nth 1 (shape a) 0)%nat
  then Raise (Exception "inputProbDensArray must be square array")
  else if (Rltb 1 p || Rltb p 0)%bool
  then Raise (Exception "p must be between 0 and 1")
  else Ok tt.

(** Line 360.  Dividing by a zero sum gives NaN or an infinity in every item
    (a warning, not an exception) and a NaN total: [None]. *)
Definition flat_input (a : ndarray) : option (list R) :=
  let s := np_sum (flatten a) in
  if Req_dec_T s 0 then None else Some (map (fun x => x / s) (flatten a)).

(** [len(flat_input)]. *)
Definition len_flat_input (a : ndarray) : nat := length (flatten a).

(** Line 361. *)
Definition choice_1D_arr (a : ndarray) : list R :=
  linspace 0 (IZR (Z.of_nat (len_flat_input a) - 1)) (len_flat_input a).

(** [math.ceil(p*len(flat_input))]. *)
Definition sample_size (a : ndarray) (p : R) : Z :=
  math_ceil (p * INR (len_flat_input a)).

(** Lines 360-363. *)
Definition draw_TSP_points (a : ndarray) (p : R) (w : world) : result (list R) * world :=
  match random_choice (choice_1D_arr a) (sample_size a p) (flat_input a) w with
  | (Raise e, w') => (Raise e, w')
  | (Ok TSP_points, w') =>
      (Ok TSP_points, print "# of measurement points" (length TSP_points) w')
  end.

(** The variables of the loop of lines 375-382. *)
Record loop_vars : Type := mk_vars {
  v_n : nat;
  v_max_sum : R;
  v_start_n : nat;
  v_coord_arr : list point
}.

(** Lines 376-382, with [shape0 = inputProbDensArray.shape[0]].  The loop is
    not reached with [shape0 = 1] (see [scale_const] below) nor, on a
    well-formed array, with [shape0 = 0] (the draw fails): the divisor is
    positive. *)
Definition coord_body (shape0 : nat) (scale_const : R) (v : loop_vars) (pt : R)
  : result loop_vars :=
  let x := 1 - IZR (math_floor (pt / INR shape0)) * scale_const in
  let y := (-1) + py_fmod pt (INR shape0) * scale_const in
  arr <- setitem (v_coord_arr v) (Z.of_nat (v_n v)) (x, y) ;;
  if Rltb (v_max_sum v) (Rabs x + Rabs y)
  then Ok (mk_vars (S (v_n v)) (Rabs x + Rabs y) (v_n v) arr)
  else Ok (mk_vars (S (v_n v)) (v_max_sum v) (v_start_n v) arr).

Fixpoint coord_loop (shape0 : nat) (scale_const : R) (v : loop_vars) (pts : list R)
  : result loop_vars :=
  match pts with
  | [] => Ok v
  | pt :: pts' => v' <- coord_body shape0 scale_const v pt ;; coord_loop shape0 scale_const v' pts'
  end.

(** [np.zeros([k, 2])]. *)
Definition np_zeros (k : Z) : result (list point) :=
  if (k <? 0)%Z then Raise ValueError else Ok (repeat (0, 0) (Z.to_nat k)).

(** Line 366: both operands are Python ints. *)
Definition scale_const (a : ndarray) : result R :=
  py_truediv 2 (Z.of_nat (nth 0 (shape a) 0%nat) - 1).

(** Lines 366-382: [coord_arr] and [start_n] after the loop. *)
Definition coordinates (a : ndarray) (p : R) (TSP_points : list R)
  : result (list point * nat) :=
  sc <- scale_const a ;;
  coord_arr <- np_zeros (sample_size a p) ;;
  v <- coord_loop (nth 0 (shape a) 0%nat) sc (mk_vars 0 0 0 coord_arr) TSP_points ;;
  Ok (v_coord_arr v, v_start_n v).

(** Lines 349-382, the site sampler: the coordinate array and the start
    index. *)
Definition sampler (a : ndarray) (p : R) (w : world) : result (list point * nat) * world :=
  match validate a p with
  | Raise e => (Raise e, w)
  | Ok _ =>
      match draw_TSP_points a p w with
      | (Raise e, w') => (Raise e, w')
      | (Ok TSP_points, w') => (coordinates a p TSP_points, w')
      end
  end.

(** Lines 384-435, the planning half: [start_coord] is read (and never used),
    the tour is built and measured. *)
Definition plan (coord_arr : list point) (start_n : nat) : result (list point * R) :=
  start_coord <- getitem coord_arr (Z.of_nat start_n) ;;
  approx_optimal_path <- nn_tsp_matrix coord_arr (Z.of_nat start_n) ;;
  Ok (approx_optimal_path, tour_length approx_optimal_path).

(** The whole function.  [drift] is a parameter of the source as well. *)
Definition compressedSensing (a : ndarray) (p drift : R)
  (display_filepath : option string) (w : world) : result (list point * R) * world :=
  match sampler a p w with
  | (Raise e, w') => (Raise e, w')
  | (Ok (coord_arr, start_n), w') =>
      match plan coord_arr start_n with
      | Raise e => (Raise e, w')
      | Ok out =>
          (Ok out, match display_filepath with
                   | Some path => savefig path w'
                   | None => w'
                   end)
      end
  end.

(** ** The number of sites in binary64 *)

(** Lines 349-357 on a double [p]: [p > 1 or p < 0]. *)
Definition validate_f64 (a : ndarray) (p : spec_float) : result unit :=
  if negb (length (shape a) =? 2)%nat
  then Raise (Exception "inputProbDensArray must be of dimension 2")
  else if negb (nth 0 (shape a) 0 =? nth 1 (shape a) 0)%nat
  then Raise (Exception "inputProbDensArray must be square array")
  else if (f64_ltb f64_one p || f64_ltb p f64_zero)%bool
  then Raise (Exception "p must be between 0 and 1")
  else Ok tt.

(** [math.ceil(p*len(flat_input))] as the interpreter computes it: the
    length is converted to a double, the product of the two doubles is
    rounded, and the ceiling is taken of the rounded product. *)
Definition sample_size_f64 (a : ndarray) (p : spec_float) : result Z :=
  len <- float_of_int (Z.of_nat (len_flat_input a)) ;;
  math_ceil_f64 (f64_mul p len).

(** Lines 360-363. *)
Definition draw_TSP_points_f64 (a : ndarray) (p : spec_float) (w : world)
  : result (list R) * world :=
  match sample_size_f64 a p with
  | Raise e => (Raise e, w)
  | Ok size =>
      match random_choice (choice_1D_arr a) size (flat_input a) w with
      | (Raise e, w') => (Raise e, w')
      | (Ok TSP_points, w') =>
          (Ok TSP_points, print "# of measurement points" (length TSP_points) w')
      end
  end.

(** Lines 366-382. *)
Definition coordinates_f64 (a : ndarray) (p : spec_float) (TSP_points : list R)
  : result (list point * nat) :=
  sc <- scale_const a ;;
  size <- sample_size_f64 a p ;;
  coord_arr <- np_zeros size ;;
  v <- coord_loop (nth 0 (shape a) 0%nat) sc (mk_vars 0 0 0 coord_arr) TSP_points ;;
  Ok (v_coord_arr v, v_start_n v).

(** Lines 349-382 with the ratio a double and the number of sites computed
    in binary64; the coordinates are the exact ones of [sampler] (their
    float64 values are [site_coordinates_f64] below). *)
Definition sampler_f64 (a : ndarray) (p : spec_float) (w : world)
  : result (list point * nat) * world :=
  match validate_f64 a p with
  | Raise e => (Raise e, w)
  | Ok _ =>
      match draw_TSP_points_f64 a p w with
      | (Raise e, w') => (Raise e, w')
      | (Ok TSP_points, w') => (coordinates_f64 a p TSP_points, w')
      end
  end.

(** The whole function with the number of sites computed in binary64. *)
Definition compressedSensing_f64 (a : ndarray) (p : spec_float) (drift : R)
  (display_filepath : option string) (w : world) : result (list point * R) * world :=
  match sampler_f64 a p w with
  | (Raise e, w') => (Raise e, w')
  | (Ok (coord_arr, start_n), w') =>
      match plan coord_arr start_n with
      | Raise e => (Raise e, w')
      | Ok out =>
          (Ok out, match display_filepath with
                   | Some path => savefig path w'
                   | None => w'
                   end)
      end
  end.

(** ** The coordinates and the start index in binary64 *)

(** A row of a [(k, 2)] array of doubles. *)
Abbreviation point_f64 := (spec_float * spec_float)%type.

(** Line 366: the quotient of two Python ints, rounded once.  (Ints of at
    most 53 bits, as the sizes of arrays are, are converted exactly and the
    doubles divided.) *)
Definition scale_const_f64 (a : ndarray) : result spec_float :=
  let d := (Z.of_nat (nth 0 (shape a) 0%nat) - 1)%Z in
  if (d =? 0)%Z then Raise ZeroDivisionError
  else Ok (f64_div (f64_of_Z 2) (f64_of_Z d)).

(** The item of [choice_1D_arr] at position [i]: [np.linspace(0, len-1, len)]
    has the step 1.0 and holds the doubles 0.0, 1.0, ..., [len-1]. *)
Definition index_f64 (i : nat) : spec_float := f64_of_Z (Z.of_nat i).

(** [np.abs(x) + np.abs(y)], rounded. *)
Definition l1_f64 (c : point_f64) : spec_float :=
  f64_add (SFabs (fst c)) (SFabs (snd c)).

Record loop_vars_f64 : Type := mk_vars_f64 {
  vf_n : nat;
  vf_max_sum : spec_float;
  vf_start_n : nat;
  vf_coord_arr : list point_f64
}.

(** Lines 376-377 for the float64 [pt]. *)
Definition coord_of_f64 (shape0 : nat) (scale_const : spec_float) (pt : spec_float)
  : result point_f64 :=
  row <- math_floor_f64 (f64_div pt (f64_of_Z (Z.of_nat shape0))) ;;
  row_f <- float_of_int row ;;
  let x := f64_sub f64_one (f64_mul row_f scale_const) in
  let y := f64_add (SFopp f64_one)
                   (f64_mul (f64_mod_int pt (Z.of_nat shape0)) scale_const) in
  Ok (x, y).

(** Lines 376-382. *)
Definition coord_body_f64 (shape0 : nat) (scale_const : spec_float)
  (v : loop_vars_f64) (pt : spec_float) : result loop_vars_f64 :=
  c <- coord_of_f64 shape0 scale_const pt ;;
  arr <- setitem (vf_coord_arr v) (Z.of_nat (vf_n v)) c ;;
  if f64_ltb (vf_max_sum v) (l1_f64 c)
  then Ok (mk_vars_f64 (S (vf_n v)) (l1_f64 c) (vf_n v) arr)
  else Ok (mk_vars_f64 (S (vf_n v)) (vf_max_sum v) (vf_start_n v) arr).

Fixpoint coord_loop_f64 (shape0 : nat) (scale_const : spec_float)
  (v : loop_vars_f64) (pts : list spec_float) : result loop_vars_f64 :=
  match pts with
  | [] => Ok v
  | pt :: pts' =>
      v' <- coord_body_f64 shape0 scale_const v pt ;;
      coord_loop_f64 shape0 scale_const v' pts'
  end.

Definition np_zeros_f64 (k : Z) : result (list point_f64) :=
  if (k <? 0)%Z then Raise ValueError
  else Ok (repeat (f64_zero, f64_zero) (Z.to_nat k)).

(** Lines 366-382 in binary64, for the flat indices [draw] that
    [np.random.choice] selected: the array of coordinates and the start
    index. *)
Definition site_coordinates_f64 (a : ndarray) (p : spec_float) (draw : list nat)
  : result (list point_f64 * nat) :=
  sc <- scale_const_f64 a ;;
  size <- sample_size_f64 a p ;;
  coord_arr <- np_zeros_f64 size ;;
  v <- coord_loop_f64 (nth 0 (shape a) 0%nat) sc
                      (mk_vars_f64 0 f64_zero 0 coord_arr) (map index_f64 draw) ;;
  Ok (vf_coord_arr v, vf_start_n v).

(** ** The planner in binary64 *)

(** The Euclidean kernel of [cdist] on rows of two doubles:
    [s = 0; for i: d = u[i] - v[i]; s += d*d; return sqrt(s)], every
    operation rounded. *)
Definition euclidean_f64 (u v : point_f64) : spec_float :=
  let d0 := f64_sub (fst u) (fst v) in
  let s0 := f64_add f64_zero (f64_mul d0 d0) in
  let d1 := f64_sub (snd u) (snd v) in
  let s1 := f64_add s0 (f64_mul d1 d1) in
  f64_sqrt s1.

(** An entry of the matrix as [argmin] orders it.  An overflowed distance is
    [np.inf].  A distance is NaN only between rows that hold a NaN or an
    infinity; the statements below are about rows whose distances are
    finite. *)
Definition ext_of_f64 (x : spec_float) : ext :=
  if f64_is_finite x then Fin (F2R x) else Inf.

Definition cdist_f64 (XA XB : list point_f64) : list (list ext) :=
  map (fun a => map (fun b => ext_of_f64 (euclidean_f64 a b)) XB) XA.

(** Lines 401-421 on doubles. *)
Definition nn_tsp_order_f64 (coords : list point_f64) (start_idx : Z) : result (list Z) :=
  let n := length coords in
  let D := cdist_f64 coords coords in
  let visited := repeat false n in
  let tour := repeat 0%Z n in
  let current := start_idx in
  visited <- setitem visited current true ;;
  tour <- setitem tour 0 current ;;
  st <- nn_loop (mk_nn D visited tour current) (seq 1 (n - 1)) ;;
  Ok (st_tour st).

Definition nn_tsp_matrix_f64 (coords : list point_f64) (start_idx : Z)
  : result (list point_f64) :=
  tour <- nn_tsp_order_f64 coords start_idx ;;
  take_rows coords tour.

(** ** The acquisition functions: callbacks and result handling

    [get_continuous_signal] and [get_point_spectra] drive the instrument
    through the modules [mo] and [IO], which this file does not contain.
    What is embedded here is the part of them that computes: the view
    callbacks, as functions of what the instrument reports during one view
    event and of the module's global variables; the table that receives the
    spectra; and the handling of the result.  The waiting loops and the
    instrument calls are not modelled. *)

(** Exceptions of the acquisition functions beyond those above. *)
Inductive driver_exn : Type :=
| Builtin (e : exn)
| TypeError                     (* an [int] is subscripted *)
| KeyError (key : string).      (* a dict has no such key *)

Inductive outcome (A : Type) : Type :=
| Returns (a : A)
| Raises (e : driver_exn).

Arguments Returns {A} a.
Arguments Raises {A} e.

(** What [mo.view], [mo.clock] and [mo.sample_data] answer during one view
    event. *)
Record view_event : Type := mk_event {
  Run_Count : Z;
  Cycle_Count : Z;
  Packet_Count : Z;
  Data_Size : Z;
  Period : R;
  sample_data : Z -> list R
}.

(** [np.linspace] with a Python [int] for [num]. *)
Definition np_linspace (start stop : R) (num : Z) : result (list R) :=
  if (num <? 0)%Z then Raise ValueError else Ok (linspace start stop (Z.to_nat num)).

(** The globals of [get_continuous_signal] and its progress bar. *)
Record continuous_globals : Type := mk_cg {
  cg_view_count : Z;
  cg_x_data : option (list R);
  cg_y_data : option (list R);
  cg_pbar : nat
}.

(** Lines 53-61. *)
Definition view_continuous_callback (ev : view_event) (g : continuous_globals)
  : result unit * continuous_globals :=
  let g1 := mk_cg (cg_view_count g + 1) (cg_x_data g) (cg_y_data g) (S (cg_pbar g)) in
  let data_size := Data_Size ev in
  let period := Period ev in
  match np_linspace 0 (IZR (data_size - 1) * period) data_size with
  | Raise e => (Raise e, g1)
  | Ok xs =>
      (Ok tt, mk_cg (cg_view_count g1) (Some xs) (Some (sample_data ev data_size))
                    (cg_pbar g1))
  end.

(** An entry of the table of spectra: [None], or an array. *)
Abbreviation cell := (option (list R)).

(** The globals of [get_point_spectra] and its progress bar. *)
Record spectra_globals : Type := mk_sg {
  sg_view_count : Z;
  sg_view_name : option (Z * Z);
  sg_x_data : option (list R);
  sg_y_data : list (list cell);
  sg_pbar : nat
}.

(** Line 129. *)
Definition max_count (repeats : Z) (forward_back : bool) : Z :=
  (repeats * (Z.b2z forward_back + 1))%Z.

(** Lines 132-133: one fresh row [[None] * (bool(forward_back) + 1)] for
    every [i] in [range(repeats)]. *)
Definition init_y_data (repeats : Z) (forward_back : bool) : list (list cell) :=
  map (fun _ => repeat None (Nat.b2n forward_back + 1)) (seq 0 (Z.to_nat repeats)).

(** [y_data[i][j] = v]: the row [y_data[i]] is updated in place; the rows are
    separate lists. *)
Definition store (y_data : list (list cell)) (i j : Z) (v : cell)
  : result (list (list cell)) :=
  row <- getitem y_data i ;;
  row' <- setitem row j v ;;
  setitem y_data i row'.

(** [np.flip] of an entry. *)
Definition np_flip (c : cell) : cell := option_map (@rev R) c.

(** The float literal [1e-9]. *)
Definition nano : R := / 10 ^ 9.

(** Lines 135-146, for the [start_end] of the enclosing call. *)
Definition view_spectroscopy_callback
  (start_end : R * R) (ev : view_event) (g : spectra_globals)
  : result unit * spectra_globals :=
  let g1 := mk_sg (sg_view_count g + 1) (Some (Run_Count ev, Cycle_Count ev))
                  (sg_x_data g) (sg_y_data g) (S (sg_pbar g)) in
  let cycle_count := (Cycle_Count ev - 1)%Z in
  let packet_count := (Packet_Count ev - 1)%Z in
  let data_size := Data_Size ev in
  match np_linspace (fst start_end) (snd start_end) data_size with
  | Raise e => (Raise e, g1)
  | Ok xs =>
      let g2 := mk_sg (sg_view_count g1) (sg_view_name g1) (Some xs)
                      (sg_y_data g1) (sg_pbar g1) in
      let value := Some (map (fun v => v * nano) (sample_data ev data_size)) in
      match store (sg_y_data g2) cycle_count packet_count value with
      | Raise e => (Raise e, g2)
      | Ok y1 =>
          let g3 := mk_sg (sg_view_count g2) (sg_view_name g2) (sg_x_data g2)
                          y1 (sg_pbar g2) in
          if (packet_count =? 1)%Z then
            match (row <- getitem y1 cycle_count ;;
                   c <- getitem row packet_count ;;
                   store y1 cycle_count packet_count (np_flip c)) with
            | Raise e => (Raise e, g3)
            | Ok y2 =>
                (Ok tt, mk_sg (sg_view_count g3) (sg_view_name g3) (sg_x_data g3)
                              y2 (sg_pbar g3))
            end
          else (Ok tt, g3)
      end
  end.

(** What [get_point_spectra] returns as [y_data]: one array, a list of
    arrays, or a list of lists of arrays. *)
Inductive spectra : Type :=
| Single (c : cell)
| Sweeps (cs : list cell)
| Repeats (rows : list (list cell)).

(** [[item[0] for item in y_data]]. *)
Fixpoint first_items (y_data : list (list cell)) : result (list cell) :=
  match y_data with
  | [] => Ok []
  | item :: rest =>
      c <- getitem item 0 ;;
      cs <- first_items rest ;;
      Ok (c :: cs)
  end.

(** Lines 179-182, the two tests written as one case analysis. *)
Definition parse_y_data (forward_back : bool) (repeats : Z) (y_data : list (list cell))
  : result spectra :=
  if forward_back then
    if (repeats =? 1)%Z then row <- getitem y_data 0 ;; Ok (Sweeps row)
    else Ok (Repeats y_data)
  else
    cs <- first_items y_data ;;
    if (repeats =? 1)%Z then c <- getitem cs 0 ;; Ok (Single c)
    else Ok (Sweeps cs).

(** Lines 179-188, once the acquisition is over.  [Result_File_Path] and
    [Result_File_Name] stand for what the two getters of [mo.experiment]
    do when the f-string of line 185 calls them, in this order.  The global
    [view_count] is an [int]: the next field of the f-string,
    [view_count[0]], raises TypeError. *)
Definition get_point_spectra_result
  (Result_File_Path Result_File_Name : outcome string)
  (forward_back : bool) (repeats : Z) (return_filename : bool) (g : spectra_globals)
  : outcome (option (list R) * spectra * option string) :=
  match parse_y_data forward_back repeats (sg_y_data g) with
  | Raise e => Raises (Builtin e)
  | Ok y_data =>
      if return_filename then
        match Result_File_Path with
        | Raises e => Raises e
        | Returns _ =>
            match Result_File_Name with
            | Raises e => Raises e
            | Returns _ => Raises TypeError
            end
        end
      else Returns (sg_x_data g, y_data, None)
  end.

(** Line 128. *)
Definition modes : list (string * Z) := [("V"%string, 0%Z); ("Z"%string, 1%Z); ("Varied Z"%string, 2%Z)].

(** [d[key]] on a dict. *)
Fixpoint dict_getitem (d : list (string * Z)) (key : string) : outcome Z :=
  match d with
  | [] => Raises (KeyError key)
  | (k, v) :: d' => if String.eqb k key then Returns v else dict_getitem d' key
  end.

(** [s[i]] on a string: a string of one character. *)
Definition str_getitem (s : string) (i : Z) : outcome string :=
  match py_index (String.length s) i with
  | Raise e => Raises (Builtin e)
  | Ok k =>
      match String.get k s with
      | Some c => Returns (String c EmptyString)
      | None => Raises (Builtin IndexError)
      end
  end.

(** [modes[channel_name[-2]]], the argument of [Spectroscopy_Mode] at line
    150 and the number in the setter names of lines 151-156. *)
Definition spectroscopy_mode (channel_name : string) : outcome Z :=
  match str_getitem channel_name (-2) with
  | Raises e => Raises e
  | Returns key => dict_getitem modes key
  end.

(** ** The open path of the specification *)

(** The sum of the Euclidean distances between consecutive entries of a tour
    read as an open path: first to second, ..., last but one to last. *)
Fixpoint open_path_length (tour : list point) : R :=
  match tour with
  | a :: (b :: _) as rest => euclidean a b + open_path_length rest
  | _ => 0
  end.

(** The L1 distance of a coordinate from the origin. *)
Definition l1_norm (c : point) : R := Rabs (fst c) + Rabs (snd c).

(** Membership in the square [-1, 1] x [-1, 1]. *)
Definition in_unit_square (c : point) : Prop :=
  -1 <= fst c <= 1 /\ -1 <= snd c <= 1.

(** The coordinate of a flat index, in the words of the specification. *)
Definition spec_coordinate (n index : nat) : point :=
  let scale := 2 / (INR n - 1) in
  (1 - INR (index / n) * scale, -1 + INR (index mod n) * scale).

(** ** Vocabulary of the statements and invariants *)

(** [m] is the first position of a minimum of [l], whose value there is [x]. *)
Definition first_min (l : list ext) (m : nat) (x : ext) : Prop :=
  nth_error l m = Some x /\
  (forall j y, nth_error l j = Some y -> ext_ltb y x = false) /\
  (forall j y, (j < m)%nat -> nth_error l j = Some y -> ext_ltb x y = true).

(** Distance between the cities at positions [r] and [c] of [coords]. *)
Definition dist (coords : list point) (r c : nat) : R :=
  euclidean (nth r coords (0, 0)) (nth c coords (0, 0)).

(** [nxt] is a legitimate extension of the visited positions [seen] from the
    current position [cur], among [n] positions whose distances are [d]:
    unvisited, at minimum distance from [cur] among the unvisited, and of
    lowest position among those at that distance. *)
Definition nearest_unvisited_by (d : nat -> nat -> R) (n : nat)
  (seen : list nat) (cur nxt : nat) : Prop :=
  (nxt < n)%nat /\
  ~ In nxt seen /\
  forall j, (j < n)%nat -> ~ In j seen ->
            d cur nxt <= d cur j /\
            (d cur j = d cur nxt -> (nxt <= j)%nat).

(** Every entry of a visiting order but the first was chosen that way. *)
Definition greedy_by (d : nat -> nat -> R) (n : nat) (order : list nat) : Prop :=
  forall m, (1 <= m < length order)%nat ->
            nearest_unvisited_by d n (firstn m order)
                                 (nth (m - 1) order 0%nat) (nth m order 0%nat).

(** The same for the exact distances between real coordinates. *)
Definition nearest_unvisited (coords : list point) (seen : list nat) (cur nxt : nat) : Prop :=
  nearest_unvisited_by (dist coords) (length coords) seen cur nxt.

Definition greedy (coords : list point) (order : list nat) : Prop :=
  greedy_by (dist coords) (length coords) order.

(** [D] is an [n x n] matrix whose entries are the finite distances [d]. *)
Definition matrix_of (d : nat -> nat -> R) (n : nat) (D : list (list ext)) : Prop :=
  length D = n /\
  forall r row, nth_error D r = Some row ->
    length row = n /\
    forall c x, nth_error row c = Some x -> x = Fin (d r c).

(** The loop invariant: [seen] lists the positions visited so far. *)
Record nn_inv (d : nat -> nat -> R) (n : nat) (start_idx : Z) (seen : list nat)
  (st : nn_state) : Prop := mk_nn_inv {
  inv_ne : seen <> [];
  inv_nodup : NoDup seen;
  inv_range : Forall (fun c => (c < n)%nat) seen;
  inv_start : py_index n start_idx = Ok (hd 0%nat seen);
  inv_current : py_index n (st_current st) = Ok (last seen 0%nat);
  inv_tour_len : length (st_tour st) = n;
  inv_tour : firstn (length seen) (st_tour st) = start_idx :: map Z.of_nat (tl seen);
  inv_visited_len : length (st_visited st) = n;
  inv_visited : forall c, nth_error (st_visited st) c = Some true <-> In c seen;
  inv_D_len : length (st_D st) = n;
  inv_D_rows : forall r row, nth_error (st_D st) r = Some row -> length row = n;
  inv_D : forall r c row x,
      nth_error (st_D st) r = Some row -> nth_error row c = Some x ->
      x = Fin (d r c) \/ (x = Inf /\ In c seen);
  inv_greedy : greedy_by d n seen
}.

(** The distance the planner computes between the rows at positions [r] and
    [c] of an array of doubles. *)
Definition dist_f64 (coords : list point_f64) (r c : nat) : R :=
  F2R (euclidean_f64 (nth r coords (f64_zero, f64_zero)) (nth c coords (f64_zero, f64_zero))).

(** No computed distance overflows or is NaN. *)
Definition finite_distances (coords : list point_f64) : Prop :=
  forall a b, In a coords -> In b coords -> f64_is_finite (euclidean_f64 a b) = true.

(** The point of the plane a row of doubles stands for. *)
Definition point_value (c : point_f64) : point := (F2R (fst c), F2R (snd c)).

(** A double in the interval [0, 1]. *)
Definition unit_ratio (p : spec_float) : Prop :=
  f64_is_finite p = true /\ 0 <= F2R p <= 1.

(** The generator's next answer is one that sampling [size] sites without
    replacement from the normalised weights can give, [size] being the
    number the interpreter computes. *)
Definition fair_draw_f64 (a : ndarray) (p : spec_float) (w : world) : Prop :=
  forall pr size, flat_input a = Some pr -> sample_size_f64 a p = Ok size ->
                  choice_outcome pr size (next_draw w).

(** The row written for the float [pt] (lines 376-378). *)
Definition coord_of (shape0 : nat) (sc : R) (pt : R) : point :=
  (1 - IZR (math_floor (pt / INR shape0)) * sc,
   (-1) + py_fmod pt (INR shape0) * sc).

(** What the loop maintains about [max_sum] and [start_n]. *)
Definition max_inv (v : loop_vars) : Prop :=
  0 <= v_max_sum v /\
  (forall c, In c (v_coord_arr v) -> l1_norm c <= v_max_sum v) /\
  (((v_start_n v < v_n v)%nat /\
    exists c0, nth_error (v_coord_arr v) (v_start_n v) = Some c0 /\
               l1_norm c0 = v_max_sum v) \/
   (v_max_sum v = 0 /\ v_start_n v = 0%nat)).

(** A density map the sampler is meant for: an [n x n] array, [n >= 2], of
    non-negative weights with a positive total. *)
Definition valid_density_map (a : ndarray) (n : nat) : Prop :=
  shape a = [n; n] /\
  wf_ndarray a /\
  (2 <= n)%nat /\
  Forall (fun x => 0 <= x) (flatten a) /\
  0 < np_sum (flatten a).

(** The generator's next answer is one that sampling without replacement
    from the normalised weights can give. *)
Definition fair_draw (a : ndarray) (p : R) (w : world) : Prop :=
  forall pr, flat_input a = Some pr -> choice_outcome pr (sample_size a p) (next_draw w).

(** What the loop on doubles maintains about [max_sum] and [start_n]: the
    recorded maximum is the computed sum of the row at the start index, no
    computed sum exceeds it, and the rows before the start index have a
    strictly smaller one. *)
Definition start_inv_f64 (v : loop_vars_f64) : Prop :=
  f64_is_finite (vf_max_sum v) = true /\
  0 <= F2R (vf_max_sum v) /\
  (forall c, In c (vf_coord_arr v) -> F2R (l1_f64 c) <= F2R (vf_max_sum v)) /\
  (((vf_start_n v < vf_n v)%nat /\
    exists c0, nth_error (vf_coord_arr v) (vf_start_n v) = Some c0 /\
               l1_f64 c0 = vf_max_sum v) \/
   (vf_max_sum v = f64_zero /\ vf_start_n v = 0%nat)) /\
  (forall j c, (j < vf_start_n v)%nat -> nth_error (vf_coord_arr v) j = Some c ->
               F2R (l1_f64 c) < F2R (vf_max_sum v)).

(** The entry of row [i], column [j] of a table, if there is one. *)
Definition entry (y_data : list (list cell)) (i j : nat) : option cell :=
  match nth_error y_data i with
  | Some row => nth_error row j
  | None => None
  end.

(** Every row of a table has [width] entries. *)
Definition table_width (y_data : list (list cell)) (width : nat) : Prop :=
  Forall (fun row => length row = width) y_data.

(** ** Example inputs *)

(** Two points at distance 1. *)
Definition two_points : list point := [(0, 0); (1, 0)].

(** The 2 x 2 map of ones, the ratio 1/2, and a generator that selects the
    flat indices 3 and 0. *)
Definition ones_2x2 : ndarray := mk_ndarray [2; 2]%nat [1; 1; 1; 1].

Definition world_3_0 : world := mk_world (fun _ => [3; 0]%nat) 0 [] [].

(** The 2 x 2 map whose only positive cell is the first. *)
Definition sparse_2x2 : ndarray := mk_ndarray [2; 2]%nat [1; 0; 0; 0].

(** A 3 x 4 map of ones. *)
Definition ones_3x4 : ndarray := mk_ndarray [3; 4]%nat (repeat 1 12).

(** The 1 x 1 map of weight [wt]. *)
Definition map_1x1 (wt : R) : ndarray := mk_ndarray [1; 1]%nat [wt].

(** A generator that selects the flat index 0. *)
Definition world_0 : world := mk_world (fun _ => [0%nat]) 0 [] [].

(** The 3 x 3 map of ones, and a generator that selects the centre cell and
    then the first corner. *)
Definition ones_3x3 : ndarray := mk_ndarray [3; 3]%nat (repeat 1 9).

Definition world_4_0 : world := mk_world (fun _ => [4; 0]%nat) 0 [] [].

(** A generator that selects all four cells of a 2 x 2 grid. *)
Definition world_all_4 : world := mk_world (fun _ => [2; 0; 3; 1]%nat) 0 [] [].

(** The doubles nearest to 5/9 and to 2/9, what Python evaluates [5/9] and
    [2/9] to: [0x1.1c71c71c71c72p-1], just above 5/9, and
    [0x1.c71c71c71c71cp-3], just below 2/9. *)
Definition five_ninths : spec_float := S754_finite false 5003999585967218 (-53).

Definition two_ninths : spec_float := S754_finite false 8006399337547548 (-55).

(** A generator that selects the first five cells of a grid. *)
Definition world_first_5 : world := mk_world (fun _ => [0; 1; 2; 3; 4]%nat) 0 [] [].

(** Three rows of doubles: the origin, [(0.375 + 2^-54, 0.5)] and
    [(0.625, 0)]. *)
Definition near_tie_f64 : list point_f64 :=
  [(f64_zero, f64_zero);
   (S754_finite false 6755399441055745 (-54), S754_finite false 4503599627370496 (-53));
   (S754_finite false 5629499534213120 (-53), f64_zero)].

(** The 10 x 10 map of ones and the double nearest to 1/10,
    [0x1.999999999999ap-4], just above 1/10. *)
Definition ones_10x10 : ndarray := mk_ndarray [10; 10]%nat (repeat 1 100).

Definition one_tenth : spec_float := S754_finite false 7205759403792794 (-56).

(** The 4 x 4 map of ones and the ratio 3/16, which is a double. *)
Definition ones_4x4 : ndarray := mk_ndarray [4; 4]%nat (repeat 1 16).

Definition three_sixteenths : spec_float := S754_finite false 6755399441055744 (-55).

(** The float64 coordinates of the flat indices 1, 3 and 11 of a 4 x 4 grid:
    [(1, -0.33333333333333337)], [(1, 1)] and [(-0.33333333333333326, 1)]. *)
Definition sites_1_3_11_f64 : list point_f64 :=
  [(f64_one, S754_finite true 6004799503160662 (-54));
   (f64_one, f64_one);
   (S754_finite true 6004799503160660 (-54), f64_one)].

(** A view event of a two-sample sweep: run 1, cycle 1, second packet. *)
Definition backward_event : view_event :=
  mk_event 1 1 2 2 (1 / 10) (fun _ => [1; 2]).

(** The globals of [get_point_spectra] before the first event of one repeat
    in both directions. *)
Definition fresh_globals : spectra_globals :=
  mk_sg 0 None None (init_y_data 1 true) 0.

(** * Properties *)

(** ** Indexing *)

Lemma py_index_nat (len k : nat) :
  (k < len)%nat -> py_index len (Z.of_nat k) = Ok k.
Proof.
  intros Hk. unfold py_index.
  destruct (Z.leb_spec 0 (Z.of_nat k)); [|lia].
  destruct (Z.ltb_spec (Z.of_nat k) (Z.of_nat len)); [|lia].
  simpl. now rewrite Nat2Z.id.
Qed.

Lemma py_index_neg (len : nat) (i : Z) :
  (- Z.of_nat len <= i < 0)%Z -> py_index len i = Ok (Z.to_nat (i + Z.of_nat len)).
Proof.
  intros Hi. unfold py_index.
  destruct (Z.leb_spec 0 i); [lia|]. simpl.
  destruct (Z.leb_spec (- Z.of_nat len) i); [|lia].
  destruct (Z.ltb_spec i 0); [|lia]. reflexivity.
Qed.

Lemma py_index_bound (len : nat) (i : Z) (k : nat) :
  py_index len i = Ok k -> (k < len)%nat /\ (- Z.of_nat len <= i < Z.of_nat len)%Z.
Proof.
  unfold py_index.
  destruct (Z.leb_spec 0 i); destruct (Z.ltb_spec i (Z.of_nat len)); simpl;
    try (intros [= <-]; lia);
    destruct (Z.leb_spec (- Z.of_nat len) i); destruct (Z.ltb_spec i 0); simpl;
    try discriminate; intros [= <-]; lia.
Qed.

Lemma py_index_out (len : nat) (i : Z) :
  (i < - Z.of_nat len \/ Z.of_nat len <= i)%Z -> py_index len i = Raise IndexError.
Proof.
  intros Hi. unfold py_index.
  destruct (Z.leb_spec 0 i); destruct (Z.ltb_spec i (Z.of_nat len)); simpl;
    try lia;
    destruct (Z.leb_spec (- Z.of_nat len) i); destruct (Z.ltb_spec i 0); simpl;
    try lia; reflexivity.
Qed.

Lemma getitem_index {A : Type} (l : list A) (i : Z) (k : nat) (a : A) :
  py_index (length l) i = Ok k -> nth_error l k = Some a -> getitem l i = Ok a.
Proof. intros Hi Hk. unfold getitem. rewrite Hi. simpl. now rewrite Hk. Qed.

Lemma getitem_nat {A : Type} (l : list A) (k : nat) (a : A) :
  nth_error l k = Some a -> getitem l (Z.of_nat k) = Ok a.
Proof.
  intros Hk. apply getitem_index with k; [|assumption].
  apply py_index_nat. apply nth_error_Some. congruence.
Qed.

Lemma length_upd {A : Type} (l : list A) (k : nat) (v : A) :
  length (upd l k v) = length l.
Proof.
  revert k. induction l as [|a l IH]; intros [|k]; simpl; auto.
Qed.

Lemma nth_error_upd_eq {A : Type} (l : list A) (k : nat) (v : A) :
  (k < length l)%nat -> nth_error (upd l k v) k = Some v.
Proof.
  revert k. induction l as [|a l IH]; intros [|k] Hk; simpl in *; try lia; auto.
  apply IH. lia.
Qed.

Lemma nth_error_upd_neq {A : Type} (l : list A) (k j : nat) (v : A) :
  j <> k -> nth_error (upd l k v) j = nth_error l j.
Proof.
  revert k j. induction l as [|a l IH]; intros [|k] [|j] Hjk; simpl; auto.
  congruence.
Qed.

Lemma firstn_upd_snoc {A : Type} (l : list A) (k : nat) (v : A) :
  (k < length l)%nat -> firstn (S k) (upd l k v) = firstn k l ++ [v].
Proof.
  revert k. induction l as [|a l IH]; intros [|k] Hk; simpl in *; try lia; auto.
  f_equal. apply IH. lia.
Qed.

Lemma setitem_nat {A : Type} (l : list A) (k : nat) (v : A) :
  (k < length l)%nat -> setitem l (Z.of_nat k) v = Ok (upd l k v).
Proof. intros Hk. unfold setitem. now rewrite py_index_nat. Qed.

(** ** The order on distance entries and [argmin] *)

Lemma Rltb_true (x y : R) : Rltb x y = true <-> x < y.
Proof. unfold Rltb. destruct (Rlt_dec x y); split; auto; discriminate. Qed.

Lemma Rltb_false (x y : R) : Rltb x y = false <-> y <= x.
Proof.
  unfold Rltb. destruct (Rlt_dec x y); split; auto; try discriminate; lra.
Qed.

Lemma ext_ltb_irrefl (a : ext) : ext_ltb a a = false.
Proof. destruct a; simpl; auto. apply Rltb_false. lra. Qed.

Lemma ext_ltb_trans (a b c : ext) :
  ext_ltb a b = true -> ext_ltb b c = true -> ext_ltb a c = true.
Proof.
  destruct a, b, c; simpl; auto; try discriminate.
  rewrite !Rltb_true. lra.
Qed.

Lemma ext_ltb_cotrans (a b c : ext) :
  ext_ltb a c = true -> ext_ltb a b = true \/ ext_ltb b c = true.
Proof.
  destruct a, b, c; simpl; auto; try discriminate.
  rewrite !Rltb_true. intros H. destruct (Rlt_dec r r0); [left|right]; lra.
Qed.

Lemma ext_ltb_asym (a b : ext) : ext_ltb a b = true -> ext_ltb b a = false.
Proof.
  intros H. destruct (ext_ltb b a) eqn:E; auto.
  pose proof (ext_ltb_trans _ _ _ H E) as T. now rewrite ext_ltb_irrefl in T.
Qed.

Lemma argmin_from_spec (l : list ext) :
  forall best bi i,
    (argmin_from best bi i l = bi /\
     forall j y, nth_error l j = Some y -> ext_ltb y best = false) \/
    (exists k x, argmin_from best bi i l = (i + k)%nat /\
                 ext_ltb x best = true /\ first_min l k x).
Proof.
  induction l as [|x0 l IH]; intros best bi i; simpl.
  - left. split; auto. intros [|j] y; discriminate.
  - destruct (ext_ltb x0 best) eqn:E.
    + right. destruct (IH x0 i (S i)) as [[Hm Hall] | (k & x & Hm & Hlt & Hnth & Hmin & Hfirst)].
      * exists 0%nat, x0. rewrite Hm. repeat split; auto.
        -- intros [|j] y; simpl; [intros [= <-]; apply ext_ltb_irrefl | apply Hall].
        -- intros j y Hj; lia.
      * exists (S k), x. rewrite Hm. split; [lia|]. split; [eauto using ext_ltb_trans|].
        split; [exact Hnth|]. split.
        -- intros [|j] y; simpl; [intros [= <-]; now apply ext_ltb_asym | apply Hmin].
        -- intros [|j] y Hj; simpl; [intros [= <-]; exact Hlt | apply Hfirst; lia].
    + destruct (IH best bi (S i)) as [[Hm Hall] | (k & x & Hm & Hlt & Hnth & Hmin & Hfirst)].
      * left. split; auto. intros [|j] y; simpl; [intros [= <-]; exact E | apply Hall].
      * right. exists (S k), x. rewrite Hm. split; [lia|]. split; [exact Hlt|].
        split; [exact Hnth|]. split.
        -- intros [|j] y; simpl; [intros [= <-] | apply Hmin].
           destruct (ext_ltb x0 x) eqn:E'; auto.
           pose proof (ext_ltb_trans _ _ _ E' Hlt). congruence.
        -- intros [|j] y Hj; simpl; [intros [= <-] | apply Hfirst; lia].
           destruct (ext_ltb_cotrans x x0 best Hlt); congruence.
Qed.

Lemma argmin_spec (l : list ext) :
  l <> [] -> exists m x, argmin l = Ok m /\ first_min l m x.
Proof.
  destruct l as [|x0 l]; [congruence|]. intros _. simpl.
  destruct (argmin_from_spec l x0 0%nat 1%nat)
    as [[Hm Hall] | (k & x & Hm & Hlt & Hnth & Hmin & Hfirst)].
  - exists 0%nat, x0. rewrite Hm. split; auto. repeat split; auto.
    + intros [|j] y; simpl; [intros [= <-]; apply ext_ltb_irrefl | apply Hall].
    + intros j y Hj; lia.
  - exists (S k), x. rewrite Hm. split; auto. split; [exact Hnth|]. split.
    + intros [|j] y; simpl; [intros [= <-]; now apply ext_ltb_asym | apply Hmin].
    + intros [|j] y Hj; simpl; [intros [= <-]; exact Hlt | apply Hfirst; lia].
Qed.

(** ** The greedy loop *)

Lemma nth_error_mask_row (row : list ext) (vis : list bool) (c : nat) (d : ext) (b : bool) :
  nth_error row c = Some d -> nth_error vis c = Some b ->
  nth_error (mask_row row vis) c = Some (if b then Inf else d).
Proof.
  unfold mask_row. revert vis c.
  induction row as [|d0 row IH]; intros [|b0 vis] [|c]; simpl; try discriminate.
  - now intros [= ->] [= ->].
  - apply IH.
Qed.

Lemma length_mask_row (row : list ext) (vis : list bool) :
  length row = length vis -> length (mask_row row vis) = length row.
Proof.
  intros H. unfold mask_row. rewrite length_map, length_combine. lia.
Qed.

Lemma nth_error_lt {A : Type} (l : list A) (k : nat) :
  (k < length l)%nat -> exists a, nth_error l k = Some a.
Proof.
  intros H. destruct (nth_error l k) eqn:E; eauto.
  apply nth_error_None in E. lia.
Qed.

(** Fewer than [n] positions leave a position below [n] out. *)
Lemma unvisited_exists (n : nat) (seen : list nat) :
  (length seen < n)%nat -> exists c, (c < n)%nat /\ ~ In c seen.
Proof.
  intros Hlen.
  destruct (Exists_dec (fun c => ~ In c seen) (seq 0 n)) as [E | E].
  - intros c. destruct (in_dec Nat.eq_dec c seen); [right | left]; tauto.
  - apply Exists_exists in E. destruct E as (c & Hc & Hn).
    apply in_seq in Hc. exists c. split; [lia | exact Hn].
  - exfalso.
    assert (Hincl : incl (seq 0 n) seen).
    { intros c Hc. destruct (in_dec Nat.eq_dec c seen) as [|Hn]; auto.
      exfalso. apply E. apply Exists_exists. eauto. }
    pose proof (NoDup_incl_length (seq_NoDup n 0) Hincl) as Hle.
    rewrite length_seq in Hle. lia.
Qed.

Lemma greedy_snoc (d : nat -> nat -> R) (n : nat) (seen : list nat) (nxt : nat) :
  seen <> [] ->
  greedy_by d n seen ->
  nearest_unvisited_by d n seen (last seen 0%nat) nxt ->
  greedy_by d n (seen ++ [nxt]).
Proof.
  intros Hne G Hn m Hm. rewrite length_app in Hm. simpl in Hm.
  destruct (Nat.eq_dec m (length seen)) as [-> | Hneq].
  - rewrite firstn_app, firstn_all, Nat.sub_diag. simpl. rewrite app_nil_r.
    rewrite app_nth1 by lia. rewrite nth_middle.
    replace (nth (length seen - 1) seen 0%nat) with (last seen 0%nat); [exact Hn|].
    clear - Hne. destruct seen as [|a seen] using rev_ind; [congruence|].
    rewrite last_last, length_app. simpl.
    replace (length seen + 1 - 1)%nat with (length seen) by lia.
    now rewrite nth_middle.
  - rewrite firstn_app. replace (m - length seen)%nat with 0%nat by lia.
    simpl. rewrite app_nil_r. rewrite !app_nth1 by lia. apply G. lia.
Qed.

Lemma last_snoc_nat (l : list nat) (x d : nat) : last (l ++ [x]) d = x.
Proof. apply last_last. Qed.

Lemma tl_snoc {A : Type} (l : list A) (x : A) :
  l <> [] -> tl (l ++ [x]) = tl l ++ [x].
Proof. destruct l; [congruence | reflexivity]. Qed.

Lemma hd_snoc {A : Type} (l : list A) (x d : A) :
  l <> [] -> hd d (l ++ [x]) = hd d l.
Proof. destruct l; [congruence | reflexivity]. Qed.

(** One iteration of the loop keeps the invariant and extends the visited
    positions by a nearest unvisited one. *)
Lemma nn_step_inv (d : nat -> nat -> R) (n : nat) (start_idx : Z) (seen : list nat)
  (st : nn_state) :
  nn_inv d n start_idx seen st ->
  (length seen < n)%nat ->
  exists nxt st',
    nn_step st (length seen) = Ok st' /\
    nearest_unvisited_by d n seen (last seen 0%nat) nxt /\
    nn_inv d n start_idx (seen ++ [nxt]) st'.
Proof.
  intros [Hne Hnd Hrg Hst Hcur Htl Htour Hvl Hvis HDl HDr HD Hgr] Hlt.
  set (cur := last seen 0%nat) in *.
  assert (Hcurlt : (cur < n)%nat) by (apply py_index_bound in Hcur; lia).
  destruct (nth_error_lt (st_D st) cur) as [row Hrow]; [lia|].
  pose proof (HDr _ _ Hrow) as Hrowlen.
  set (row' := mask_row row (st_visited st)).
  assert (Hrow'len : length row' = n).
  { unfold row'. rewrite length_mask_row; lia. }
  (* what a masked entry is *)
  assert (Hmask : forall c x, nth_error row' c = Some x ->
            (In c seen /\ x = Inf) \/
            (~ In c seen /\ x = Fin (d cur c))).
  { intros c x Hx.
    assert (Hc : (c < n)%nat).
    { rewrite <- Hrow'len. apply nth_error_Some. congruence. }
    destruct (nth_error_lt row c) as [dv Hd]; [lia|].
    destruct (nth_error_lt (st_visited st) c) as [b Hb]; [lia|].
    unfold row' in Hx. rewrite (nth_error_mask_row _ _ _ _ _ Hd Hb) in Hx.
    injection Hx as <-. destruct b.
    - left. split; [now apply Hvis | reflexivity].
    - assert (Hn : ~ In c seen).
      { intros Hin. apply Hvis in Hin. congruence. }
      right. split; [exact Hn|].
      destruct (HD _ _ _ _ Hrow Hd) as [-> | [_ Hin]]; [reflexivity | contradiction]. }
  destruct (argmin_spec row') as (nxt & x & Harg & Hnx & Hmin & Hfirst).
  { intros E. rewrite E in Hrow'len. simpl in Hrow'len. lia. }
  assert (Hnxt : (nxt < n)%nat).
  { rewrite <- Hrow'len. apply nth_error_Some. congruence. }
  destruct (unvisited_exists (n) seen Hlt) as (c0 & Hc0 & Hc0n).
  assert (Hfin : ~ In nxt seen /\ x = Fin (d cur nxt)).
  { destruct (Hmask _ _ Hnx) as [[_ ->] | ?]; [|assumption].
    destruct (nth_error_lt row' c0) as [y Hy]; [lia|].
    destruct (Hmask _ _ Hy) as [[? _] | [_ ->]]; [contradiction|].
    specialize (Hmin _ _ Hy). discriminate. }
  destruct Hfin as [Hnew ->].
  assert (Hnear : nearest_unvisited_by d n seen cur nxt).
  { split; [exact Hnxt|]. split; [exact Hnew|].
    intros j Hj Hjn.
    destruct (nth_error_lt row' j) as [y Hy]; [lia|].
    destruct (Hmask _ _ Hy) as [[? _] | [_ ->]]; [contradiction|].
    split.
    - specialize (Hmin _ _ Hy). simpl in Hmin. now apply Rltb_false in Hmin.
    - intros Heq. destruct (Nat.le_gt_cases nxt j) as [|Hgt]; [assumption|].
      specialize (Hfirst _ _ Hgt Hy). simpl in Hfirst.
      apply Rltb_true in Hfirst. lra. }
  exists nxt.
  eexists. split; [|split; [exact Hnear|]].
  - unfold nn_step.
    rewrite (getitem_index _ _ _ _ ltac:(rewrite HDl; exact Hcur) Hrow). simpl.
    unfold setitem at 1. rewrite HDl, Hcur. simpl.
    fold row'. rewrite Harg. simpl.
    rewrite setitem_nat by lia. simpl.
    rewrite setitem_nat by lia. simpl. reflexivity.
  - constructor; simpl.
    + intros E. now apply app_eq_nil in E as [_ E].
    + apply NoDup_app_remove_l with (l := []). simpl.
      apply Permutation_NoDup with (l := nxt :: seen).
      * apply Permutation_cons_append.
      * now constructor.
    + apply Forall_app. split; [exact Hrg | constructor; auto].
    + rewrite hd_snoc by assumption. exact Hst.
    + rewrite last_snoc_nat. now apply py_index_nat.
    + rewrite length_upd. exact Htl.
    + rewrite length_app. simpl. rewrite Nat.add_1_r.
      rewrite firstn_upd_snoc by lia. rewrite Htour.
      rewrite tl_snoc by assumption. rewrite map_app. reflexivity.
    + rewrite length_upd. exact Hvl.
    + intros c. rewrite in_app_iff. simpl.
      destruct (Nat.eq_dec c nxt) as [-> | Hneq].
      * rewrite nth_error_upd_eq by lia. split; auto.
      * rewrite nth_error_upd_neq by assumption. rewrite Hvis.
        split; [auto | intros [?|[?|[]]]; [assumption | congruence]].
    + rewrite length_upd. exact HDl.
    + intros r rw Hr. destruct (Nat.eq_dec r cur) as [-> | Hneq].
      * rewrite nth_error_upd_eq in Hr by lia. now injection Hr as <-.
      * rewrite nth_error_upd_neq in Hr by assumption. eauto.
    + intros r c rw y Hr Hy. rewrite in_app_iff.
      destruct (Nat.eq_dec r cur) as [-> | Hneq].
      * rewrite nth_error_upd_eq in Hr by lia. injection Hr as <-.
        destruct (Hmask _ _ Hy) as [[? ->] | [_ ->]]; auto.
      * rewrite nth_error_upd_neq in Hr by assumption.
        destruct (HD _ _ _ _ Hr Hy) as [-> | [-> ?]]; auto.
    + apply greedy_snoc; assumption.
Qed.

Lemma nn_loop_inv (d : nat -> nat -> R) (n : nat) (start_idx : Z) :
  forall k seen st,
    nn_inv d n start_idx seen st ->
    (length seen + k = n)%nat ->
    exists seen' st',
      nn_loop st (seq (length seen) k) = Ok st' /\
      nn_inv d n start_idx seen' st' /\
      length seen' = n.
Proof.
  induction k as [|k IH]; intros seen st I Hlen; simpl.
  - exists seen, st. split; [reflexivity|]. split; [assumption | lia].
  - destruct (nn_step_inv _ _ _ _ _ I) as (nxt & st' & Hstep & _ & I'); [lia|].
    rewrite Hstep. simpl.
    destruct (IH (seen ++ [nxt]) st' I') as (seen' & st'' & Hloop & I'' & Hl).
    { rewrite length_app. simpl. lia. }
    rewrite length_app in Hloop. simpl in Hloop. rewrite Nat.add_1_r in Hloop.
    eauto.
Qed.

Lemma nth_error_cdist (coords : list point) (r c : nat) (row : list ext) (x : ext) :
  nth_error (cdist coords coords) r = Some row ->
  length row = length coords /\
  (nth_error row c = Some x -> x = Fin (dist coords r c)).
Proof.
  unfold cdist. rewrite nth_error_map.
  destruct (nth_error coords r) as [a|] eqn:Ha; simpl; [|discriminate].
  intros [= <-]. split; [apply length_map|].
  rewrite nth_error_map.
  destruct (nth_error coords c) as [b|] eqn:Hb; simpl; [|discriminate].
  intros [= <-]. unfold dist.
  now rewrite (nth_error_nth _ _ _ Ha), (nth_error_nth _ _ _ Hb).
Qed.

Lemma matrix_of_cdist (coords : list point) :
  matrix_of (dist coords) (length coords) (cdist coords coords).
Proof.
  split; [unfold cdist; apply length_map|].
  intros r row Hr. split.
  - now apply (nth_error_cdist coords r 0 row Inf).
  - intros c x. now apply nth_error_cdist.
Qed.

Lemma nn_init_inv (d : nat -> nat -> R) (n : nat) (D : list (list ext))
  (start_idx : Z) (s0 : nat) :
  matrix_of d n D ->
  py_index n start_idx = Ok s0 ->
  nn_inv d n start_idx [s0]
         (mk_nn D
                (upd (repeat false n) s0 true)
                (upd (repeat 0%Z n) 0 start_idx)
                start_idx).
Proof.
  intros [HDl HD] Hs. pose proof (py_index_bound _ _ _ Hs) as [Hlt _].
  constructor; simpl.
  - discriminate.
  - constructor; [intros [] | constructor].
  - constructor; auto.
  - exact Hs.
  - exact Hs.
  - now rewrite length_upd, repeat_length.
  - destruct n; [lia | reflexivity].
  - now rewrite length_upd, repeat_length.
  - intros c. destruct (Nat.eq_dec c s0) as [-> | Hneq].
    + rewrite nth_error_upd_eq by (rewrite repeat_length; lia). tauto.
    + rewrite nth_error_upd_neq by assumption. split.
      * intros H. apply nth_error_In, repeat_spec in H. discriminate.
      * intros [? | []]. congruence.
  - exact HDl.
  - intros r row Hr. now apply (HD r row).
  - intros r c row x Hr Hx. left. now apply (proj2 (HD r row Hr) c x).
  - intros m Hm. simpl in Hm. lia.
Qed.

Lemma full_order_permutation (n : nat) (order : list nat) :
  NoDup order -> Forall (fun c => (c < n)%nat) order -> length order = n ->
  Permutation order (seq 0 n).
Proof.
  intros Hnd Hrg Hlen. apply NoDup_Permutation_bis; auto.
  - rewrite length_seq. lia.
  - intros c Hc. rewrite Forall_forall in Hrg. apply in_seq. specialize (Hrg _ Hc). lia.
Qed.

(** The loop of lines 410-421 on an [n x n] matrix of finite distances [d],
    for every start index that Python resolves to a position [s0]. *)
Lemma nn_run_correct (d : nat -> nat -> R) (n : nat) (D : list (list ext))
  (start_idx : Z) (s0 : nat) :
  matrix_of d n D ->
  py_index n start_idx = Ok s0 ->
  exists order,
    (visited <- setitem (repeat false n) start_idx true ;;
     tour <- setitem (repeat 0%Z n) 0 start_idx ;;
     st <- nn_loop (mk_nn D visited tour start_idx) (seq 1 (n - 1)) ;;
     Ok (st_tour st)) = Ok (start_idx :: map Z.of_nat (tl order)) /\
    hd 0%nat order = s0 /\
    Permutation order (seq 0 n) /\
    greedy_by d n order.
Proof.
  intros HD Hs. pose proof (py_index_bound _ _ _ Hs) as [Hlt _].
  pose proof (nn_init_inv d n D start_idx s0 HD Hs) as I0.
  destruct (nn_loop_inv d n start_idx (n - 1) [s0] _ I0)
    as (order & st & Hloop & I & Hlen).
  { simpl. lia. }
  exists order.
  unfold setitem at 1. rewrite repeat_length, Hs. simpl.
  change 0%Z with (Z.of_nat 0). rewrite setitem_nat by (rewrite repeat_length; lia).
  simpl. simpl in Hloop. rewrite Hloop. simpl.
  destruct I as [Hne Hnd Hrg Hst _ Htl Htour _ _ _ _ _ Hgr].
  rewrite Hlen, <- Htl, firstn_all in Htour. rewrite Htour.
  split; [reflexivity|]. split; [congruence|].
  split; [now apply full_order_permutation | exact Hgr].
Qed.

(** The index array the planner builds, for every start index that Python
    resolves to a position [s0] of [coords]. *)
Lemma nn_tsp_order_correct (coords : list point) (start_idx : Z) (s0 : nat) :
  py_index (length coords) start_idx = Ok s0 ->
  exists order,
    nn_tsp_order coords start_idx = Ok (start_idx :: map Z.of_nat (tl order)) /\
    hd 0%nat order = s0 /\
    Permutation order (seq 0 (length coords)) /\
    greedy coords order.
Proof.
  intros Hs.
  exact (nn_run_correct (dist coords) (length coords) (cdist coords coords)
           start_idx s0 (matrix_of_cdist coords) Hs).
Qed.

Lemma take_rows_nat {A : Type} (l : list A) (d : A) (idx : list nat) :
  Forall (fun c => (c < length l)%nat) idx ->
  take_rows l (map Z.of_nat idx) = Ok (map (fun i => nth i l d) idx).
Proof.
  induction 1 as [|i idx Hi _ IH]; simpl; [reflexivity|].
  destruct (nth_error_lt l i Hi) as [a Ha].
  rewrite (getitem_nat _ _ _ Ha). simpl. rewrite IH. simpl.
  now rewrite (nth_error_nth _ _ d Ha).
Qed.

Lemma map_nth_seq {A : Type} (l : list A) (d : A) :
  map (fun i => nth i l d) (seq 0 (length l)) = l.
Proof.
  induction l as [|a l IH]; simpl; [reflexivity|].
  f_equal. rewrite <- seq_shift, map_map. exact IH.
Qed.

(** The tour returned by the planner. *)
Lemma nn_tsp_matrix_correct (coords : list point) (start_idx : Z) (s0 : nat) :
  py_index (length coords) start_idx = Ok s0 ->
  exists order,
    nn_tsp_order coords start_idx = Ok (start_idx :: map Z.of_nat (tl order)) /\
    nn_tsp_matrix coords start_idx = Ok (map (fun i => nth i coords (0, 0)) order) /\
    hd 0%nat order = s0 /\
    Permutation order (seq 0 (length coords)) /\
    greedy coords order.
Proof.
  intros Hs.
  destruct (nn_tsp_order_correct coords start_idx s0 Hs) as (order & Ho & Hhd & Hperm & Hgr).
  exists order. split; [exact Ho|].
  split; [|split; [exact Hhd | split; assumption]].
  unfold nn_tsp_matrix. rewrite Ho. simpl.
  assert (Hrg : Forall (fun c => (c < length coords)%nat) order).
  { apply Forall_forall. intros c Hc.
    apply (Permutation_in _ Hperm), in_seq in Hc. lia. }
  destruct order as [|o order]; [apply Permutation_nil in Hperm; simpl in Hhd |].
  - pose proof (py_index_bound _ _ _ Hs) as [Hlt _].
    apply (f_equal (@length nat)) in Hperm. rewrite length_seq in Hperm. simpl in Hperm. lia.
  - simpl in *. subst o. inversion Hrg as [|? ? Ho1 Ho2]; subst.
    destruct (nth_error_lt coords s0 Ho1) as [a Ha].
    rewrite (getitem_index _ _ _ _ Hs Ha). simpl.
    rewrite (take_rows_nat coords (0, 0) order Ho2). simpl.
    do 2 f_equal. symmetry. now apply nth_error_nth.
Qed.

(** ** The planner's tour *)

(** C3.  For a non-empty coordinate array and a start index in range, the
    planner returns a tour that is a permutation of the coordinates, as long
    as the input, beginning with the coordinate at the start index; it lists
    the coordinates at an order of positions in which every position of the
    input occurs, and none twice. *)
Theorem nn_tsp_matrix_permutation (coords : list point) (start_idx : Z) :
  coords <> [] ->
  (0 <= start_idx < Z.of_nat (length coords))%Z ->
  exists tour,
    nn_tsp_matrix coords start_idx = Ok tour /\
    Permutation tour coords /\
    length tour = length coords /\
    nth_error tour 0 = nth_error coords (Z.to_nat start_idx) /\
    exists order,
      tour = map (fun i => nth i coords (0, 0)) order /\
      NoDup order /\
      forall c, (c < length coords)%nat <-> In c order.
Proof.
  intros _ Hs.
  assert (Hidx : py_index (length coords) start_idx = Ok (Z.to_nat start_idx)).
  { rewrite <- (Z2Nat.id start_idx) at 1 by lia. apply py_index_nat. lia. }
  destruct (nn_tsp_matrix_correct coords start_idx _ Hidx)
    as (order & _ & Ht & Hhd & Hperm & _).
  exists (map (fun i => nth i coords (0, 0)) order).
  split; [exact Ht|].
  assert (Hp : Permutation (map (fun i => nth i coords (0, 0)) order) coords).
  { apply Permutation_trans with (map (fun i => nth i coords (0, 0)) (seq 0 (length coords))).
    - now apply Permutation_map.
    - now rewrite map_nth_seq. }
  split; [exact Hp|]. split; [now apply Permutation_length|]. split.
  - destruct order as [|o order]; simpl in *.
    + apply Permutation_nil in Hperm. apply (f_equal (@length nat)) in Hperm.
      rewrite length_seq in Hperm. simpl in Hperm. lia.
    + subst o. symmetry. apply nth_error_nth'. lia.
  - exists order. split; [reflexivity|]. split.
    + apply (Permutation_NoDup (Permutation_sym Hperm)). apply seq_NoDup.
    + intros c. split; intros Hc.
      * apply (Permutation_in _ (Permutation_sym Hperm)). apply in_seq. lia.
      * apply (Permutation_in _ Hperm), in_seq in Hc. lia.
Qed.

Lemma nn_tsp_matrix_permutation_witness :
  let coords := [(0, 0); (1, 0); (1, 1)] in
  coords <> [] /\
  (0 <= 1 < Z.of_nat (length coords))%Z /\
  exists tour,
    nn_tsp_matrix coords 1 = Ok tour /\
    Permutation tour coords /\
    length tour = length coords /\
    nth_error tour 0 = nth_error coords (Z.to_nat 1) /\
    exists order,
      tour = map (fun i => nth i coords (0, 0)) order /\
      NoDup order /\
      forall c, (c < length coords)%nat <-> In c order.
Proof.
  intros coords.
  split; [discriminate|]. split; [simpl; lia|].
  apply (nn_tsp_matrix_permutation coords 1); [discriminate | simpl; lia].
Defined.

Example nn_tsp_matrix_two_points :
  nn_tsp_matrix two_points 0 = Ok [(0, 0); (1, 0)].
Proof. reflexivity. Qed.

Example nn_tsp_matrix_two_points_from_end :
  nn_tsp_matrix two_points (-1) = Ok [(1, 0); (0, 0)].
Proof. reflexivity. Qed.

(** ** Failures of the planner *)

Lemma nn_tsp_order_index_error (coords : list point) (start_idx : Z) :
  py_index (length coords) start_idx = Raise IndexError ->
  nn_tsp_order coords start_idx = Raise IndexError.
Proof.
  intros H. unfold nn_tsp_order, setitem at 1. now rewrite repeat_length, H.
Qed.

(** C4 (amended).  On an empty coordinate array, and with a start index
    [s >= k] or [s < -k] on an array of [k] coordinates, the planner raises
    IndexError: it is the write [visited[start_idx] = True] that fails, no
    tour is returned, and the read of [coord_arr[start_n]] that precedes the
    planner in [compressedSensing] fails the same way on an empty array. *)
Theorem nn_tsp_matrix_index_error (coords : list point) (start_idx : Z) :
  coords = [] \/
  (start_idx < - Z.of_nat (length coords))%Z \/
  (Z.of_nat (length coords) <= start_idx)%Z ->
  setitem (repeat false (length coords)) start_idx true = Raise IndexError /\
  nn_tsp_order coords start_idx = Raise IndexError /\
  nn_tsp_matrix coords start_idx = Raise IndexError /\
  (coords = [] -> forall start_n, plan coords start_n = Raise IndexError).
Proof.
  intros H.
  assert (Hidx : py_index (length coords) start_idx = Raise IndexError).
  { apply py_index_out. destruct H as [-> | H]; simpl; lia. }
  split; [|split; [|split]].
  - unfold setitem. now rewrite repeat_length, Hidx.
  - now apply nn_tsp_order_index_error.
  - unfold nn_tsp_matrix. now rewrite nn_tsp_order_index_error.
  - intros -> start_n. unfold plan, getitem.
    rewrite py_index_out; [reflexivity | simpl; lia].
Qed.

Lemma nn_tsp_matrix_index_error_witness :
  (two_points = [] \/
   (2 < - Z.of_nat (length two_points))%Z \/
   (Z.of_nat (length two_points) <= 2)%Z) /\
  nn_tsp_matrix two_points 2 = Raise IndexError.
Proof.
  assert (H : two_points = [] \/
              (2 < - Z.of_nat (length two_points))%Z \/
              (Z.of_nat (length two_points) <= 2)%Z) by (right; right; simpl; lia).
  split; [exact H|].
  apply (nn_tsp_matrix_index_error two_points 2 H).
Defined.

(** C4, as stated, fails: the start index [-1] is outside [0 <= s < k], and
    the planner returns a tour for it. *)
Lemma nn_tsp_matrix_accepts_negative_start :
  ~ (0 <= -1 < Z.of_nat (length two_points))%Z /\
  nn_tsp_matrix two_points (-1) = Ok [(1, 0); (0, 0)].
Proof. split; [lia | reflexivity]. Qed.

(** Every start index Python resolves is accepted. *)
Lemma nn_tsp_matrix_accepts (coords : list point) (start_idx : Z) :
  (- Z.of_nat (length coords) <= start_idx < Z.of_nat (length coords))%Z ->
  exists tour, nn_tsp_matrix coords start_idx = Ok tour /\ Permutation tour coords.
Proof.
  intros Hs.
  assert (Hidx : exists s0, py_index (length coords) start_idx = Ok s0).
  { destruct (Z.lt_ge_cases start_idx 0).
    - eexists. apply py_index_neg. lia.
    - exists (Z.to_nat start_idx).
      rewrite <- (Z2Nat.id start_idx) at 1 by lia. apply py_index_nat. lia. }
  destruct Hidx as [s0 Hidx].
  destruct (nn_tsp_matrix_correct coords start_idx _ Hidx)
    as (order & _ & Ht & _ & Hperm & _).
  eexists. split; [exact Ht|].
  apply Permutation_trans with (map (fun i => nth i coords (0, 0)) (seq 0 (length coords))).
  - now apply Permutation_map.
  - now rewrite map_nth_seq.
Qed.

(** ** The length of the tour *)

Lemma np_sum_acc (l : list R) (a : R) : fold_left Rplus l a = a + np_sum l.
Proof.
  unfold np_sum. revert a.
  induction l as [|x l IH]; intros a; simpl; [lra|].
  rewrite (IH (a + x)), (IH (0 + x)). lra.
Qed.

Lemma np_sum_cons (x : R) (l : list R) : np_sum (x :: l) = x + np_sum l.
Proof. unfold np_sum at 1. simpl. rewrite np_sum_acc. lra. Qed.

Lemma distance_euclidean (a b : point) : distance a b = euclidean a b.
Proof. unfold distance, euclidean, np_sum. simpl. f_equal. lra. Qed.

Lemma euclidean_sym (a b : point) : euclidean a b = euclidean b a.
Proof. unfold euclidean. f_equal. lra. Qed.

Lemma euclidean_refl (a : point) : euclidean a a = 0.
Proof.
  unfold euclidean.
  replace ((fst a - fst a) ^ 2 + (snd a - snd a) ^ 2) with 0 by lra.
  apply sqrt_0.
Qed.

Lemma item_nat (tour : list point) (i : nat) :
  (i < length tour)%nat -> item tour (Z.of_nat i) = nth i tour (0, 0).
Proof.
  intros Hi. unfold item. destruct (nth_error_lt tour i Hi) as [a Ha].
  rewrite (getitem_nat _ _ _ Ha). symmetry. now apply nth_error_nth.
Qed.

Lemma nth_length_last {A : Type} (a d : A) (l : list A) :
  nth (length l) (a :: l) d = last (a :: l) d.
Proof.
  revert a. induction l as [|b l IH]; intros a; [reflexivity|].
  change (nth (length (b :: l)) (a :: b :: l) d) with (nth (length l) (b :: l) d).
  rewrite IH. reflexivity.
Qed.

Lemma item_last (a : point) (tour : list point) :
  item (a :: tour) (-1) = last (a :: tour) (0, 0).
Proof.
  assert (Hi : py_index (length (a :: tour)) (-1) = Ok (length tour)).
  { rewrite py_index_neg by (simpl length; lia). f_equal. simpl length. lia. }
  destruct (nth_error_lt (a :: tour) (length tour)) as [c Hc]; [simpl; lia|].
  unfold item. rewrite (getitem_index _ _ _ _ Hi Hc).
  apply nth_error_nth with (d := (0, 0)) in Hc. rewrite <- Hc.
  apply nth_length_last.
Qed.

(** The terms [i = 1 .. len-1] of the sum are the open path. *)
Lemma sum_consecutive (tour : list point) :
  forall a,
    np_sum (map (fun i => distance (nth i tour (0, 0)) (nth i (a :: tour) (0, 0)))
                (seq 0 (length tour)))
    = open_path_length (a :: tour).
Proof.
  induction tour as [|b tour IH]; intros a; [reflexivity|].
  cbn [length seq map]. rewrite np_sum_cons.
  rewrite <- seq_shift, map_map.
  cbn [nth]. rewrite distance_euclidean, (euclidean_sym b a).
  change (open_path_length (a :: b :: tour))
    with (euclidean a b + open_path_length (b :: tour)).
  f_equal. rewrite <- IH. reflexivity.
Qed.

(** What [tour_length] adds up: the edge from the last city back to the
    first, then the open path. *)
Lemma tour_length_closed (a : point) (tour : list point) :
  tour_length (a :: tour) =
  euclidean a (last (a :: tour) (0, 0)) + open_path_length (a :: tour).
Proof.
  unfold tour_length. cbn [length seq map]. rewrite np_sum_cons.
  change (Z.of_nat 0 - 1)%Z with (-1)%Z. rewrite item_last.
  change (item (a :: tour) (Z.of_nat 0)) with a.
  rewrite distance_euclidean. f_equal.
  rewrite <- sum_consecutive, <- seq_shift, map_map.
  f_equal. apply map_ext_in. intros i Hi. apply in_seq in Hi.
  replace (Z.of_nat (S i) - 1)%Z with (Z.of_nat i) by lia.
  rewrite !item_nat by (simpl; lia). reflexivity.
Qed.

Example euclidean_two_points : euclidean (0, 0) (1, 0) = 1.
Proof.
  unfold euclidean. simpl fst. simpl snd.
  replace ((0 - 1) ^ 2 + (0 - 0) ^ 2) with 1 by lra. apply sqrt_1.
Qed.

(** C1, as stated, fails: on the two points (0,0) and (1,0), at distance 1,
    the planner's tour has the open-path length 1 and [tour_length] is 2. *)
Lemma tour_length_two_points_is_doubled :
  nn_tsp_matrix two_points 0 = Ok [(0, 0); (1, 0)] /\
  open_path_length [(0, 0); (1, 0)] = euclidean (0, 0) (1, 0) /\
  tour_length [(0, 0); (1, 0)] = 2 /\
  tour_length [(0, 0); (1, 0)] <> open_path_length [(0, 0); (1, 0)].
Proof.
  assert (Hopen : open_path_length [(0, 0); (1, 0)] = euclidean (0, 0) (1, 0)).
  { simpl. lra. }
  assert (Hlen : tour_length [(0, 0); (1, 0)] = 2).
  { rewrite tour_length_closed, Hopen. simpl last. rewrite euclidean_two_points. lra. }
  split; [reflexivity|]. split; [exact Hopen|]. split; [exact Hlen|].
  rewrite Hlen, Hopen, euclidean_two_points. lra.
Qed.

(** C1 (amended).  For every tour the planner returns, [tour_length] is the
    open-path sum of the consecutive Euclidean distances plus the closing
    edge between the last point and the start; for a tour of two points that
    is twice their distance, and for a tour of one point it is 0. *)
Theorem tour_length_closed_cycle (coords : list point) (start_idx : Z) (tour : list point) :
  nn_tsp_matrix coords start_idx = Ok tour ->
  tour_length tour =
    open_path_length tour + euclidean (last tour (0, 0)) (hd (0, 0) tour) /\
  (forall a b, tour = [a; b] -> tour_length tour = 2 * euclidean a b) /\
  (forall a, tour = [a] -> tour_length tour = 0).
Proof.
  intros _.
  assert (Hgen : tour_length tour =
                 open_path_length tour + euclidean (last tour (0, 0)) (hd (0, 0) tour)).
  { destruct tour as [|a tour].
    - unfold tour_length. simpl. rewrite euclidean_refl. unfold np_sum. simpl. lra.
    - rewrite tour_length_closed. cbn [hd].
      rewrite (euclidean_sym a). lra. }
  split; [exact Hgen|]. split.
  - intros a b ->. rewrite Hgen. simpl. rewrite (euclidean_sym b a). lra.
  - intros a ->. rewrite Hgen. simpl. rewrite euclidean_refl. lra.
Qed.

Lemma tour_length_closed_cycle_witness :
  nn_tsp_matrix two_points 0 = Ok [(0, 0); (1, 0)] /\
  tour_length [(0, 0); (1, 0)] = 2 * euclidean (0, 0) (1, 0).
Proof.
  assert (H : nn_tsp_matrix two_points 0 = Ok [(0, 0); (1, 0)]) by reflexivity.
  split; [exact H|].
  apply (proj1 (proj2 (tour_length_closed_cycle two_points 0 _ H))). reflexivity.
Defined.

(** ** Floors, ceilings and the enumeration of the flat indices *)

Lemma math_ceil_spec (x : R) :
  IZR (math_ceil x) - 1 < x <= IZR (math_ceil x).
Proof.
  unfold math_ceil. rewrite opp_IZR.
  destruct (base_Int_part (- x)) as [H1 H2]. lra.
Qed.

Lemma math_ceil_le (x : R) (z : Z) : x <= IZR z -> (math_ceil x <= z)%Z.
Proof.
  intros H. destruct (math_ceil_spec x) as [H1 _].
  apply Z.lt_succ_r. apply lt_IZR. rewrite succ_IZR. lra.
Qed.

Lemma math_ceil_nonneg (x : R) : 0 <= x -> (0 <= math_ceil x)%Z.
Proof.
  intros H. destruct (math_ceil_spec x) as [_ H2].
  apply le_IZR. lra.
Qed.

Lemma math_ceil_IZR (z : Z) : math_ceil (IZR z) = z.
Proof.
  destruct (math_ceil_spec (IZR z)) as [H1 H2].
  apply le_IZR in H2.
  assert (H3 : (math_ceil (IZR z) < z + 1)%Z) by (apply lt_IZR; rewrite plus_IZR; lra).
  lia.
Qed.

Lemma INR_div_mod (idx n : nat) :
  n <> 0%nat -> INR idx = INR n * INR (idx / n) + INR (idx mod n).
Proof.
  intros Hn. rewrite <- mult_INR, <- plus_INR. f_equal. now apply Nat.div_mod.
Qed.

(** [math.floor(point / n)] on the float that holds a flat index is the
    integer quotient. *)
Lemma math_floor_index (idx n : nat) :
  n <> 0%nat -> math_floor (INR idx / INR n) = Z.of_nat (idx / n).
Proof.
  intros Hn. unfold math_floor. symmetry. apply Int_part_spec.
  rewrite <- INR_IZR_INZ.
  assert (Hpos : 0 < INR n) by (apply lt_0_INR; lia).
  assert (Hm : 0 <= INR (idx mod n) < INR n).
  { split; [apply pos_INR | apply lt_INR, Nat.mod_upper_bound; assumption]. }
  rewrite (INR_div_mod idx n Hn).
  replace ((INR n * INR (idx / n) + INR (idx mod n)) / INR n)
    with (INR (idx / n) + INR (idx mod n) / INR n) by (field; lra).
  assert (0 <= INR (idx mod n) / INR n < 1).
  { split.
    - apply Rmult_le_pos; [lra | left; now apply Rinv_0_lt_compat].
    - apply Rmult_lt_reg_r with (INR n); [assumption|].
      unfold Rdiv. rewrite Rmult_assoc, Rinv_l by lra. lra. }
  lra.
Qed.

(** [point % n] on the float that holds a flat index is the remainder. *)
Lemma py_fmod_index (idx n : nat) :
  n <> 0%nat -> py_fmod (INR idx) (INR n) = INR (idx mod n).
Proof.
  intros Hn. unfold py_fmod. fold (math_floor (INR idx / INR n)).
  rewrite math_floor_index by assumption. rewrite <- INR_IZR_INZ.
  rewrite (INR_div_mod idx n Hn) at 1. lra.
Qed.

Lemma length_linspace (start stop : R) (num : nat) :
  length (linspace start stop num) = num.
Proof.
  destruct num as [|[|num]]; [reflexivity | reflexivity |].
  unfold linspace. now rewrite length_map, length_seq.
Qed.

(** [np.linspace(0, len-1, num=len)] is [0., 1., ..., len-1.]. *)
Lemma linspace_enumerates (len : nat) :
  linspace 0 (IZR (Z.of_nat len - 1)) len = map INR (seq 0 len).
Proof.
  destruct len as [|[|len]]; [reflexivity | reflexivity |].
  unfold linspace. apply map_ext. intros i.
  replace (IZR (Z.of_nat (S (S len)) - 1)) with (INR (S (S len) - 1)).
  - assert (0 < INR (S (S len) - 1)) by (apply lt_0_INR; lia).
    field. lra.
  - rewrite INR_IZR_INZ. f_equal. lia.
Qed.

Lemma choice_1D_arr_nth (a : ndarray) (i : nat) :
  (i < len_flat_input a)%nat -> nth i (choice_1D_arr a) 0 = INR i.
Proof.
  intros Hi. unfold choice_1D_arr. rewrite linspace_enumerates.
  change 0 with (INR 0). rewrite map_nth. now rewrite seq_nth.
Qed.

(** ** The coordinate loop *)

Lemma coord_body_ok (shape0 : nat) (sc : R) (v : loop_vars) (pt : R) :
  (v_n v < length (v_coord_arr v))%nat ->
  let c := coord_of shape0 sc pt in
  let arr := upd (v_coord_arr v) (v_n v) c in
  coord_body shape0 sc v pt =
  Ok (if Rltb (v_max_sum v) (l1_norm c)
      then mk_vars (S (v_n v)) (l1_norm c) (v_n v) arr
      else mk_vars (S (v_n v)) (v_max_sum v) (v_start_n v) arr).
Proof.
  intros Hn c arr. unfold coord_body. rewrite setitem_nat by assumption.
  unfold arr, c, l1_norm, coord_of. simpl.
  destruct (Rltb (v_max_sum v) _); reflexivity.
Qed.

Lemma coord_body_raises (shape0 : nat) (sc : R) (v : loop_vars) (pt : R) :
  (length (v_coord_arr v) <= v_n v)%nat ->
  coord_body shape0 sc v pt = Raise IndexError.
Proof.
  intros Hn. unfold coord_body, setitem.
  rewrite py_index_out by lia. reflexivity.
Qed.

Lemma in_upd {A : Type} (l : list A) (k : nat) (v x : A) :
  In x (upd l k v) -> x = v \/ In x l.
Proof.
  revert k. induction l as [|a l IH]; intros [|k]; simpl; auto.
  - intros [<- | H]; auto.
  - intros [<- | H]; auto. destruct (IH _ H); auto.
Qed.

Lemma skipn_upd_lt {A : Type} (l : list A) (k m : nat) (v : A) :
  (k < m)%nat -> skipn m (upd l k v) = skipn m l.
Proof.
  revert k m. induction l as [|a l IH]; intros [|k] [|m] Hk; simpl; auto; try lia.
  apply IH. lia.
Qed.

(** The loop fills the rows [v_n .. v_n + len(pts) - 1] in order. *)
Lemma coord_loop_run (shape0 : nat) (sc : R) (pts : list R) :
  forall v,
    (v_n v + length pts <= length (v_coord_arr v))%nat ->
    exists v',
      coord_loop shape0 sc v pts = Ok v' /\
      v_coord_arr v' =
        firstn (v_n v) (v_coord_arr v) ++ map (coord_of shape0 sc) pts
               ++ skipn (v_n v + length pts) (v_coord_arr v).
Proof.
  induction pts as [|pt pts IH]; intros v Hlen; simpl in *.
  - exists v. split; [reflexivity|]. rewrite Nat.add_0_r. now rewrite firstn_skipn.
  - rewrite coord_body_ok by lia. simpl.
    set (c := coord_of shape0 sc pt). set (arr := upd (v_coord_arr v) (v_n v) c).
    set (v1 := if Rltb (v_max_sum v) (l1_norm c)
               then mk_vars (S (v_n v)) (l1_norm c) (v_n v) arr
               else mk_vars (S (v_n v)) (v_max_sum v) (v_start_n v) arr).
    assert (Hn1 : v_n v1 = S (v_n v)) by (unfold v1; destruct (Rltb _ _); reflexivity).
    assert (Ha1 : v_coord_arr v1 = arr) by (unfold v1; destruct (Rltb _ _); reflexivity).
    destruct (IH v1) as (v' & Hrun & Harr).
    { rewrite Hn1, Ha1. unfold arr. rewrite length_upd. lia. }
    exists v'. split; [exact Hrun|].
    rewrite Harr, Hn1, Ha1. unfold arr.
    rewrite firstn_upd_snoc by lia. rewrite skipn_upd_lt by lia.
    rewrite <- app_assoc.
    replace (v_n v + S (length pts))%nat with (S (v_n v) + length pts)%nat by lia.
    reflexivity.
Qed.

Lemma coord_body_max (shape0 : nat) (sc : R) (v v' : loop_vars) (pt : R) :
  max_inv v -> coord_body shape0 sc v pt = Ok v' -> max_inv v'.
Proof.
  intros (Hpos & Hall & Hst) Hb.
  destruct (Nat.lt_ge_cases (v_n v) (length (v_coord_arr v))) as [Hn | Hn];
    [| rewrite coord_body_raises in Hb by assumption; discriminate].
  rewrite coord_body_ok in Hb by assumption.
  set (c := coord_of shape0 sc pt) in *.
  destruct (Rltb (v_max_sum v) (l1_norm c)) eqn:E; injection Hb as <-;
    unfold max_inv; simpl.
  - apply Rltb_true in E. split; [lra|]. split.
    + intros c' Hc'. destruct (in_upd _ _ _ _ Hc') as [-> | Hin]; [lra|].
      specialize (Hall _ Hin). lra.
    + left. split; [lia|]. exists c. split; [now apply nth_error_upd_eq | reflexivity].
  - apply Rltb_false in E. split; [assumption|]. split.
    + intros c' Hc'. destruct (in_upd _ _ _ _ Hc') as [-> | Hin]; auto.
    + destruct Hst as [(Hlt & c0 & Hc0 & Hl) | Hz]; [left | right; assumption].
      split; [lia|]. exists c0. split; [|assumption].
      rewrite nth_error_upd_neq by lia. assumption.
Qed.

Lemma coord_loop_max (shape0 : nat) (sc : R) (pts : list R) :
  forall v v', max_inv v -> coord_loop shape0 sc v pts = Ok v' -> max_inv v'.
Proof.
  induction pts as [|pt pts IH]; intros v v' Hv Hrun; simpl in Hrun.
  - now injection Hrun as <-.
  - destruct (coord_body shape0 sc v pt) as [v1|e] eqn:Hb; [|discriminate].
    simpl in Hrun. apply (IH v1 v'); [|assumption].
    now apply (coord_body_max shape0 sc v v1 pt).
Qed.

Lemma l1_norm_nonneg (c : point) : 0 <= l1_norm c.
Proof.
  unfold l1_norm. pose proof (Rabs_pos (fst c)). pose proof (Rabs_pos (snd c)). lra.
Qed.

Lemma max_inv_zeros (k : nat) : max_inv (mk_vars 0 0 0 (repeat (0, 0) k)).
Proof.
  unfold max_inv. simpl. split; [lra|]. split; [|right; auto].
  intros c Hc. apply repeat_spec in Hc. subst c.
  unfold l1_norm. simpl. rewrite Rabs_R0. lra.
Qed.

(** ** The sampler on valid inputs *)

Lemma np_sum_map_div (s : R) (ws : list R) :
  np_sum (map (fun x => x / s) ws) = np_sum ws / s.
Proof.
  induction ws as [|x ws IH]; simpl.
  - unfold np_sum. simpl. lra.
  - rewrite !np_sum_cons, IH. lra.
Qed.

Lemma count_positive_scale (s : R) (ws : list R) :
  0 < s -> count_positive (map (fun x => x / s) ws) = count_positive ws.
Proof.
  intros Hs. unfold count_positive.
  induction ws as [|x ws IH]; simpl; [reflexivity|].
  assert (E : Rltb 0 (x / s) = Rltb 0 x).
  { destruct (Rltb 0 x) eqn:Ex.
    - apply Rltb_true in Ex. apply Rltb_true. now apply Rdiv_lt_0_compat.
    - apply Rltb_false in Ex. apply Rltb_false.
      pose proof (Rinv_0_lt_compat s Hs). unfold Rdiv. nra. }
  rewrite E. destruct (Rltb 0 x); simpl; now rewrite IH.
Qed.

Lemma atol_pos : 0 < atol.
Proof. unfold atol. apply Rinv_0_lt_compat. apply pow_lt. lra. Qed.

Lemma valid_len (a : ndarray) (n : nat) :
  valid_density_map a n -> len_flat_input a = (n * n)%nat /\ (4 <= n * n)%nat.
Proof.
  intros (Hsh & Hwf & Hn & _). unfold len_flat_input.
  unfold wf_ndarray in Hwf. rewrite Hsh in Hwf. simpl in Hwf.
  rewrite Hwf. split; [lia | nia].
Qed.

Lemma valid_validate (a : ndarray) (n : nat) (p : R) :
  valid_density_map a n -> 0 <= p <= 1 -> validate a p = Ok tt.
Proof.
  intros (Hsh & _) Hp. unfold validate. rewrite Hsh. simpl.
  rewrite Nat.eqb_refl. simpl.
  assert (E1 : Rltb 1 p = false) by (apply Rltb_false; lra).
  assert (E2 : Rltb p 0 = false) by (apply Rltb_false; lra).
  now rewrite E1, E2.
Qed.

Lemma valid_flat_input (a : ndarray) (n : nat) :
  valid_density_map a n ->
  flat_input a = Some (map (fun x => x / np_sum (flatten a)) (flatten a)).
Proof.
  intros (_ & _ & _ & _ & Hs). unfold flat_input.
  destruct (Req_dec_T (np_sum (flatten a)) 0); [lra | reflexivity].
Qed.

Lemma valid_sample_size (a : ndarray) (n : nat) (p : R) :
  valid_density_map a n -> 0 <= p <= 1 ->
  (0 <= sample_size a p <= Z.of_nat (len_flat_input a))%Z.
Proof.
  intros Hv Hp. unfold sample_size.
  pose proof (pos_INR (len_flat_input a)) as Hl.
  split.
  - apply math_ceil_nonneg. apply Rmult_le_pos; lra.
  - apply math_ceil_le. rewrite <- INR_IZR_INZ. nra.
Qed.

Lemma valid_choice_check (a : ndarray) (n : nat) (p : R) :
  valid_density_map a n -> 0 <= p <= 1 ->
  (sample_size a p <= Z.of_nat (count_positive (flatten a)))%Z ->
  choice_check (choice_1D_arr a) (sample_size a p) (flat_input a) = Ok tt.
Proof.
  intros Hv Hp Hcnt.
  pose proof (valid_len a n Hv) as [Hlen Hlen4].
  pose proof (valid_sample_size a n p Hv Hp) as Hsz.
  rewrite (valid_flat_input a n Hv).
  destruct Hv as (_ & _ & _ & Hnn & Hs).
  set (s := np_sum (flatten a)) in *.
  unfold choice_check, choice_1D_arr.
  rewrite length_linspace, length_map. fold (len_flat_input a).
  replace (len_flat_input a =? 0)%nat with false by (symmetry; apply Nat.eqb_neq; lia).
  rewrite Nat.eqb_refl. simpl.
  replace (existsb (fun x => Rltb x 0) (map (fun x => x / s) (flatten a))) with false.
  2:{ symmetry. apply not_true_is_false. intros E.
      apply existsb_exists in E. destruct E as (x & Hx & Hlt).
      apply in_map_iff in Hx. destruct Hx as (x0 & <- & Hx0).
      rewrite Forall_forall in Hnn. specialize (Hnn _ Hx0).
      apply Rltb_true in Hlt.
      assert (0 <= x0 / s).
      { apply Rmult_le_pos; [assumption | left; now apply Rinv_0_lt_compat]. }
      lra. }
  rewrite np_sum_map_div. fold s.
  replace (Rltb atol (Rabs (s / s - 1))) with false.
  2:{ symmetry. apply Rltb_false.
      replace (s / s - 1) with 0 by (field; lra).
      rewrite Rabs_R0. left. apply atol_pos. }
  replace (Z.of_nat (len_flat_input a) <? sample_size a p)%Z with false
    by (symmetry; apply Z.ltb_ge; lia).
  replace (sample_size a p <? 0)%Z with false by (symmetry; apply Z.ltb_ge; lia).
  rewrite count_positive_scale by assumption.
  replace (Z.of_nat (count_positive (flatten a)) <? sample_size a p)%Z with false
    by (symmetry; apply Z.ltb_ge; lia).
  reflexivity.
Qed.

Lemma coord_of_index (n idx : nat) (sc : R) :
  n <> 0%nat ->
  coord_of n sc (INR idx) = (1 - INR (idx / n) * sc, -1 + INR (idx mod n) * sc).
Proof.
  intros Hn. unfold coord_of.
  rewrite math_floor_index, py_fmod_index by assumption.
  now rewrite <- INR_IZR_INZ.
Qed.

Lemma valid_scale_const (a : ndarray) (n : nat) :
  valid_density_map a n -> scale_const a = Ok (2 / (INR n - 1)).
Proof.
  intros (Hsh & _ & Hn & _). unfold scale_const, py_truediv. rewrite Hsh. simpl nth.
  destruct (Z.eqb_spec (Z.of_nat n - 1) 0); [lia|].
  rewrite minus_IZR, <- INR_IZR_INZ. reflexivity.
Qed.

(** On a valid map, with enough positive cells and a fair draw, the sampler
    consumes one draw, prints the count and returns the coordinates of the
    drawn flat indices in drawing order. *)
Lemma sampler_valid (a : ndarray) (n : nat) (p : R) (w : world) :
  valid_density_map a n ->
  0 <= p <= 1 ->
  (sample_size a p <= Z.of_nat (count_positive (flatten a)))%Z ->
  fair_draw a p w ->
  exists start_n,
    sampler a p w =
    (Ok (map (spec_coordinate n) (next_draw w), start_n),
     print "# of measurement points" (length (next_draw w)) (consume_draw w)).
Proof.
  intros Hv Hp Hcnt Hfair.
  pose proof (valid_len a n Hv) as [Hlen _].
  pose proof (valid_sample_size a n p Hv Hp) as Hsz.
  destruct (Hfair _ (valid_flat_input a n Hv)) as (Hdl & _ & Hdr).
  rewrite length_map in Hdr. fold (len_flat_input a) in Hdr.
  assert (Hpts : map (fun i => nth i (choice_1D_arr a) 0) (next_draw w)
                 = map INR (next_draw w)).
  { apply map_ext_in. intros i Hi. rewrite Forall_forall in Hdr.
    apply choice_1D_arr_nth. now apply Hdr. }
  unfold sampler. rewrite (valid_validate a n p Hv Hp).
  unfold draw_TSP_points, random_choice.
  rewrite (valid_choice_check a n p Hv Hp Hcnt), Hpts, length_map.
  unfold coordinates. rewrite (valid_scale_const a n Hv). simpl bind.
  unfold np_zeros. destruct (Z.ltb_spec (sample_size a p) 0); [lia|]. simpl bind.
  assert (Hn : n <> 0%nat) by (destruct Hv as (_ & _ & ? & _); lia).
  assert (Hsh : nth 0 (shape a) 0%nat = n) by (destruct Hv as (-> & _); reflexivity).
  rewrite Hsh.
  destruct (coord_loop_run n (2 / (INR n - 1)) (map INR (next_draw w))
              (mk_vars 0 0 0 (repeat (0, 0) (Z.to_nat (sample_size a p)))))
    as (v' & Hrun & Harr).
  { simpl. rewrite length_map, repeat_length. lia. }
  rewrite Hrun. simpl bind. exists (v_start_n v'). do 3 f_equal.
  rewrite Harr. simpl. rewrite length_map.
  rewrite skipn_all2 by (rewrite repeat_length; lia).
  rewrite app_nil_r, map_map. apply map_ext. intros idx.
  rewrite coord_of_index by assumption. reflexivity.
Qed.

Lemma spec_coordinate_injective (n i j : nat) :
  (2 <= n)%nat -> spec_coordinate n i = spec_coordinate n j -> i = j.
Proof.
  intros Hn. unfold spec_coordinate. intros [= Hx Hy].
  assert (Hpos : 0 < INR n - 1).
  { apply le_INR in Hn. simpl in Hn. lra. }
  assert (Hsc : 0 < 2 / (INR n - 1)) by (apply Rdiv_lt_0_compat; lra).
  assert (Hq : INR (i / n) = INR (j / n)) by nra.
  assert (Hr : INR (i mod n) = INR (j mod n)) by nra.
  apply INR_eq in Hq, Hr.
  rewrite (Nat.div_mod i n), (Nat.div_mod j n) by lia. now rewrite Hq, Hr.
Qed.

Lemma spec_coordinate_in_square (n idx : nat) :
  (2 <= n)%nat -> (idx < n * n)%nat -> in_unit_square (spec_coordinate n idx).
Proof.
  intros Hn Hidx.
  assert (Hpos : 0 < INR n - 1).
  { apply le_INR in Hn. simpl in Hn. lra. }
  assert (Hq : (idx / n <= n - 1)%nat).
  { assert (idx / n < n)%nat by (apply Nat.Div0.div_lt_upper_bound; lia). lia. }
  assert (Hr : (idx mod n <= n - 1)%nat).
  { assert (idx mod n < n)%nat by (apply Nat.mod_upper_bound; lia). lia. }
  apply le_INR in Hq, Hr. rewrite minus_INR in Hq, Hr by lia. simpl in Hq, Hr.
  pose proof (pos_INR (idx / n)). pose proof (pos_INR (idx mod n)).
  assert (Hb : forall t, 0 <= t <= INR n - 1 -> 0 <= t * (2 / (INR n - 1)) <= 2).
  { intros t Ht. unfold Rdiv.
    replace (t * (2 * / (INR n - 1))) with (2 * (t * / (INR n - 1))) by lra.
    assert (0 <= t * / (INR n - 1) <= 1).
    { split.
      - apply Rmult_le_pos; [lra | left; now apply Rinv_0_lt_compat].
      - apply Rmult_le_reg_r with (INR n - 1); [assumption|].
        rewrite Rmult_assoc, Rinv_l by lra. lra. }
    lra. }
  unfold in_unit_square, spec_coordinate. simpl.
  pose proof (Hb (INR (idx / n)) ltac:(lra)).
  pose proof (Hb (INR (idx mod n)) ltac:(lra)).
  lra.
Qed.

(** ** Facts about the example inputs *)

Lemma Rltb_0_1 : Rltb 0 1 = true.
Proof. apply Rltb_true. lra. Qed.

Lemma np_sum_ones : np_sum (flatten ones_2x2) = 4.
Proof. unfold np_sum. simpl. lra. Qed.

Lemma ones_2x2_valid : valid_density_map ones_2x2 2.
Proof.
  split; [reflexivity|]. split; [reflexivity|]. split; [lia|]. split.
  - simpl. repeat constructor; lra.
  - rewrite np_sum_ones. lra.
Qed.

Lemma ones_2x2_sample_size : sample_size ones_2x2 (1 / 2) = 2%Z.
Proof.
  unfold sample_size.
  replace (1 / 2 * INR (len_flat_input ones_2x2)) with (IZR 2) by (simpl; lra).
  apply math_ceil_IZR.
Qed.

Lemma ones_2x2_count_positive : count_positive (flatten ones_2x2) = 4%nat.
Proof. unfold count_positive. simpl. now rewrite Rltb_0_1. Qed.

Lemma ones_2x2_enough : (sample_size ones_2x2 (1 / 2)
                         <= Z.of_nat (count_positive (flatten ones_2x2)))%Z.
Proof. rewrite ones_2x2_sample_size, ones_2x2_count_positive. lia. Qed.


Lemma half_in_range : 0 <= 1 / 2 <= 1.
Proof. lra. Qed.

(** ** The sampler's output *)

Lemma choice_check_few (a : list R) (size : Z) (pr : list R) :
  (Z.of_nat (count_positive pr) < size)%Z ->
  choice_check a size (Some pr) = Raise ValueError.
Proof.
  intros H. apply Z.ltb_lt in H. unfold choice_check. rewrite H.
  repeat match goal with |- context [if ?b then _ else _] => destruct b end;
    reflexivity.
Qed.



(** ** Validation *)

(** C5.  A density map that is not 2-dimensional, or not square, or a ratio
    [p] outside [0, 1], makes the sampler, and so [compressedSensing], raise
    the validation exception with the world as it was: no draw is consumed,
    nothing is printed, no figure is written, no value is returned. *)
Theorem validation_error_before_sampling
  (a : ndarray) (p drift : R) (display_filepath : option string) (w : world) :
  length (shape a) <> 2%nat \/
  nth 0 (shape a) 0%nat <> nth 1 (shape a) 0%nat \/
  p < 0 \/ 1 < p ->
  exists msg,
    validate a p = Raise (Exception msg) /\
    sampler a p w = (Raise (Exception msg), w) /\
    compressedSensing a p drift display_filepath w = (Raise (Exception msg), w).
Proof.
  intros H.
  assert (Hv : exists msg, validate a p = Raise (Exception msg)).
  { unfold validate.
    destruct (Nat.eqb_spec (length (shape a)) 2); simpl; [|eauto].
    destruct (Nat.eqb_spec (nth 0 (shape a) 0%nat) (nth 1 (shape a) 0%nat));
      simpl; [|eauto].
    destruct (Rltb 1 p) eqn:E1; simpl; [eauto|].
    destruct (Rltb p 0) eqn:E2; simpl; [eauto|].
    apply Rltb_false in E1, E2. exfalso.
    destruct H as [H | [H | [H | H]]]; try contradiction; lra. }
  destruct Hv as [msg Hv]. exists msg.
  assert (Hs : sampler a p w = (Raise (Exception msg), w)).
  { unfold sampler. now rewrite Hv. }
  split; [exact Hv|]. split; [exact Hs|].
  unfold compressedSensing. now rewrite Hs.
Qed.

Lemma validation_error_before_sampling_witness :
  nth 0 (shape ones_3x4) 0%nat <> nth 1 (shape ones_3x4) 0%nat /\
  exists msg,
    validate ones_3x4 (1 / 2) = Raise (Exception msg) /\
    sampler ones_3x4 (1 / 2) world_3_0 = (Raise (Exception msg), world_3_0) /\
    compressedSensing ones_3x4 (1 / 2) 0 None world_3_0
    = (Raise (Exception msg), world_3_0).
Proof.
  assert (H : nth 0 (shape ones_3x4) 0%nat <> nth 1 (shape ones_3x4) 0%nat)
    by (simpl; lia).
  split; [exact H|].
  apply (validation_error_before_sampling ones_3x4 (1 / 2) 0 None world_3_0).
  right. left. exact H.
Defined.

Example validate_negative_ratio :
  validate ones_2x2 (- (1 / 10)) = Raise (Exception "p must be between 0 and 1").
Proof.
  unfold validate. simpl.
  assert (E1 : Rltb 1 (- (1 / 10)) = false) by (apply Rltb_false; lra).
  assert (E2 : Rltb (- (1 / 10)) 0 = true) by (apply Rltb_true; lra).
  now rewrite E1, E2.
Qed.

Example validate_non_square :
  validate ones_3x4 (1 / 2) = Raise (Exception "inputProbDensArray must be square array").
Proof. reflexivity. Qed.

(** ** The drift parameter *)

(** C9.  For every input, display path and world (hence for the same random
    draws), any two drift values give the same result and leave the same
    world: neither the path array nor the path length depends on [drift]. *)
Theorem drift_is_inert
  (a : ndarray) (p drift1 drift2 : R) (display_filepath : option string) (w : world) :
  compressedSensing a p drift1 display_filepath w
  = compressedSensing a p drift2 display_filepath w.
Proof. reflexivity. Qed.

(** ** The 1 x 1 map *)

Lemma validate_1x1 (wt p : R) : 0 <= p <= 1 -> validate (map_1x1 wt) p = Ok tt.
Proof.
  intros Hp. unfold validate. simpl.
  assert (E1 : Rltb 1 p = false) by (apply Rltb_false; lra).
  assert (E2 : Rltb p 0 = false) by (apply Rltb_false; lra).
  now rewrite E1, E2.
Qed.

Lemma scale_const_1x1 (wt : R) : scale_const (map_1x1 wt) = Raise ZeroDivisionError.
Proof. reflexivity. Qed.

Lemma flat_input_1x1_zero : flat_input (map_1x1 0) = None.
Proof.
  unfold flat_input. simpl flatten.
  destruct (Req_dec_T (np_sum [0]) 0) as [|Hn]; [reflexivity|].
  exfalso. apply Hn. unfold np_sum. simpl. lra.
Qed.

Lemma flat_input_1x1 (wt : R) : wt <> 0 -> flat_input (map_1x1 wt) = Some [1].
Proof.
  intros Hw. unfold flat_input. simpl flatten.
  assert (Hs : np_sum [wt] = wt) by (unfold np_sum; simpl; lra).
  rewrite Hs. destruct (Req_dec_T wt 0); [contradiction|].
  simpl. do 2 f_equal. now field.
Qed.

Lemma choice_check_1x1 (wt p : R) :
  wt <> 0 -> 0 <= p <= 1 ->
  choice_check (choice_1D_arr (map_1x1 wt)) (sample_size (map_1x1 wt) p)
               (flat_input (map_1x1 wt)) = Ok tt.
Proof.
  intros Hw Hp. rewrite flat_input_1x1 by assumption.
  assert (Hsz : (0 <= sample_size (map_1x1 wt) p <= 1)%Z).
  { unfold sample_size, len_flat_input. simpl. split.
    - apply math_ceil_nonneg. lra.
    - apply math_ceil_le. lra. }
  unfold choice_check, choice_1D_arr, len_flat_input. simpl.
  assert (E1 : Rltb 1 0 = false) by (apply Rltb_false; lra).
  assert (E2 : Rltb atol (Rabs (np_sum [1] - 1)) = false).
  { apply Rltb_false. replace (np_sum [1] - 1) with 0 by (unfold np_sum; simpl; lra).
    rewrite Rabs_R0. left. apply atol_pos. }
  rewrite E1, E2. simpl.
  destruct (Z.ltb_spec 1 (sample_size (map_1x1 wt) p)); [lia|].
  destruct (Z.ltb_spec (sample_size (map_1x1 wt) p) 0); [lia|].
  unfold count_positive. simpl. rewrite Rltb_0_1. simpl.
  destruct (Z.ltb_spec 1 (sample_size (map_1x1 wt) p)); [lia | reflexivity].
Qed.

(** C10, as stated, fails: on the 1 x 1 map of weight 0, validation passes
    and the call raises ValueError where the sites are drawn (the normalised
    weight is NaN), with no draw consumed; the scale is never computed. *)
Lemma zero_1x1_map_fails_at_sampling :
  wf_ndarray (map_1x1 0) /\
  0 <= 1 <= 1 /\
  validate (map_1x1 0) 1 = Ok tt /\
  forall drift display_filepath w,
    compressedSensing (map_1x1 0) 1 drift display_filepath w = (Raise ValueError, w).
Proof.
  split; [reflexivity|]. split; [lra|]. split; [apply validate_1x1; lra|].
  intros drift display_filepath w.
  unfold compressedSensing, sampler. rewrite validate_1x1 by lra.
  unfold draw_TSP_points, random_choice. rewrite flat_input_1x1_zero.
  unfold choice_check, choice_1D_arr, len_flat_input. simpl. reflexivity.
Qed.

(** C10 (amended).  For every 1 x 1 density map and every [p] in [0, 1] the
    validation checks pass and the call raises: with a non-zero weight it
    draws its sites, prints their count and then divides by zero in
    [2/(n - 1)] (ZeroDivisionError); with the weight 0 it raises ValueError
    when it draws.  It never returns a coordinate array and never raises the
    validation exception. *)
Theorem one_cell_map_never_returns
  (wt p drift : R) (display_filepath : option string) (w : world) :
  0 <= p <= 1 ->
  validate (map_1x1 wt) p = Ok tt /\
  scale_const (map_1x1 wt) = Raise ZeroDivisionError /\
  (wt <> 0 ->
   compressedSensing (map_1x1 wt) p drift display_filepath w
   = (Raise ZeroDivisionError,
      print "# of measurement points" (length (next_draw w)) (consume_draw w))) /\
  (wt = 0 ->
   compressedSensing (map_1x1 wt) p drift display_filepath w = (Raise ValueError, w)).
Proof.
  intros Hp. split; [now apply validate_1x1|]. split; [reflexivity|]. split.
  - intros Hw. unfold compressedSensing, sampler. rewrite validate_1x1 by assumption.
    unfold draw_TSP_points, random_choice.
    rewrite choice_check_1x1 by assumption.
    unfold coordinates. rewrite scale_const_1x1. simpl. now rewrite length_map.
  - intros ->. unfold compressedSensing, sampler. rewrite validate_1x1 by assumption.
    unfold draw_TSP_points, random_choice. rewrite flat_input_1x1_zero.
    unfold choice_check, choice_1D_arr, len_flat_input. simpl.
    destruct (sample_size (map_1x1 0) p =? 0)%Z; reflexivity.
Qed.

Lemma one_cell_map_never_returns_witness :
  0 <= 1 / 2 <= 1 /\
  compressedSensing (map_1x1 1) (1 / 2) 0 None world_0
  = (Raise ZeroDivisionError,
     print "# of measurement points" (length (next_draw world_0))
           (consume_draw world_0)).
Proof.
  split; [exact half_in_range|].
  apply (one_cell_map_never_returns 1 (1 / 2) 0 None world_0 half_in_range).
  lra.
Defined.

(** ** Worked examples *)

Example euclidean_left : euclidean (0, 0) (-1, 0) = 1.
Proof.
  unfold euclidean. simpl fst. simpl snd.
  replace ((0 - -1) ^ 2 + (0 - 0) ^ 2) with 1 by lra. apply sqrt_1.
Qed.

(** From (0,0) the points (-1,0) and (1,0) are both at distance 1: the
    planner goes to the one of lower index. *)
Example nn_tsp_matrix_tie :
  nn_tsp_matrix [(0, 0); (-1, 0); (1, 0)] 0 = Ok [(0, 0); (-1, 0); (1, 0)].
Proof.
  assert (E : Rltb (euclidean (0, 0) (1, 0)) (euclidean (0, 0) (-1, 0)) = false).
  { apply Rltb_false. rewrite euclidean_left, euclidean_two_points. lra. }
  unfold nn_tsp_matrix, nn_tsp_order. cbn -[euclidean Rltb]. rewrite E. reflexivity.
Qed.

Lemma coord_of_2_3 : coord_of 2 (2 / (INR 2 - 1)) (INR 3) = (-1, 1).
Proof. rewrite coord_of_index by lia. simpl. f_equal; field. Qed.

Lemma coord_of_2_0 : coord_of 2 (2 / (INR 2 - 1)) (INR 0) = (1, -1).
Proof. rewrite coord_of_index by lia. simpl. f_equal; field. Qed.

(** The flat indices 3 and 0 of a 2 x 2 grid are the corners (-1, 1) and
    (1, -1); both are at L1 distance 2, and the start index stays at the
    first of them. *)
Example coordinates_ones_2x2 :
  coordinates ones_2x2 (1 / 2) [INR 3; INR 0] = Ok ([(-1, 1); (1, -1)], 0%nat).
Proof.
  unfold coordinates.
  rewrite (valid_scale_const _ _ ones_2x2_valid), ones_2x2_sample_size.
  cbn [bind np_zeros Z.ltb Z.compare Z.to_nat Pos.to_nat Pos.iter_op Nat.add repeat
       coord_loop shape ones_2x2 nth].
  rewrite coord_body_ok by (simpl; lia).
  cbn [v_n v_max_sum v_start_n v_coord_arr upd]. rewrite coord_of_2_3.
  assert (E1 : Rltb 0 (l1_norm (-1, 1)) = true).
  { apply Rltb_true. unfold l1_norm, Rabs. simpl. repeat destruct Rcase_abs; lra. }
  rewrite E1. cbn [bind].
  rewrite coord_body_ok by (simpl; lia).
  cbn [v_n v_max_sum v_start_n v_coord_arr upd]. rewrite coord_of_2_0.
  assert (E2 : Rltb (l1_norm (-1, 1)) (l1_norm (1, -1)) = false).
  { apply Rltb_false. unfold l1_norm, Rabs. simpl. repeat destruct Rcase_abs; lra. }
  rewrite E2. reflexivity.
Qed.

(** A complete call: two sites are drawn, the count is printed, and the
    length returned counts the edge between the two corners twice. *)
Example compressedSensing_ones_2x2 (drift : R) :
  compressedSensing ones_2x2 (1 / 2) drift None world_3_0 =
  (Ok ([(-1, 1); (1, -1)], 2 * euclidean (-1, 1) (1, -1)),
   print "# of measurement points" 2 (consume_draw world_3_0)).
Proof.
  unfold compressedSensing, sampler.
  rewrite (valid_validate _ _ _ ones_2x2_valid half_in_range).
  unfold draw_TSP_points, random_choice.
  rewrite (valid_choice_check _ _ _ ones_2x2_valid half_in_range ones_2x2_enough).
  change (next_draw world_3_0) with [3; 0]%nat. cbn [map length].
  rewrite !choice_1D_arr_nth by (unfold len_flat_input; simpl; lia).
  rewrite coordinates_ones_2x2.
  unfold plan. change (Z.of_nat 0) with 0%Z.
  change (getitem [(-1, 1); (1, -1)] 0) with (Ok (A := point) (-1, 1)).
  change (nn_tsp_matrix [(-1, 1); (1, -1)] 0) with (Ok [(-1, 1); (1, -1)]).
  cbn [bind]. rewrite tour_length_closed. simpl. do 3 f_equal. lra.
Qed.

(** * Further properties of the planner *)

(** ** The greedy order is determined by its description *)

Lemma firstn_S_nth {A : Type} (l : list A) (m : nat) (d : A) :
  (m < length l)%nat -> firstn (S m) l = firstn m l ++ [nth m l d].
Proof.
  revert m. induction l as [|a l IH]; intros [|m] Hm; simpl in *; try lia; auto.
  f_equal. apply IH. lia.
Qed.

Lemma firstn_eq_nth {A : Type} (l1 l2 : list A) (m i : nat) (d : A) :
  firstn m l1 = firstn m l2 -> (i < m)%nat -> nth i l1 d = nth i l2 d.
Proof.
  intros H Hi.
  pose proof (nth_firstn m l1 i d) as H1. pose proof (nth_firstn m l2 i d) as H2.
  destruct (Nat.ltb_spec i m); [|lia]. now rewrite <- H1, <- H2, H.
Qed.

Lemma firstn_seq_0 (m k : nat) : (m <= k)%nat -> firstn m (seq 0 k) = seq 0 m.
Proof.
  generalize 0%nat. revert k.
  induction m as [|m IH]; intros [|k] s Hm; simpl; try lia; auto.
  f_equal. apply IH. lia.
Qed.

Lemma nth_not_in_firstn {A : Type} (l : list A) (m j : nat) (d : A) :
  NoDup l -> (m <= j < length l)%nat -> ~ In (nth j l d) (firstn m l).
Proof.
  intros Hnd Hj Hin.
  destruct (In_nth _ _ d Hin) as (i & Hi & Hnth).
  rewrite length_firstn in Hi. rewrite nth_firstn in Hnth.
  destruct (Nat.ltb_spec i m); [|lia].
  apply (proj1 (NoDup_nth l d) Hnd) in Hnth; lia.
Qed.

(** Two visiting orders of the same length that begin at the same position
    and are both greedy agree on every prefix. *)
Lemma greedy_by_prefix_unique (d : nat -> nat -> R) (n : nat) (o1 o2 : list nat) :
  length o1 = length o2 ->
  hd 0%nat o1 = hd 0%nat o2 ->
  greedy_by d n o1 -> greedy_by d n o2 ->
  forall m, (m <= length o1)%nat -> firstn m o1 = firstn m o2.
Proof.
  intros Hlen Hhd G1 G2. induction m as [|m IH]; intros Hm; [reflexivity|].
  destruct (Nat.eq_dec m 0) as [-> | Hm0].
  - destruct o1 as [|a o1], o2 as [|b o2]; simpl in *; try lia. now subst.
  - specialize (IH ltac:(lia)).
    rewrite (firstn_S_nth o1 m 0%nat), (firstn_S_nth o2 m 0%nat) by lia.
    rewrite IH. f_equal. f_equal.
    destruct (G1 m ltac:(lia)) as (Hn1 & Hu1 & Hmin1).
    destruct (G2 m ltac:(lia)) as (Hn2 & Hu2 & Hmin2).
    rewrite <- IH in Hu2, Hmin2.
    rewrite <- (firstn_eq_nth o1 o2 m (m - 1) 0%nat IH) in Hmin2 by lia.
    destruct (Hmin1 _ Hn2 Hu2) as [Hle1 Htie1].
    destruct (Hmin2 _ Hn1 Hu1) as [Hle2 Htie2].
    assert (Heq : d (nth (m - 1) o1 0%nat) (nth m o2 0%nat)
                  = d (nth (m - 1) o1 0%nat) (nth m o1 0%nat)) by lra.
    specialize (Htie1 Heq). specialize (Htie2 (eq_sym Heq)). lia.
Qed.

Lemma greedy_by_unique (d : nat -> nat -> R) (n : nat) (o1 o2 : list nat) :
  length o1 = length o2 ->
  hd 0%nat o1 = hd 0%nat o2 ->
  greedy_by d n o1 -> greedy_by d n o2 ->
  o1 = o2.
Proof.
  intros Hlen Hhd G1 G2.
  pose proof (greedy_by_prefix_unique d n o1 o2 Hlen Hhd G1 G2 (length o1) (le_n _)) as H.
  rewrite firstn_all in H. rewrite Hlen, firstn_all in H. exact H.
Qed.

Lemma greedy_unique (coords : list point) (o1 o2 : list nat) :
  length o1 = length o2 ->
  hd 0%nat o1 = hd 0%nat o2 ->
  greedy coords o1 -> greedy coords o2 ->
  o1 = o2.
Proof. apply greedy_by_unique. Qed.

Lemma py_index_exn (len : nat) (i : Z) (e : exn) :
  py_index len i = Raise e -> e = IndexError.
Proof.
  unfold py_index.
  destruct ((0 <=? i) && (i <? Z.of_nat len))%Z; [discriminate|].
  destruct ((- Z.of_nat len <=? i) && (i <? 0))%Z; [discriminate|].
  now intros [= <-].
Qed.

(** X2.  A start index [s] in [-k .. -1] designates the same city as
    [s + k]: the planner returns the same tour for both. *)
Theorem nn_tsp_matrix_negative_start (coords : list point) (start_idx : Z) :
  (- Z.of_nat (length coords) <= start_idx < 0)%Z ->
  nn_tsp_matrix coords start_idx
  = nn_tsp_matrix coords (start_idx + Z.of_nat (length coords)).
Proof.
  intros Hs.
  set (s0 := Z.to_nat (start_idx + Z.of_nat (length coords))).
  assert (H1 : py_index (length coords) start_idx = Ok s0) by now apply py_index_neg.
  assert (H2 : py_index (length coords) (start_idx + Z.of_nat (length coords)) = Ok s0).
  { unfold s0. rewrite <- (Z2Nat.id (start_idx + _)) at 1 by lia.
    apply py_index_nat. lia. }
  destruct (nn_tsp_matrix_correct coords _ _ H1) as (o1 & _ & Ht1 & Hhd1 & Hp1 & Hg1).
  destruct (nn_tsp_matrix_correct coords _ _ H2) as (o2 & _ & Ht2 & Hhd2 & Hp2 & Hg2).
  rewrite Ht1, Ht2. do 2 f_equal. apply (greedy_unique coords); try assumption.
  - apply Permutation_length in Hp1, Hp2. congruence.
  - congruence.
Qed.

Lemma nn_tsp_matrix_negative_start_witness :
  (- Z.of_nat (length two_points) <= -1 < 0)%Z /\
  nn_tsp_matrix two_points (-1)
  = nn_tsp_matrix two_points (-1 + Z.of_nat (length two_points)).
Proof.
  split; [simpl; lia|].
  apply (nn_tsp_matrix_negative_start two_points (-1)). simpl; lia.
Defined.

(** ** Planning a tour again *)

Lemma dist_tour (coords : list point) (order : list nat) (a b : nat) :
  (a < length order)%nat -> (b < length order)%nat ->
  dist (map (fun i => nth i coords (0, 0)) order) a b
  = dist coords (nth a order 0%nat) (nth b order 0%nat).
Proof.
  intros Ha Hb. unfold dist.
  set (f := fun i => nth i coords (0, 0)).
  rewrite (nth_indep (map f order) (0, 0) (f 0%nat)) by (rewrite length_map; lia).
  rewrite (nth_indep (map f order) (0, 0) (f 0%nat) (n := b)) by (rewrite length_map; lia).
  now rewrite !map_nth.
Qed.

(** The tour of a greedy order, read in its own positions [0, 1, ...], is
    greedy again: the position that was chosen is still nearest, and it is
    now the lowest unvisited position. *)
Lemma greedy_tour_in_order (coords : list point) (order : list nat) :
  Permutation order (seq 0 (length coords)) ->
  greedy coords order ->
  greedy (map (fun i => nth i coords (0, 0)) order) (seq 0 (length order)).
Proof.
  intros Hperm Hgr m Hm. rewrite length_seq in Hm.
  assert (Hnd : NoDup order).
  { apply (Permutation_NoDup (Permutation_sym Hperm)), seq_NoDup. }
  assert (Hlen : length order = length coords).
  { apply Permutation_length in Hperm. now rewrite length_seq in Hperm. }
  rewrite firstn_seq_0 by lia. rewrite !seq_nth by lia. simpl.
  destruct (Hgr m Hm) as (_ & _ & Hmin).
  split; [rewrite length_map; lia|]. split; [rewrite in_seq; lia|].
  intros j Hj Hn. rewrite length_map in Hj. rewrite in_seq in Hn.
  rewrite !dist_tour by lia.
  assert (Hjm : (m <= j)%nat) by lia.
  destruct (Hmin (nth j order 0%nat)) as [Hle _].
  - rewrite <- Hlen.
    assert (Hin : In (nth j order 0%nat) order) by (apply nth_In; lia).
    apply (Permutation_in _ Hperm), in_seq in Hin. lia.
  - apply nth_not_in_firstn; [assumption | lia].
  - split; [exact Hle | intros _; exact Hjm].
Qed.

(** X3.  The returned tour is a fixed point of the planner: planning the
    tour itself from its first point returns it unchanged. *)
Theorem nn_tsp_matrix_fixed_point (coords : list point) (start_idx : Z) (tour : list point) :
  nn_tsp_matrix coords start_idx = Ok tour ->
  nn_tsp_matrix tour 0 = Ok tour.
Proof.
  intros Ht.
  destruct (py_index (length coords) start_idx) as [s0|e] eqn:Hidx.
  2:{ apply py_index_exn in Hidx as Hexn. subst e.
      unfold nn_tsp_matrix in Ht.
      rewrite (nn_tsp_order_index_error _ _ Hidx) in Ht. discriminate. }
  destruct (nn_tsp_matrix_correct coords _ _ Hidx) as (order & _ & Ht1 & _ & Hperm & Hgr).
  rewrite Ht1 in Ht. injection Ht as <-.
  set (tour := map (fun i => nth i coords (0, 0)) order).
  assert (Hlen : length order = length coords).
  { apply Permutation_length in Hperm. now rewrite length_seq in Hperm. }
  assert (Hk : (0 < length coords)%nat) by (apply py_index_bound in Hidx; lia).
  assert (Hlt : length tour = length order) by apply length_map.
  assert (H0 : py_index (length tour) 0 = Ok 0%nat).
  { change 0%Z with (Z.of_nat 0). apply py_index_nat. lia. }
  destruct (nn_tsp_matrix_correct tour _ _ H0) as (o & _ & Ht2 & Hhd & Hperm2 & Hgr2).
  assert (E : o = seq 0 (length order)).
  { apply (greedy_unique tour).
    - apply Permutation_length in Hperm2. rewrite Hperm2, !length_seq. exact Hlt.
    - rewrite Hhd. destruct (length order); [lia | reflexivity].
    - exact Hgr2.
    - now apply greedy_tour_in_order. }
  rewrite Ht2, E, <- Hlt. now rewrite map_nth_seq.
Qed.

Lemma nn_tsp_matrix_fixed_point_witness :
  nn_tsp_matrix two_points (-1) = Ok [(1, 0); (0, 0)] /\
  nn_tsp_matrix [(1, 0); (0, 0)] 0 = Ok [(1, 0); (0, 0)].
Proof.
  assert (H : nn_tsp_matrix two_points (-1) = Ok [(1, 0); (0, 0)]) by reflexivity.
  split; [exact H|].
  apply (nn_tsp_matrix_fixed_point two_points (-1) _ H).
Defined.

(** ** Bounds on the reported length *)

Lemma euclidean_triangle (a b c : point) :
  euclidean a c <= euclidean a b + euclidean b c.
Proof.
  unfold euclidean.
  set (u1 := fst a - fst b). set (u2 := snd a - snd b).
  set (v1 := fst b - fst c). set (v2 := snd b - snd c).
  replace (fst a - fst c) with (u1 + v1) by (unfold u1, v1; lra).
  replace (snd a - snd c) with (u2 + v2) by (unfold u2, v2; lra).
  set (A := sqrt (u1 ^ 2 + u2 ^ 2)). set (B := sqrt (v1 ^ 2 + v2 ^ 2)).
  assert (HA : 0 <= A) by apply sqrt_pos.
  assert (HB : 0 <= B) by apply sqrt_pos.
  assert (HA2 : A * A = u1 ^ 2 + u2 ^ 2) by (apply sqrt_sqrt; nra).
  assert (HB2 : B * B = v1 ^ 2 + v2 ^ 2) by (apply sqrt_sqrt; nra).
  assert (Hcs : u1 * v1 + u2 * v2 <= A * B).
  { destruct (Rle_lt_dec (u1 * v1 + u2 * v2) (A * B)) as [|Hgt]; [assumption|].
    exfalso.
    assert (Hpos : 0 <= A * B) by (apply Rmult_le_pos; assumption).
    assert (Hsq : (A * B) * (A * B) < (u1 * v1 + u2 * v2) * (u1 * v1 + u2 * v2)) by nra.
    assert (Hab : (A * B) * (A * B) = (u1 ^ 2 + u2 ^ 2) * (v1 ^ 2 + v2 ^ 2)).
    { rewrite <- HA2, <- HB2. ring. }
    assert (Hid : (u1 ^ 2 + u2 ^ 2) * (v1 ^ 2 + v2 ^ 2)
                  - (u1 * v1 + u2 * v2) * (u1 * v1 + u2 * v2)
                  = (u1 * v2 - u2 * v1) * (u1 * v2 - u2 * v1)) by ring.
    pose proof (Rle_0_sqr (u1 * v2 - u2 * v1)) as Hs. unfold Rsqr in Hs. lra. }
  apply Rle_trans with (sqrt ((A + B) * (A + B))).
  - apply sqrt_le_1_alt. nra.
  - rewrite sqrt_square; lra.
Qed.

(** The edge that closes the tour is no longer than the open path. *)
Lemma closing_edge_le_open_path (tour : list point) :
  forall a, euclidean a (last (a :: tour) (0, 0)) <= open_path_length (a :: tour).
Proof.
  induction tour as [|b tour IH]; intros a.
  - simpl. rewrite euclidean_refl. lra.
  - change (last (a :: b :: tour) (0, 0)) with (last (b :: tour) (0, 0)).
    change (open_path_length (a :: b :: tour))
      with (euclidean a b + open_path_length (b :: tour)).
    pose proof (euclidean_triangle a b (last (b :: tour) (0, 0))).
    specialize (IH b). lra.
Qed.

(** X4.  The length [tour_length] reports is at least the length of the
    open path through the tour and at most twice that length. *)
Theorem tour_length_bounds (tour : list point) :
  open_path_length tour <= tour_length tour <= 2 * open_path_length tour.
Proof.
  destruct tour as [|a tour].
  - unfold tour_length, np_sum. simpl. lra.
  - rewrite tour_length_closed.
    pose proof (closing_edge_le_open_path tour a).
    pose proof (sqrt_pos ((fst a - fst (last (a :: tour) (0, 0))) ^ 2
                          + (snd a - snd (last (a :: tour) (0, 0))) ^ 2)) as Hp.
    fold (euclidean a (last (a :: tour) (0, 0))) in Hp. lra.
Qed.

(** * Further properties of [compressedSensing] *)

(** ** Calls that return *)





(** ** Calls that fail after validation *)

Lemma sample_size_zero (a : ndarray) : sample_size a 0 = 0%Z.
Proof.
  unfold sample_size.
  replace (0 * INR (len_flat_input a)) with (IZR 0) by lra. apply math_ceil_IZR.
Qed.

(** X6.  With the ratio [p = 0], which validation accepts, a valid density
    map makes the call raise IndexError: no site is drawn, the count 0 is
    printed, and reading [coord_arr[start_n]] from the empty coordinate array
    fails; no figure is written. *)
Theorem compressedSensing_zero_ratio
  (a : ndarray) (n : nat) (drift : R) (display_filepath : option string) (w : world) :
  valid_density_map a n ->
  fair_draw a 0 w ->
  validate a 0 = Ok tt /\
  compressedSensing a 0 drift display_filepath w =
  (Raise IndexError, print "# of measurement points" 0 (consume_draw w)).
Proof.
  intros Hv Hfair.
  assert (Hp : 0 <= 0 <= 1) by lra.
  split; [now apply (valid_validate a n)|].
  assert (Hcnt : (sample_size a 0 <= Z.of_nat (count_positive (flatten a)))%Z).
  { rewrite sample_size_zero. lia. }
  destruct (sampler_valid a n 0 w Hv Hp Hcnt Hfair) as [start_n Hs].
  destruct (Hfair _ (valid_flat_input a n Hv)) as (Hdl & _ & _).
  rewrite sample_size_zero in Hdl.
  destruct (next_draw w) as [|i draw] eqn:Hd; [|simpl in Hdl; lia].
  unfold compressedSensing. rewrite Hs. unfold plan, getitem. simpl map.
  rewrite py_index_out by (simpl; lia). reflexivity.
Qed.

Lemma fair_draw_nothing (w : world) :
  next_draw w = [] -> fair_draw ones_2x2 0 w.
Proof.
  intros Hd pr _. rewrite sample_size_zero, Hd.
  split; [reflexivity|]. split; constructor.
Qed.

Lemma compressedSensing_zero_ratio_witness :
  let w := mk_world (fun _ => []) 0 [] [] in
  valid_density_map ones_2x2 2 /\
  fair_draw ones_2x2 0 w /\
  compressedSensing ones_2x2 0 0 None w =
  (Raise IndexError, print "# of measurement points" 0 (consume_draw w)).
Proof.
  intros w.
  assert (Hf : fair_draw ones_2x2 0 w) by (apply fair_draw_nothing; reflexivity).
  split; [exact ones_2x2_valid|]. split; [exact Hf|].
  apply (compressedSensing_zero_ratio ones_2x2 2 0 None w ones_2x2_valid Hf).
Defined.

Lemma choice_check_exn (a : list R) (size : Z) (p : option (list R)) (e : exn) :
  choice_check a size p = Raise e -> e = ValueError.
Proof.
  unfold choice_check.
  repeat match goal with
         | |- context [if ?b then _ else _] => destruct b
         | |- context [match ?o with Some _ => _ | None => _ end] => destruct o
         end; intros [=]; auto.
Qed.

Lemma sampler_choice_raises (a : ndarray) (p : R) (w : world) :
  validate a p = Ok tt ->
  choice_check (choice_1D_arr a) (sample_size a p) (flat_input a) <> Ok tt ->
  sampler a p w = (Raise ValueError, w).
Proof.
  intros Hv Hc. unfold sampler. rewrite Hv. unfold draw_TSP_points, random_choice.
  destruct (choice_check _ _ _) as [[]|e] eqn:E; [congruence|].
  now rewrite (choice_check_exn _ _ _ _ E).
Qed.

(** X7.  Weights that cannot be normalised to probabilities, a zero total or
    a weight whose quotient by the total is negative, pass validation and
    are rejected where the sites are drawn: the call raises ValueError and
    leaves the world as it was (no draw consumed, nothing printed). *)
Theorem sampling_rejects_bad_weights
  (a : ndarray) (p drift : R) (display_filepath : option string) (w : world) :
  validate a p = Ok tt ->
  np_sum (flatten a) = 0 \/
  (exists x, In x (flatten a) /\ x / np_sum (flatten a) < 0) ->
  compressedSensing a p drift display_filepath w = (Raise ValueError, w).
Proof.
  intros Hv Hbad. unfold compressedSensing.
  rewrite sampler_choice_raises; [reflexivity | assumption |].
  unfold flat_input. destruct (Req_dec_T (np_sum (flatten a)) 0) as [Hz | Hnz].
  - unfold choice_check. destruct (_ && _)%bool; discriminate.
  - destruct Hbad as [Hz | (x & Hin & Hneg)]; [contradiction|].
    assert (E : existsb (fun y => Rltb y 0)
                        (map (fun y => y / np_sum (flatten a)) (flatten a)) = true).
    { apply existsb_exists. exists (x / np_sum (flatten a)). split.
      - apply in_map_iff. eauto.
      - now apply Rltb_true. }
    unfold choice_check. rewrite E.
    destruct (_ && _)%bool; [discriminate|].
    destruct (negb _); discriminate.
Qed.

Lemma sampling_rejects_bad_weights_witness :
  validate (map_1x1 0) 1 = Ok tt /\
  compressedSensing (map_1x1 0) 1 0 None world_0 = (Raise ValueError, world_0).
Proof.
  assert (Hv : validate (map_1x1 0) 1 = Ok tt) by (apply validate_1x1; lra).
  split; [exact Hv|].
  apply (sampling_rejects_bad_weights (map_1x1 0) 1 0 None world_0 Hv).
  left. unfold np_sum. simpl. lra.
Defined.

Lemma sparse_2x2_valid : valid_density_map sparse_2x2 2.
Proof.
  split; [reflexivity|]. split; [reflexivity|]. split; [lia|]. split.
  - simpl. repeat constructor; lra.
  - unfold np_sum. simpl. lra.
Qed.

(** ** What a call does to the world *)

(** X9.  Whatever the arguments, a call never changes what the generator
    will answer; it either consumes no draw and prints nothing, or consumes
    exactly one draw and prints the number of drawn sites once; and it writes
    a figure, exactly one, only when it returns and a display path was
    given. *)
Theorem compressedSensing_effects
  (a : ndarray) (p drift : R) (display_filepath : option string) (w : world) :
  let out := compressedSensing a p drift display_filepath w in
  rng_draws (snd out) = rng_draws w /\
  ((rng_calls (snd out) = rng_calls w /\ stdout (snd out) = stdout w) \/
   (rng_calls (snd out) = S (rng_calls w) /\
    stdout (snd out)
    = stdout w ++ [("# of measurement points"%string, length (next_draw w))])) /\
  figures (snd out)
  = figures w ++ match fst out, display_filepath with
                 | Ok _, Some file => [file]
                 | _, _ => []
                 end.
Proof.
  unfold compressedSensing, sampler.
  destruct (validate a p) as [[]|e]; simpl;
    [|split; [reflexivity|]; split; [left; split; reflexivity | now rewrite app_nil_r]].
  unfold draw_TSP_points, random_choice.
  destruct (choice_check _ _ _) as [[]|e]; simpl;
    [|split; [reflexivity|]; split; [left; split; reflexivity | now rewrite app_nil_r]].
  rewrite length_map.
  destruct (coordinates a p _) as [[coord_arr start_n]|e]; simpl;
    [|split; [reflexivity|]; split; [right; split; reflexivity | now rewrite app_nil_r]].
  destruct (plan coord_arr start_n) as [out|e]; simpl;
    [|split; [reflexivity|]; split; [right; split; reflexivity | now rewrite app_nil_r]].
  destruct display_filepath as [file|]; simpl;
    (split; [reflexivity|]; split; [right; split; reflexivity|]);
    [reflexivity | now rewrite app_nil_r].
Qed.

(** ** The 3 x 3 map of ones *)

Lemma np_sum_ones_3x3 : np_sum (flatten ones_3x3) = 9.
Proof. unfold np_sum. simpl. lra. Qed.

Lemma ones_3x3_valid : valid_density_map ones_3x3 3.
Proof.
  split; [reflexivity|]. split; [reflexivity|]. split; [lia|]. split.
  - simpl. repeat constructor; lra.
  - rewrite np_sum_ones_3x3. lra.
Qed.

Lemma ones_3x3_sample_size : sample_size ones_3x3 (2 / 9) = 2%Z.
Proof.
  unfold sample_size.
  replace (2 / 9 * INR (len_flat_input ones_3x3)) with (IZR 2)
    by (unfold len_flat_input; simpl; lra).
  apply math_ceil_IZR.
Qed.

Lemma ones_3x3_enough :
  (sample_size ones_3x3 (2 / 9) <= Z.of_nat (count_positive (flatten ones_3x3)))%Z.
Proof.
  rewrite ones_3x3_sample_size. unfold count_positive. simpl.
  rewrite Rltb_0_1. simpl. lia.
Qed.

Lemma coord_of_3_4 : coord_of 3 (2 / (INR 3 - 1)) (INR 4) = (0, 0).
Proof. rewrite coord_of_index by lia. simpl. f_equal; field. Qed.

Lemma coord_of_3_0 : coord_of 3 (2 / (INR 3 - 1)) (INR 0) = (1, -1).
Proof. rewrite coord_of_index by lia. simpl. f_equal; field. Qed.

(** The centre of a 3 x 3 grid is the origin; a corner drawn after it
    becomes the start. *)
Example coordinates_ones_3x3 :
  coordinates ones_3x3 (2 / 9) [INR 4; INR 0] = Ok ([(0, 0); (1, -1)], 1%nat).
Proof.
  unfold coordinates.
  rewrite (valid_scale_const _ _ ones_3x3_valid), ones_3x3_sample_size.
  cbn [bind np_zeros Z.ltb Z.compare Z.to_nat Pos.to_nat Pos.iter_op Nat.add repeat
       coord_loop shape ones_3x3 nth].
  rewrite coord_body_ok by (simpl; lia).
  cbn [v_n v_max_sum v_start_n v_coord_arr upd]. rewrite coord_of_3_4.
  assert (E1 : Rltb 0 (l1_norm (0, 0)) = false).
  { apply Rltb_false. unfold l1_norm. simpl. rewrite Rabs_R0. lra. }
  rewrite E1. cbn [bind].
  rewrite coord_body_ok by (simpl; lia).
  cbn [v_n v_max_sum v_start_n v_coord_arr upd]. rewrite coord_of_3_0.
  assert (E2 : Rltb 0 (l1_norm (1, -1)) = true).
  { apply Rltb_true. unfold l1_norm, Rabs. simpl. repeat destruct Rcase_abs; lra. }
  rewrite E2. reflexivity.
Qed.

Example sampler_ones_3x3 :
  sampler ones_3x3 (2 / 9) world_4_0 =
  (Ok ([(0, 0); (1, -1)], 1%nat),
   print "# of measurement points" 2 (consume_draw world_4_0)).
Proof.
  assert (Hp : 0 <= 2 / 9 <= 1) by lra.
  unfold sampler. rewrite (valid_validate _ _ _ ones_3x3_valid Hp).
  unfold draw_TSP_points, random_choice.
  rewrite (valid_choice_check _ _ _ ones_3x3_valid Hp ones_3x3_enough).
  change (next_draw world_4_0) with [4; 0]%nat. cbn [map length].
  rewrite !choice_1D_arr_nth by (unfold len_flat_input; simpl; lia).
  now rewrite coordinates_ones_3x3.
Qed.

(** ** Sampling the whole grid *)

Lemma count_positive_all (ws : list R) :
  Forall (fun x => 0 < x) ws -> count_positive ws = length ws.
Proof.
  unfold count_positive. induction 1 as [|x ws Hx _ IH]; simpl; [reflexivity|].
  apply Rltb_true in Hx. rewrite Hx. simpl. now rewrite IH.
Qed.

Lemma sample_size_one (a : ndarray) : sample_size a 1 = Z.of_nat (len_flat_input a).
Proof.
  unfold sample_size.
  replace (1 * INR (len_flat_input a)) with (IZR (Z.of_nat (len_flat_input a)))
    by (rewrite <- INR_IZR_INZ; lra).
  apply math_ceil_IZR.
Qed.

(** X11.  With [p = 1] on a valid density map whose weights are all positive
    the sampler returns every cell of the grid exactly once: the coordinate
    array is a permutation of the coordinates of the flat indices
    [0 .. n^2 - 1]. *)
Theorem sampler_full_ratio_covers_grid (a : ndarray) (n : nat) (w : world) :
  valid_density_map a n ->
  Forall (fun x => 0 < x) (flatten a) ->
  fair_draw a 1 w ->
  exists coords start_n w',
    sampler a 1 w = (Ok (coords, start_n), w') /\
    Permutation coords (map (spec_coordinate n) (seq 0 (n * n))).
Proof.
  intros Hv Hall Hfair.
  assert (Hp : 0 <= 1 <= 1) by lra.
  destruct (valid_len a n Hv) as [Hlen _].
  assert (Hcnt : (sample_size a 1 <= Z.of_nat (count_positive (flatten a)))%Z).
  { rewrite sample_size_one, (count_positive_all _ Hall). unfold len_flat_input. lia. }
  destruct (sampler_valid a n 1 w Hv Hp Hcnt Hfair) as [start_n Hs].
  destruct (Hfair _ (valid_flat_input a n Hv)) as (Hdl & Hnd & Hdr).
  rewrite sample_size_one in Hdl. apply Nat2Z.inj in Hdl.
  rewrite length_map in Hdr. fold (len_flat_input a) in Hdr. rewrite Hlen in *.
  eexists _, start_n, _. split; [exact Hs|].
  apply Permutation_map. apply full_order_permutation; [assumption | | assumption].
  eapply Forall_impl; [|exact Hdr]. intros i [Hi _]. exact Hi.
Qed.

Lemma ones_2x2_fair_all : fair_draw ones_2x2 1 world_all_4.
Proof.
  intros pr Hpr. rewrite (valid_flat_input _ _ ones_2x2_valid), np_sum_ones in Hpr.
  injection Hpr as <-. rewrite sample_size_one.
  split; [reflexivity|]. split.
  - repeat constructor; simpl; intuition lia.
  - repeat constructor; simpl; try lia; lra.
Qed.

Lemma sampler_full_ratio_covers_grid_witness :
  valid_density_map ones_2x2 2 /\
  Forall (fun x => 0 < x) (flatten ones_2x2) /\
  fair_draw ones_2x2 1 world_all_4 /\
  exists coords start_n w',
    sampler ones_2x2 1 world_all_4 = (Ok (coords, start_n), w') /\
    Permutation coords (map (spec_coordinate 2) (seq 0 (2 * 2))).
Proof.
  assert (Hall : Forall (fun x => 0 < x) (flatten ones_2x2)).
  { simpl. repeat constructor; lra. }
  split; [exact ones_2x2_valid|]. split; [exact Hall|]. split; [exact ones_2x2_fair_all|].
  apply (sampler_full_ratio_covers_grid ones_2x2 2 world_all_4
           ones_2x2_valid Hall ones_2x2_fair_all).
Defined.

(** * Properties of the acquisition callbacks *)

(** ** The time axis of a continuous signal *)

Lemma linspace_nth (start stop : R) (num i : nat) :
  (2 <= num)%nat -> (i < num)%nat ->
  nth i (linspace start stop num) 0 = start + INR i * ((stop - start) / INR (num - 1)).
Proof.
  intros Hn Hi. destruct num as [|[|num]]; try lia.
  unfold linspace.
  set (f := fun k => start + INR k * ((stop - start) / INR (S (S num) - 1))).
  rewrite (nth_indep _ 0 (f 0%nat)) by (rewrite length_map, length_seq; lia).
  rewrite map_nth, seq_nth by lia. reflexivity.
Qed.

(** X12.  When the instrument reports [N >= 1] samples, the callback of
    [get_continuous_signal] counts the event and builds a time axis of [N]
    points that starts at 0 and advances by the clock period: sample [i] is
    at time [i * period]; the samples read are stored unchanged. *)
Theorem continuous_time_axis (ev : view_event) (g : continuous_globals) :
  (1 <= Data_Size ev)%Z ->
  exists x_data,
    view_continuous_callback ev g =
    (Ok tt, mk_cg (cg_view_count g + 1) (Some x_data)
                  (Some (sample_data ev (Data_Size ev))) (S (cg_pbar g))) /\
    length x_data = Z.to_nat (Data_Size ev) /\
    forall i, (i < length x_data)%nat -> nth i x_data 0 = INR i * Period ev.
Proof.
  intros HN. unfold view_continuous_callback, np_linspace.
  destruct (Z.ltb_spec (Data_Size ev) 0); [lia|].
  eexists. split; [reflexivity|]. split; [apply length_linspace|].
  rewrite length_linspace. intros i Hi.
  destruct (Nat.eq_dec (Z.to_nat (Data_Size ev)) 1) as [E | E].
  - rewrite E in *. assert (i = 0%nat) by lia. subst i. simpl. lra.
  - rewrite linspace_nth by lia.
    replace (INR (Z.to_nat (Data_Size ev) - 1)) with (IZR (Data_Size ev - 1)).
    + assert (0 < IZR (Data_Size ev - 1)) by (apply IZR_lt; lia). field. lra.
    + rewrite INR_IZR_INZ. f_equal. lia.
Qed.

Lemma continuous_time_axis_witness :
  (1 <= Data_Size backward_event)%Z /\
  exists x_data,
    view_continuous_callback backward_event (mk_cg 0 None None 0) =
    (Ok tt, mk_cg (0 + 1) (Some x_data) (Some [1; 2]) 1) /\
    length x_data = 2%nat /\
    forall i, (i < length x_data)%nat -> nth i x_data 0 = INR i * (1 / 10).
Proof.
  split; [simpl; lia|].
  apply (continuous_time_axis backward_event (mk_cg 0 None None 0)). simpl; lia.
Defined.

(** ** The table of spectra *)

Lemma length_init_y_data (repeats : Z) (forward_back : bool) :
  length (init_y_data repeats forward_back) = Z.to_nat repeats.
Proof. unfold init_y_data. now rewrite length_map, length_seq. Qed.

Lemma init_y_data_rows (repeats : Z) (forward_back : bool) (row : list cell) :
  In row (init_y_data repeats forward_back) ->
  row = repeat None (Nat.b2n forward_back + 1).
Proof.
  unfold init_y_data. intros H. apply in_map_iff in H. now destruct H as (_ & <- & _).
Qed.

Lemma length_concat_width (y_data : list (list cell)) (width : nat) :
  table_width y_data width -> length (concat y_data) = (length y_data * width)%nat.
Proof.
  induction 1 as [|row y_data Hrow _ IH]; simpl; [reflexivity|].
  rewrite length_app, IH, Hrow. lia.
Qed.

(** X13.  For [repeats >= 0] the table [get_point_spectra] allocates has
    [repeats] rows of one entry (one direction) or two (both directions),
    all [None], and [max_count], the number of view events the function
    waits for, is the number of entries of the table. *)
Theorem init_y_data_matches_max_count (repeats : Z) (forward_back : bool) :
  (0 <= repeats)%Z ->
  let y_data := init_y_data repeats forward_back in
  length y_data = Z.to_nat repeats /\
  table_width y_data (if forward_back then 2 else 1) /\
  Forall (fun c => c = None) (concat y_data) /\
  Z.of_nat (length (concat y_data)) = max_count repeats forward_back.
Proof.
  intros Hr y_data.
  assert (Hw : table_width y_data (if forward_back then 2 else 1)).
  { apply Forall_forall. intros row Hrow. apply init_y_data_rows in Hrow. subst row.
    rewrite repeat_length. now destruct forward_back. }
  split; [apply length_init_y_data|]. split; [exact Hw|]. split.
  - apply Forall_forall. intros c Hc. apply in_concat in Hc.
    destruct Hc as (row & Hrow & Hc). apply init_y_data_rows in Hrow. subst row.
    now apply repeat_spec in Hc.
  - rewrite (length_concat_width _ _ Hw). unfold y_data.
    rewrite length_init_y_data. unfold max_count.
    destruct forward_back; simpl; lia.
Qed.

Lemma init_y_data_matches_max_count_witness :
  (0 <= 3)%Z /\
  Z.of_nat (length (concat (init_y_data 3 true))) = max_count 3 true.
Proof.
  split; [lia|].
  apply (init_y_data_matches_max_count 3 true). lia.
Defined.

(** ** The callback of a spectroscopy *)

Lemma store_nat (y_data : list (list cell)) (i j : nat) (row : list cell) (v : cell) :
  nth_error y_data i = Some row -> (j < length row)%nat ->
  store y_data (Z.of_nat i) (Z.of_nat j) v = Ok (upd y_data i (upd row j v)).
Proof.
  intros Hrow Hj. unfold store. rewrite (getitem_nat _ _ _ Hrow). simpl.
  rewrite setitem_nat by assumption. simpl.
  apply setitem_nat. apply nth_error_Some. congruence.
Qed.

Lemma entry_upd (y_data : list (list cell)) (i j i' j' : nat) (row : list cell) (v : cell) :
  nth_error y_data i = Some row -> (j < length row)%nat ->
  entry (upd y_data i (upd row j v)) i' j'
  = if ((i' =? i) && (j' =? j))%nat then Some v else entry y_data i' j'.
Proof.
  intros Hrow Hj. unfold entry.
  assert (Hi : (i < length y_data)%nat) by (apply nth_error_Some; congruence).
  destruct (Nat.eqb_spec i' i) as [-> | Hne]; simpl.
  - rewrite nth_error_upd_eq by assumption. rewrite Hrow.
    destruct (Nat.eqb_spec j' j) as [-> | Hnj].
    + now apply nth_error_upd_eq.
    + now apply nth_error_upd_neq.
  - now rewrite nth_error_upd_neq.
Qed.

Lemma table_width_upd (y_data : list (list cell)) (width i : nat) (row : list cell) :
  table_width y_data width -> length row = width ->
  table_width (upd y_data i row) width.
Proof.
  intros Hw Hrow. apply Forall_forall. intros r Hr.
  destruct (in_upd _ _ _ _ Hr) as [-> | Hin]; [assumption|].
  unfold table_width in Hw. rewrite Forall_forall in Hw. now apply Hw.
Qed.

(** X14.  A view event whose cycle and packet counts address an entry of the
    table is counted, sets the sweep axis to [linspace(start, end, N)] and
    stores the samples, scaled by [1e-9], in that entry, reversed when it is
    the second packet (the backward sweep); the table keeps its shape and
    every other entry is left as it was. *)
Theorem view_spectroscopy_callback_stores
  (start_end : R * R) (ev : view_event) (g : spectra_globals) (width : nat) :
  table_width (sg_y_data g) width ->
  (1 <= Cycle_Count ev <= Z.of_nat (length (sg_y_data g)))%Z ->
  (1 <= Packet_Count ev <= Z.of_nat width)%Z ->
  (0 <= Data_Size ev)%Z ->
  let i := Z.to_nat (Cycle_Count ev - 1) in
  let j := Z.to_nat (Packet_Count ev - 1) in
  let scaled := map (fun v => v * nano) (sample_data ev (Data_Size ev)) in
  let stored := if (Packet_Count ev =? 2)%Z then rev scaled else scaled in
  exists y_data,
    view_spectroscopy_callback start_end ev g =
    (Ok tt,
     mk_sg (sg_view_count g + 1) (Some (Run_Count ev, Cycle_Count ev))
           (Some (linspace (fst start_end) (snd start_end) (Z.to_nat (Data_Size ev))))
           y_data (S (sg_pbar g))) /\
    length y_data = length (sg_y_data g) /\
    table_width y_data width /\
    entry y_data i j = Some (Some stored) /\
    forall i' j', (i', j') <> (i, j) -> entry y_data i' j' = entry (sg_y_data g) i' j'.
Proof.
  intros Hw Hc Hp HN i j scaled stored.
  destruct (nth_error_lt (sg_y_data g) i) as [row Hrow]; [unfold i; lia|].
  assert (Hlen : length row = width).
  { unfold table_width in Hw. rewrite Forall_forall in Hw.
    apply Hw. now apply nth_error_In with i. }
  assert (Hj : (j < length row)%nat) by (unfold j; lia).
  assert (Hother : forall i' j', (i', j') <> (i, j) ->
            ((i' =? i) && (j' =? j))%nat = false).
  { intros i' j' Hne.
    destruct (Nat.eqb_spec i' i); destruct (Nat.eqb_spec j' j); simpl; try reflexivity.
    subst. congruence. }
  unfold view_spectroscopy_callback, np_linspace.
  destruct (Z.ltb_spec (Data_Size ev) 0); [lia|]. cbn [sg_y_data sg_view_count
    sg_view_name sg_x_data sg_pbar].
  replace (Cycle_Count ev - 1)%Z with (Z.of_nat i) by (unfold i; lia).
  replace (Packet_Count ev - 1)%Z with (Z.of_nat j) by (unfold j; lia).
  fold scaled. rewrite (store_nat _ _ _ _ _ Hrow Hj).
  set (y1 := upd (sg_y_data g) i (upd row j (Some scaled))).
  assert (Hrow1 : nth_error y1 i = Some (upd row j (Some scaled))).
  { apply nth_error_upd_eq. apply nth_error_Some. congruence. }
  destruct (Z.eqb_spec (Z.of_nat j) 1) as [Ej | Ej].
  - assert (E2 : (Packet_Count ev =? 2)%Z = true) by (apply Z.eqb_eq; unfold j in Ej; lia).
    unfold stored. rewrite E2.
    rewrite (getitem_nat _ _ _ Hrow1). cbn [bind].
    rewrite (getitem_nat _ j (Some scaled))
      by (apply nth_error_upd_eq; assumption).
    cbn [bind]. rewrite (store_nat _ _ _ _ _ Hrow1) by (rewrite length_upd; assumption).
    eexists. split; [reflexivity|].
    split; [unfold y1; now rewrite !length_upd|]. split; [|split].
    + apply table_width_upd; [apply table_width_upd; [assumption|]|];
        now rewrite ?length_upd.
    + rewrite (entry_upd _ _ _ _ _ _ _ Hrow1) by (rewrite length_upd; assumption).
      now rewrite !Nat.eqb_refl.
    + intros i' j' Hne.
      rewrite (entry_upd _ _ _ _ _ _ _ Hrow1) by (rewrite length_upd; assumption).
      rewrite (Hother _ _ Hne). unfold y1.
      rewrite (entry_upd _ _ _ _ _ _ _ Hrow Hj). now rewrite (Hother _ _ Hne).
  - assert (E2 : (Packet_Count ev =? 2)%Z = false) by (apply Z.eqb_neq; unfold j in Ej; lia).
    unfold stored. rewrite E2.
    eexists. split; [reflexivity|].
    split; [unfold y1; now rewrite length_upd|]. split; [|split].
    + apply table_width_upd; [assumption | now rewrite length_upd].
    + unfold y1. rewrite (entry_upd _ _ _ _ _ _ _ Hrow Hj). now rewrite !Nat.eqb_refl.
    + intros i' j' Hne. unfold y1.
      rewrite (entry_upd _ _ _ _ _ _ _ Hrow Hj). now rewrite (Hother _ _ Hne).
Qed.

Lemma view_spectroscopy_callback_stores_witness :
  table_width (sg_y_data fresh_globals) 2 /\
  exists y_data,
    view_spectroscopy_callback (0, 1) backward_event fresh_globals =
    (Ok tt, mk_sg (0 + 1) (Some (1, 1)%Z) (Some (linspace 0 1 2)) y_data 1) /\
    length y_data = 1%nat /\
    table_width y_data 2 /\
    entry y_data 0 1 = Some (Some (rev (map (fun v => v * nano) [1; 2]))) /\
    forall i' j', (i', j') <> (0, 1)%nat -> entry y_data i' j' = entry (sg_y_data fresh_globals) i' j'.
Proof.
  assert (Hw : table_width (sg_y_data fresh_globals) 2) by (repeat constructor).
  split; [exact Hw|].
  apply (view_spectroscopy_callback_stores (0, 1) backward_event fresh_globals 2 Hw);
    simpl; lia.
Defined.

(** X15.  A view event whose cycle count is beyond the table (or so negative
    that Python cannot resolve it) makes the callback raise IndexError after
    it has counted the event and replaced the sweep axis: the table is
    unchanged, [view_count] is one higher. *)
Theorem view_spectroscopy_callback_out_of_table
  (start_end : R * R) (ev : view_event) (g : spectra_globals) :
  (0 <= Data_Size ev)%Z ->
  (Z.of_nat (length (sg_y_data g)) < Cycle_Count ev \/
   Cycle_Count ev - 1 < - Z.of_nat (length (sg_y_data g)))%Z ->
  view_spectroscopy_callback start_end ev g =
  (Raise IndexError,
   mk_sg (sg_view_count g + 1) (Some (Run_Count ev, Cycle_Count ev))
         (Some (linspace (fst start_end) (snd start_end) (Z.to_nat (Data_Size ev))))
         (sg_y_data g) (S (sg_pbar g))).
Proof.
  intros HN Hc. unfold view_spectroscopy_callback, np_linspace.
  destruct (Z.ltb_spec (Data_Size ev) 0); [lia|].
  cbn [sg_y_data sg_view_count sg_view_name sg_x_data sg_pbar].
  unfold store, getitem. rewrite py_index_out by lia. reflexivity.
Qed.

Lemma view_spectroscopy_callback_out_of_table_witness :
  let ev := mk_event 1 2 1 2 (1 / 10) (fun _ => [1; 2]) in
  (0 <= Data_Size ev)%Z /\
  view_spectroscopy_callback (0, 1) ev fresh_globals =
  (Raise IndexError,
   mk_sg (0 + 1) (Some (1, 2)%Z) (Some (linspace 0 1 2)) (sg_y_data fresh_globals) 1).
Proof.
  intros ev. split; [simpl; lia|].
  apply (view_spectroscopy_callback_out_of_table (0, 1) ev fresh_globals);
    [simpl; lia | left; simpl; lia].
Defined.

(** ** What [get_point_spectra] returns *)

Lemma first_items_singletons (y_data : list (list cell)) :
  table_width y_data 1 ->
  exists cs, first_items y_data = Ok cs /\ y_data = map (fun c => [c]) cs.
Proof.
  induction 1 as [|row y_data Hrow _ (cs & Hcs & Heq)]; simpl.
  - now exists [].
  - destruct row as [|c [|c' row]]; simpl in Hrow; try lia.
    exists (c :: cs). rewrite Hcs. simpl. split; [reflexivity | now f_equal].
Qed.

(** X16.  On a table of [repeats] rows as allocated, [get_point_spectra]
    returns, without a file name, the axis and: one array for a single
    spectrum in one direction; the list forward, backward for a single
    spectrum in both directions; a list of arrays for repeats in one
    direction; the table itself for repeats in both directions.  Asked for
    the file name it never returns: once the two getters of the file name
    have answered it raises TypeError, because the counter [view_count] is
    subscripted. *)
Theorem get_point_spectra_result_shapes
  (Result_File_Path Result_File_Name : outcome string)
  (forward_back : bool) (repeats : Z) (g : spectra_globals) :
  (0 <= repeats)%Z ->
  length (sg_y_data g) = Z.to_nat repeats ->
  table_width (sg_y_data g) (if forward_back then 2 else 1) ->
  (forall out, get_point_spectra_result Result_File_Path Result_File_Name
                 forward_back repeats true g <> Returns out) /\
  (forall path name,
      Result_File_Path = Returns path -> Result_File_Name = Returns name ->
      get_point_spectra_result Result_File_Path Result_File_Name
        forward_back repeats true g = Raises TypeError) /\
  exists y_data,
    get_point_spectra_result Result_File_Path Result_File_Name
      forward_back repeats false g = Returns (sg_x_data g, y_data, None) /\
    match y_data with
    | Single c =>
        forward_back = false /\ repeats = 1%Z /\ sg_y_data g = [[c]]
    | Sweeps cs =>
        (forward_back = true /\ repeats = 1%Z /\ sg_y_data g = [cs]) \/
        (forward_back = false /\ repeats <> 1%Z /\ sg_y_data g = map (fun c => [c]) cs)
    | Repeats rows =>
        forward_back = true /\ repeats <> 1%Z /\ rows = sg_y_data g
    end.
Proof.
  intros Hr Hlen Hw.
  assert (Hp : exists y_data,
             parse_y_data forward_back repeats (sg_y_data g) = Ok y_data /\
             match y_data with
             | Single c =>
                 forward_back = false /\ repeats = 1%Z /\ sg_y_data g = [[c]]
             | Sweeps cs =>
                 (forward_back = true /\ repeats = 1%Z /\ sg_y_data g = [cs]) \/
                 (forward_back = false /\ repeats <> 1%Z
                  /\ sg_y_data g = map (fun c => [c]) cs)
             | Repeats rows =>
                 forward_back = true /\ repeats <> 1%Z /\ rows = sg_y_data g
             end).
  { unfold parse_y_data. destruct forward_back.
    - destruct (Z.eqb_spec repeats 1) as [-> | Hne].
      + destruct (sg_y_data g) as [|row [|row' rest]]; simpl in Hlen; try lia.
        exists (Sweeps row). split; [reflexivity | left; auto].
      + exists (Repeats (sg_y_data g)). auto.
    - destruct (first_items_singletons _ Hw) as (cs & Hcs & Heq). rewrite Hcs. simpl.
      destruct (Z.eqb_spec repeats 1) as [-> | Hne].
      + rewrite Heq, length_map in Hlen.
        destruct cs as [|c [|c' cs]]; simpl in Hlen; try lia.
        exists (Single c). split; [reflexivity | auto].
      + exists (Sweeps cs). split; [reflexivity | right; auto]. }
  destruct Hp as (y_data & Hparse & Hshape).
  unfold get_point_spectra_result. rewrite Hparse.
  split; [|split].
  - intros out. destruct Result_File_Path; [destruct Result_File_Name|]; discriminate.
  - intros path name -> ->. reflexivity.
  - exists y_data. split; [reflexivity | exact Hshape].
Qed.

Lemma get_point_spectra_result_shapes_witness :
  (0 <= 1)%Z /\
  table_width (sg_y_data fresh_globals) 2 /\
  get_point_spectra_result (Returns "dir"%string) (Returns "scan"%string)
    true 1 true fresh_globals = Raises TypeError.
Proof.
  assert (Hr : (0 <= 1)%Z) by lia.
  assert (Hw : table_width (sg_y_data fresh_globals) 2) by (repeat constructor).
  split; [exact Hr|]. split; [exact Hw|].
  destruct (get_point_spectra_result_shapes (Returns "dir"%string) (Returns "scan"%string)
              true 1 fresh_globals Hr eq_refl Hw) as (_ & Hraise & _).
  exact (Hraise "dir"%string "scan"%string eq_refl eq_refl).
Defined.

(** ** The spectroscopy mode *)

Lemma string_get_lt (s : string) (k : nat) :
  (k < String.length s)%nat -> exists c, String.get k s = Some c.
Proof.
  revert k. induction s as [|a s IH]; intros [|k] Hk; simpl in *; try lia; eauto.
  apply IH. lia.
Qed.

Lemma dict_getitem_modes (c : ascii) :
  dict_getitem modes (String c EmptyString)
  = if Ascii.eqb "V" c then Returns 0%Z
    else if Ascii.eqb "Z" c then Returns 1%Z
         else Raises (KeyError (String c EmptyString)).
Proof.
  unfold modes. cbn -[Ascii.eqb].
  destruct (Ascii.eqb "V" c), (Ascii.eqb "Z" c); reflexivity.
Qed.

(** X17.  The mode chosen from a channel name depends on its last but one
    character alone: "V" gives mode 0, "Z" gives mode 1, any other character
    raises KeyError, and a name of fewer than two characters raises
    IndexError.  Mode 2, the entry "Varied Z" of the table, is never
    chosen. *)
Theorem spectroscopy_mode_cases (channel_name : string) :
  let len := String.length channel_name in
  match spectroscopy_mode channel_name with
  | Returns mode =>
      (mode = 0%Z /\ String.get (len - 2) channel_name = Some "V"%char) \/
      (mode = 1%Z /\ String.get (len - 2) channel_name = Some "Z"%char)
  | Raises (Builtin e) => e = IndexError /\ (len < 2)%nat
  | Raises (KeyError key) =>
      exists c, key = String c EmptyString /\
                String.get (len - 2) channel_name = Some c /\
                c <> "V"%char /\ c <> "Z"%char
  | Raises TypeError => False
  end.
Proof.
  intros len. unfold spectroscopy_mode, str_getitem.
  destruct (Nat.lt_ge_cases len 2) as [Hlt | Hge].
  - rewrite py_index_out by (fold len; lia). split; [reflexivity | assumption].
  - rewrite py_index_neg by (fold len; lia). fold len.
    replace (Z.to_nat (-2 + Z.of_nat len)) with (len - 2)%nat by lia.
    destruct (string_get_lt channel_name (len - 2)) as [c Hc]; [fold len; lia|].
    rewrite Hc, dict_getitem_modes.
    destruct (Ascii.eqb_spec "V"%char c) as [<- | HV]; [left; auto|].
    destruct (Ascii.eqb_spec "Z"%char c) as [<- | HZ]; [right; auto|].
    exists c. repeat split; auto.
Qed.

Example spectroscopy_mode_I_V : spectroscopy_mode "I(V)" = Returns 0%Z.
Proof. reflexivity. Qed.

Example spectroscopy_mode_underscore : spectroscopy_mode "I_V" = Raises (KeyError "_").
Proof. reflexivity. Qed.

(** * The decisions that depend on rounding *)

(** ** Values and signs of doubles *)

Lemma Q2R_inject_Z (z : Z) : Q2R (inject_Z z) = IZR z.
Proof. unfold Q2R, inject_Z. simpl. field. Qed.

Lemma F2Q_pos (m : positive) (e : Z) : (0 < F2Q (S754_finite false m e))%Q.
Proof.
  simpl. apply Qmult_lt_0_compat; [reflexivity|].
  apply Qpower_0_lt. reflexivity.
Qed.

Lemma F2R_pos (m : positive) (e : Z) : 0 < F2R (S754_finite false m e).
Proof.
  unfold F2R. rewrite <- RMicromega.Q2R_0. apply Qlt_Rlt, F2Q_pos.
Qed.

Lemma F2R_neg (m : positive) (e : Z) : F2R (S754_finite true m e) < 0.
Proof.
  pose proof (F2R_pos m e) as H. unfold F2R in *. simpl in *.
  rewrite Q2R_mult, Q2R_inject_Z in *.
  change (Z.neg m) with (- Z.pos m)%Z. rewrite opp_IZR. lra.
Qed.

Lemma F2R_f64_zero : F2R f64_zero = 0.
Proof. apply RMicromega.Q2R_0. Qed.

Lemma F2R_f64_one : F2R f64_one = 1.
Proof.
  unfold F2R. rewrite <- RMicromega.Q2R_1. apply Qeq_eqR. reflexivity.
Qed.

(** On finite doubles [<] is the order of the values. *)
Lemma f64_ltb_finite (x y : spec_float) :
  f64_is_finite x = true -> f64_is_finite y = true ->
  f64_ltb x y = Rltb (F2R x) (F2R y).
Proof.
  intros Hx Hy.
  assert (E : f64_ltb x y = if Qlt_le_dec (F2Q x) (F2Q y) then true else false).
  { destruct x, y; try discriminate; reflexivity. }
  rewrite E. unfold F2R.
  destruct (Qlt_le_dec (F2Q x) (F2Q y)) as [Hlt | Hle]; symmetry.
  - apply Rltb_true. now apply Qlt_Rlt.
  - apply Rltb_false. now apply Qle_Rle.
Qed.

(** A rounded result carries the sign it was given. *)
Lemma binary_round_aux_nonneg (mx ex : Z) (lx : location) :
  (0 <= F2Q (binary_round_aux f64_prec f64_emax false mx ex lx))%Q.
Proof.
  unfold binary_round_aux.
  destruct (shr_fexp _ _ mx ex lx) as [mrs' e'].
  destruct (shr_fexp _ _ _ e' loc_Exact) as [mrs'' e''].
  destruct (shr_m mrs'') as [|m|m]; try apply Qle_refl.
  destruct (e'' <=? f64_emax - f64_prec)%Z; [|apply Qle_refl].
  apply Qlt_le_weak, F2Q_pos.
Qed.

Lemma F2Q_nonneg_sign (s : bool) (m : positive) (e : Z) :
  (0 <= F2Q (S754_finite s m e))%Q -> s = false.
Proof.
  destruct s; [|reflexivity]. intros H. apply Qle_Rle in H.
  pose proof (F2R_neg m e) as Hn. unfold F2R in Hn.
  rewrite RMicromega.Q2R_0 in H. lra.
Qed.

Lemma f64_mul_nonneg (x y : spec_float) :
  (0 <= F2Q x)%Q -> (0 <= F2Q y)%Q -> (0 <= F2Q (f64_mul x y))%Q.
Proof.
  intros Hx Hy.
  destruct x as [sx|sx| |sx mx ex], y as [sy|sy| |sy my ey];
    try apply Qle_refl; try (destruct sx, sy; apply Qle_refl).
  apply F2Q_nonneg_sign in Hx, Hy. subst sx sy.
  apply binary_round_aux_nonneg.
Qed.

Lemma float_of_int_nonneg (z : Z) (x : spec_float) :
  (0 <= z)%Z -> float_of_int z = Ok x -> (0 <= F2Q x)%Q.
Proof.
  intros Hz. unfold float_of_int.
  assert (H : (0 <= F2Q (f64_of_Z z))%Q).
  { destruct z as [|m|m]; [apply Qle_refl | | lia].
    unfold f64_of_Z, binary_normalize, binary_round.
    destruct (shl_align _ _ _) as [mz ez]. apply binary_round_aux_nonneg. }
  destruct (f64_of_Z z); intros [= <-]; exact H.
Qed.

Lemma math_ceil_f64_nonneg (x : spec_float) (k : Z) :
  (0 <= F2Q x)%Q -> math_ceil_f64 x = Ok k -> (0 <= k)%Z.
Proof.
  intros Hx. unfold math_ceil_f64.
  assert (H : (0 <= Qceiling (F2Q x))%Z).
  { change 0%Z with (Qceiling 0). now apply Qceiling_resp_le. }
  destruct x; intros [= <-]; exact H.
Qed.

(** ** The number of sites *)

Lemma unit_ratio_nonneg (p : spec_float) : unit_ratio p -> (0 <= F2Q p)%Q.
Proof.
  intros [_ [H _]]. apply Rle_Qle. now rewrite RMicromega.Q2R_0.
Qed.

Lemma sample_size_f64_nonneg (a : ndarray) (p : spec_float) (k : Z) :
  unit_ratio p -> sample_size_f64 a p = Ok k -> (0 <= k)%Z.
Proof.
  intros Hp. unfold sample_size_f64.
  destruct (float_of_int (Z.of_nat (len_flat_input a))) as [len|e] eqn:Hl;
    [simpl|discriminate].
  apply math_ceil_f64_nonneg, f64_mul_nonneg.
  - now apply unit_ratio_nonneg.
  - apply (float_of_int_nonneg _ _ (Nat2Z.is_nonneg _) Hl).
Qed.

Lemma valid_validate_f64 (a : ndarray) (n : nat) (p : spec_float) :
  valid_density_map a n -> unit_ratio p -> validate_f64 a p = Ok tt.
Proof.
  intros (Hsh & _) [Hf Hp]. unfold validate_f64. rewrite Hsh.
  cbn [length nth Nat.eqb negb]. rewrite Nat.eqb_refl. cbn [negb].
  rewrite !f64_ltb_finite by (assumption || reflexivity).
  rewrite F2R_f64_one, F2R_f64_zero.
  assert (E1 : Rltb 1 (F2R p) = false) by (apply Rltb_false; lra).
  assert (E2 : Rltb (F2R p) 0 = false) by (apply Rltb_false; lra).
  now rewrite E1, E2.
Qed.

Lemma count_positive_le (ws : list R) : (count_positive ws <= length ws)%nat.
Proof. unfold count_positive. apply filter_length_le. Qed.

(** The argument checks of [choice] pass for every number of sites from 0 to
    the number of cells of positive weight. *)
Lemma valid_choice_check_size (a : ndarray) (n : nat) (size : Z) :
  valid_density_map a n ->
  (0 <= size <= Z.of_nat (count_positive (flatten a)))%Z ->
  choice_check (choice_1D_arr a) size (flat_input a) = Ok tt.
Proof.
  intros Hv Hsz.
  pose proof (valid_len a n Hv) as [Hlen Hlen4].
  pose proof (count_positive_le (flatten a)) as Hcl. fold (len_flat_input a) in Hcl.
  rewrite (valid_flat_input a n Hv).
  destruct Hv as (_ & _ & _ & Hnn & Hs).
  set (s := np_sum (flatten a)) in *.
  unfold choice_check, choice_1D_arr.
  rewrite length_linspace, length_map. fold (len_flat_input a).
  replace (len_flat_input a =? 0)%nat with false by (symmetry; apply Nat.eqb_neq; lia).
  rewrite Nat.eqb_refl. simpl.
  replace (existsb (fun x => Rltb x 0) (map (fun x => x / s) (flatten a))) with false.
  2:{ symmetry. apply not_true_is_false. intros E.
      apply existsb_exists in E. destruct E as (x & Hx & Hlt).
      apply in_map_iff in Hx. destruct Hx as (x0 & <- & Hx0).
      rewrite Forall_forall in Hnn. specialize (Hnn _ Hx0).
      apply Rltb_true in Hlt.
      assert (0 <= x0 / s).
      { apply Rmult_le_pos; [assumption | left; now apply Rinv_0_lt_compat]. }
      lra. }
  rewrite np_sum_map_div. fold s.
  replace (Rltb atol (Rabs (s / s - 1))) with false.
  2:{ symmetry. apply Rltb_false.
      replace (s / s - 1) with 0 by (field; lra).
      rewrite Rabs_R0. left. apply atol_pos. }
  replace (Z.of_nat (len_flat_input a) <? size)%Z with false
    by (symmetry; apply Z.ltb_ge; lia).
  replace (size <? 0)%Z with false by (symmetry; apply Z.ltb_ge; lia).
  rewrite count_positive_scale by assumption.
  replace (Z.of_nat (count_positive (flatten a)) <? size)%Z with false
    by (symmetry; apply Z.ltb_ge; lia).
  reflexivity.
Qed.

(** On a valid map, with a ratio in [0, 1], enough positive cells for the
    number of sites the interpreter computes and a fair draw, the sampler
    consumes one draw, prints the count and returns the coordinates of the
    drawn flat indices in drawing order. *)
Lemma sampler_f64_valid (a : ndarray) (n : nat) (p : spec_float) (k : Z) (w : world) :
  valid_density_map a n ->
  unit_ratio p ->
  sample_size_f64 a p = Ok k ->
  (k <= Z.of_nat (count_positive (flatten a)))%Z ->
  fair_draw_f64 a p w ->
  exists start_n,
    sampler_f64 a p w =
    (Ok (map (spec_coordinate n) (next_draw w), start_n),
     print "# of measurement points" (length (next_draw w)) (consume_draw w)).
Proof.
  intros Hv Hp Hk Hcnt Hfair.
  pose proof (valid_len a n Hv) as [Hlen _].
  pose proof (sample_size_f64_nonneg a p k Hp Hk) as Hk0.
  destruct (Hfair _ _ (valid_flat_input a n Hv) Hk) as (Hdl & _ & Hdr).
  rewrite length_map in Hdr. fold (len_flat_input a) in Hdr.
  assert (Hpts : map (fun i => nth i (choice_1D_arr a) 0) (next_draw w)
                 = map INR (next_draw w)).
  { apply map_ext_in. intros i Hi. rewrite Forall_forall in Hdr.
    apply choice_1D_arr_nth. now apply Hdr. }
  unfold sampler_f64. rewrite (valid_validate_f64 a n p Hv Hp).
  unfold draw_TSP_points_f64, random_choice. rewrite Hk.
  rewrite (valid_choice_check_size a n k Hv) by lia.
  rewrite Hpts, length_map.
  unfold coordinates_f64. rewrite (valid_scale_const a n Hv), Hk. simpl bind.
  unfold np_zeros. destruct (Z.ltb_spec k 0); [lia|]. simpl bind.
  assert (Hn : n <> 0%nat) by (destruct Hv as (_ & _ & ? & _); lia).
  assert (Hsh : nth 0 (shape a) 0%nat = n) by (destruct Hv as (-> & _); reflexivity).
  rewrite Hsh.
  destruct (coord_loop_run n (2 / (INR n - 1)) (map INR (next_draw w))
              (mk_vars 0 0 0 (repeat (0, 0) (Z.to_nat k))))
    as (v' & Hrun & Harr).
  { simpl. rewrite length_map, repeat_length. lia. }
  rewrite Hrun. simpl bind. exists (v_start_n v'). do 3 f_equal.
  rewrite Harr. simpl. rewrite length_map.
  rewrite skipn_all2 by (rewrite repeat_length; lia).
  rewrite app_nil_r, map_map. apply map_ext. intros idx.
  rewrite coord_of_index by assumption. reflexivity.
Qed.

Lemma coord_loop_length (shape0 : nat) (sc : R) (pts : list R) :
  forall v v',
    coord_loop shape0 sc v pts = Ok v' ->
    length (v_coord_arr v') = length (v_coord_arr v).
Proof.
  induction pts as [|pt pts IH]; intros v v' Hrun; simpl in Hrun.
  - now injection Hrun as <-.
  - destruct (Nat.lt_ge_cases (v_n v) (length (v_coord_arr v))) as [Hn | Hn];
      [| rewrite coord_body_raises in Hrun by assumption; discriminate].
    rewrite coord_body_ok in Hrun by assumption. simpl in Hrun.
    rewrite (IH _ _ Hrun).
    destruct (Rltb _ _); simpl; apply length_upd.
Qed.

(** Whatever the draw, a run of the sampler that returns has filled an
    array of as many rows as the interpreter computed sites, and its start
    index is a row of largest L1 norm. *)
Lemma sampler_f64_returns (a : ndarray) (p : spec_float) (w w' : world)
  (coords : list point) (start_n : nat) :
  sampler_f64 a p w = (Ok (coords, start_n), w') ->
  sample_size_f64 a p = Ok (Z.of_nat (length coords)) /\
  (coords <> [] ->
   exists c0, nth_error coords start_n = Some c0 /\
              forall c, In c coords -> l1_norm c <= l1_norm c0).
Proof.
  unfold sampler_f64. destruct (validate_f64 a p); [|discriminate].
  destruct (draw_TSP_points_f64 a p w) as [[pts|e] w1]; [|discriminate].
  intros [= Hc <-]. unfold coordinates_f64 in Hc.
  destruct (scale_const a) as [sc|e]; [simpl in Hc|discriminate].
  destruct (sample_size_f64 a p) as [k|e] eqn:Hk; [simpl in Hc|discriminate].
  destruct (np_zeros k) as [arr0|e] eqn:Hz; [simpl in Hc|discriminate].
  destruct (coord_loop _ sc _ pts) as [v|e] eqn:Hrun; [simpl in Hc|discriminate].
  injection Hc as <- <-.
  unfold np_zeros in Hz. destruct (Z.ltb_spec k 0); [discriminate|].
  injection Hz as <-.
  split.
  - f_equal. rewrite (coord_loop_length _ _ _ _ _ Hrun). simpl.
    rewrite repeat_length. lia.
  - intros Hne.
    destruct (coord_loop_max _ _ _ _ _ (max_inv_zeros _) Hrun)
      as (Hpos & Hall & [(_ & c0 & Hc0 & Hl) | (Hz & Hst)]).
    + exists c0. split; [assumption|]. intros c Hc. rewrite Hl. now apply Hall.
    + rewrite Hst. destruct (v_coord_arr v) as [|c0 arr]; [congruence|].
      exists c0. split; [reflexivity|].
      intros c Hc. specialize (Hall _ Hc). pose proof (l1_norm_nonneg c0). lra.
Qed.

(** ** Facts about the example ratios *)

Lemma math_ceil_unique (x : R) (z : Z) :
  IZR z - 1 < x <= IZR z -> math_ceil x = z.
Proof.
  intros [H1 H2]. destruct (math_ceil_spec x) as [H3 H4].
  assert (Ha : (math_ceil x <= z)%Z) by now apply math_ceil_le.
  assert (Hb : (z - 1 < math_ceil x)%Z).
  { apply lt_IZR. rewrite minus_IZR. lra. }
  lia.
Qed.

Lemma five_ninths_value : 5 / 9 < F2R five_ninths <= 6 / 9.
Proof.
  replace (5 / 9) with (Q2R (5 # 9)) by (unfold Q2R; simpl; lra).
  replace (6 / 9) with (Q2R (6 # 9)) by (unfold Q2R; simpl; lra).
  split; [apply Qlt_Rlt | apply Qle_Rle]; vm_compute; [reflexivity | discriminate].
Qed.

Lemma five_ninths_unit : unit_ratio five_ninths.
Proof. split; [reflexivity|]. pose proof five_ninths_value. lra. Qed.

(** The exact product [five_ninths * 9] is above 5, its ceiling is 6; the
    rounded product is the double 5.0, whose ceiling is 5. *)
Lemma five_ninths_exact_ceil : math_ceil (F2R five_ninths * INR (3 * 3)) = 6%Z.
Proof.
  apply math_ceil_unique. pose proof five_ninths_value.
  replace (INR (3 * 3)) with 9 by (simpl; lra). lra.
Qed.

Lemma five_ninths_sample_size : sample_size_f64 ones_3x3 five_ninths = Ok 5%Z.
Proof.
  unfold sample_size_f64.
  change (len_flat_input ones_3x3) with 9%nat.
  vm_compute. reflexivity.
Qed.

Lemma two_ninths_unit : unit_ratio two_ninths.
Proof.
  split; [reflexivity|].
  replace 0 with (Q2R 0) by apply RMicromega.Q2R_0.
  replace 1 with (Q2R 1) by apply RMicromega.Q2R_1.
  split; apply Qle_Rle; vm_compute; discriminate.
Qed.

Lemma two_ninths_sample_size : sample_size_f64 ones_3x3 two_ninths = Ok 2%Z.
Proof.
  unfold sample_size_f64.
  change (len_flat_input ones_3x3) with 9%nat.
  vm_compute. reflexivity.
Qed.

Lemma f64_one_unit : unit_ratio f64_one.
Proof. split; [reflexivity|]. rewrite F2R_f64_one. lra. Qed.

Lemma f64_one_sample_size : sample_size_f64 sparse_2x2 f64_one = Ok 4%Z.
Proof.
  unfold sample_size_f64.
  change (len_flat_input sparse_2x2) with 4%nat.
  vm_compute. reflexivity.
Qed.

Lemma ones_3x3_count_positive : count_positive (flatten ones_3x3) = 9%nat.
Proof. unfold count_positive. simpl. now rewrite Rltb_0_1. Qed.

Lemma sparse_2x2_count_positive : count_positive (flatten sparse_2x2) = 1%nat.
Proof.
  unfold count_positive. simpl.
  assert (E0 : Rltb 0 0 = false) by (apply Rltb_false; lra).
  now rewrite Rltb_0_1, E0.
Qed.

Lemma ones_3x3_weights (i : nat) :
  (i < 9)%nat -> 0 < nth i (map (fun x => x / 9) (flatten ones_3x3)) 0.
Proof.
  intros Hi. simpl.
  do 9 (destruct i as [|i]; [lra|]). lia.
Qed.

Lemma ones_3x3_fair_5 : fair_draw_f64 ones_3x3 five_ninths world_first_5.
Proof.
  intros pr size Hpr Hsz.
  rewrite (valid_flat_input _ _ ones_3x3_valid), np_sum_ones_3x3 in Hpr.
  injection Hpr as <-. rewrite five_ninths_sample_size in Hsz. injection Hsz as <-.
  split; [reflexivity|]. split.
  - repeat constructor; simpl; intuition lia.
  - repeat constructor; try apply ones_3x3_weights; simpl; lia.
Qed.


(** The exact product [one_tenth * 100] is above 10, its ceiling is 11; the
    rounded product is the double 10.0. *)
Example one_tenth_sample_size :
  sample_size_f64 ones_10x10 one_tenth = Ok 10%Z /\
  math_ceil (F2R one_tenth * INR (10 * 10)) = 11%Z.
Proof.
  split.
  - unfold sample_size_f64.
    change (len_flat_input ones_10x10) with 100%nat.
    vm_compute. reflexivity.
  - apply math_ceil_unique.
    replace (INR (10 * 10)) with 100 by (simpl; lra).
    assert (H : 1 / 10 < F2R one_tenth <= 11 / 100).
    { replace (1 / 10) with (Q2R (1 # 10)) by (unfold Q2R; simpl; lra).
      replace (11 / 100) with (Q2R (11 # 100)) by (unfold Q2R; simpl; lra).
      split; [apply Qlt_Rlt | apply Qle_Rle]; vm_compute; [reflexivity | discriminate]. }
    lra.
Qed.

(** A NaN ratio passes the comparisons of the validation and fails where
    the number of sites is computed. *)
Example sampler_f64_nan_ratio (w : world) :
  sampler_f64 ones_3x3 S754_nan w = (Raise ValueError, w).
Proof.
  unfold sampler_f64, validate_f64, draw_TSP_points_f64, sample_size_f64.
  change (len_flat_input ones_3x3) with 9%nat. reflexivity.
Qed.

(** ** The sampler with the computed number of sites *)

Lemma sampler_f64_choice_raises (a : ndarray) (p : spec_float) (k : Z) (w : world) :
  validate_f64 a p = Ok tt ->
  sample_size_f64 a p = Ok k ->
  choice_check (choice_1D_arr a) k (flat_input a) <> Ok tt ->
  sampler_f64 a p w = (Raise ValueError, w).
Proof.
  intros Hv Hk Hc. unfold sampler_f64. rewrite Hv.
  unfold draw_TSP_points_f64, random_choice. rewrite Hk.
  destruct (choice_check _ _ _) as [[]|e] eqn:E; [congruence|].
  now rewrite (choice_check_exn _ _ _ _ E).
Qed.

Lemma sampler_f64_too_few (a : ndarray) (n : nat) (p : spec_float) (k : Z) (w : world) :
  valid_density_map a n ->
  unit_ratio p ->
  sample_size_f64 a p = Ok k ->
  (Z.of_nat (count_positive (flatten a)) < k)%Z ->
  sampler_f64 a p w = (Raise ValueError, w).
Proof.
  intros Hv Hp Hk Hfew.
  apply (sampler_f64_choice_raises a p k w); [now apply (valid_validate_f64 a n) | exact Hk |].
  rewrite (valid_flat_input a n Hv), choice_check_few; [discriminate|].
  rewrite count_positive_scale; [assumption|].
  now destruct Hv as (_ & _ & _ & _ & ?).
Qed.

(** C2, as stated, fails in two ways.  The number of sites is the ceiling of
    the rounded product: on the 3 x 3 map of ones with the double 5/9 the
    exact product [p * 9] is above 5 and [ceil(p * n^2) = 6], but the
    product rounds to the double 5.0 and the sampler returns 5 coordinates.
    And a valid map can have too few cells of positive weight:
    [sparse_2x2] has one, [p = 1.0] asks for 4 sites, [np.random.choice]
    raises ValueError and no coordinate is returned. *)
Lemma sampler_f64_count_counterexamples :
  (valid_density_map ones_3x3 3 /\
   unit_ratio five_ninths /\
   math_ceil (F2R five_ninths * INR (3 * 3)) = 6%Z /\
   exists coords start_n w',
     sampler_f64 ones_3x3 five_ninths world_first_5 = (Ok (coords, start_n), w') /\
     length coords = 5%nat) /\
  (valid_density_map sparse_2x2 2 /\
   unit_ratio f64_one /\
   forall w, sampler_f64 sparse_2x2 f64_one w = (Raise ValueError, w)).
Proof.
  split.
  - split; [exact ones_3x3_valid|]. split; [exact five_ninths_unit|].
    split; [exact five_ninths_exact_ceil|].
    destruct (sampler_f64_valid ones_3x3 3 five_ninths 5 world_first_5
                ones_3x3_valid five_ninths_unit five_ninths_sample_size)
      as [start_n Hs].
    + rewrite ones_3x3_count_positive. lia.
    + exact ones_3x3_fair_5.
    + eexists _, start_n, _. split; [exact Hs | reflexivity].
  - split; [exact sparse_2x2_valid|]. split; [exact f64_one_unit|].
    intros w.
    apply (sampler_f64_too_few sparse_2x2 2 f64_one 4 w
             sparse_2x2_valid f64_one_unit f64_one_sample_size).
    rewrite sparse_2x2_count_positive. lia.
Qed.

(** C2 (amended).  For every valid density map (2-dimensional, square,
    [n >= 2], non-negative weights, positive total) and every double [p] in
    [0, 1], let [k] be the number of sites the interpreter computes, the
    ceiling of the float64 product [p * n^2].  If at least [k] cells have a
    positive weight, and [np.random.choice] answers as sampling without
    replacement does (with [k] pairwise different indices of positive
    probability), the sampler returns exactly [k] coordinates, pairwise
    distinct, all within the square [-1, 1] x [-1, 1]; [k >= 0]; and
    whatever the generator answers, a run of the sampler that returns has
    produced exactly [k] coordinates. *)
Theorem sampler_f64_count_distinct_in_square
  (a : ndarray) (n : nat) (p : spec_float) (k : Z) (w : world) :
  valid_density_map a n ->
  unit_ratio p ->
  sample_size_f64 a p = Ok k ->
  (k <= Z.of_nat (count_positive (flatten a)))%Z ->
  fair_draw_f64 a p w ->
  (0 <= k)%Z /\
  (exists coords start_n w',
     sampler_f64 a p w = (Ok (coords, start_n), w') /\
     Z.of_nat (length coords) = k /\
     NoDup coords /\
     Forall in_unit_square coords) /\
  forall w0 coords start_n w',
    sampler_f64 a p w0 = (Ok (coords, start_n), w') -> Z.of_nat (length coords) = k.
Proof.
  intros Hv Hp Hk Hcnt Hfair.
  split; [now apply (sample_size_f64_nonneg a p)|].
  split.
  2:{ intros w0 coords start_n w' Hs.
      destruct (sampler_f64_returns _ _ _ _ _ _ Hs) as [Hsz _]. congruence. }
  pose proof (valid_len a n Hv) as [Hlen _].
  destruct (sampler_f64_valid a n p k w Hv Hp Hk Hcnt Hfair) as [start_n Hs].
  destruct (Hfair _ _ (valid_flat_input a n Hv) Hk) as (Hdl & Hnd & Hdr).
  rewrite length_map in Hdr. fold (len_flat_input a) in Hdr. rewrite Hlen in Hdr.
  assert (Hn : (2 <= n)%nat) by (destruct Hv as (_ & _ & ? & _); assumption).
  eexists _, start_n, _. split; [exact Hs|]. split; [|split].
  - now rewrite length_map.
  - apply NoDup_map_NoDup_ForallPairs; [|assumption].
    intros i j _ _. now apply spec_coordinate_injective.
  - apply Forall_map. eapply Forall_impl; [|exact Hdr].
    intros idx [Hidx _]. now apply spec_coordinate_in_square.
Qed.

Lemma sampler_f64_count_distinct_in_square_witness :
  valid_density_map ones_3x3 3 /\
  unit_ratio five_ninths /\
  sample_size_f64 ones_3x3 five_ninths = Ok 5%Z /\
  (5 <= Z.of_nat (count_positive (flatten ones_3x3)))%Z /\
  fair_draw_f64 ones_3x3 five_ninths world_first_5 /\
  (0 <= 5)%Z /\
  (exists coords start_n w',
     sampler_f64 ones_3x3 five_ninths world_first_5 = (Ok (coords, start_n), w') /\
     Z.of_nat (length coords) = 5%Z /\
     NoDup coords /\
     Forall in_unit_square coords) /\
  forall w0 coords start_n w',
    sampler_f64 ones_3x3 five_ninths w0 = (Ok (coords, start_n), w') ->
    Z.of_nat (length coords) = 5%Z.
Proof.
  assert (Hc : (5 <= Z.of_nat (count_positive (flatten ones_3x3)))%Z).
  { rewrite ones_3x3_count_positive. lia. }
  split; [exact ones_3x3_valid|]. split; [exact five_ninths_unit|].
  split; [exact five_ninths_sample_size|]. split; [exact Hc|].
  split; [exact ones_3x3_fair_5|].
  apply (sampler_f64_count_distinct_in_square ones_3x3 3 five_ninths 5 world_first_5
           ones_3x3_valid five_ninths_unit five_ninths_sample_size Hc ones_3x3_fair_5).
Defined.



(** The centre of a 3 x 3 grid is the origin; the corner drawn after it is
    the start. *)
Example sampler_f64_ones_3x3 :
  sampler_f64 ones_3x3 two_ninths world_4_0 =
  (Ok ([(0, 0); (1, -1)], 1%nat),
   print "# of measurement points" 2 (consume_draw world_4_0)).
Proof.
  unfold sampler_f64. rewrite (valid_validate_f64 _ _ _ ones_3x3_valid two_ninths_unit).
  unfold draw_TSP_points_f64, random_choice. rewrite two_ninths_sample_size.
  rewrite (valid_choice_check_size _ _ _ ones_3x3_valid)
    by (rewrite ones_3x3_count_positive; lia).
  change (next_draw world_4_0) with [4; 0]%nat. cbn [map length].
  rewrite !choice_1D_arr_nth by (unfold len_flat_input; simpl; lia).
  unfold coordinates_f64.
  rewrite (valid_scale_const _ _ ones_3x3_valid), two_ninths_sample_size.
  cbn [bind np_zeros Z.ltb Z.compare Z.to_nat Pos.to_nat Pos.iter_op Nat.add repeat
       coord_loop shape ones_3x3 nth].
  rewrite coord_body_ok by (simpl; lia).
  cbn [v_n v_max_sum v_start_n v_coord_arr upd]. rewrite coord_of_3_4.
  assert (E1 : Rltb 0 (l1_norm (0, 0)) = false).
  { apply Rltb_false. unfold l1_norm. simpl. rewrite Rabs_R0. lra. }
  rewrite E1. cbn [bind].
  rewrite coord_body_ok by (simpl; lia).
  cbn [v_n v_max_sum v_start_n v_coord_arr upd]. rewrite coord_of_3_0.
  assert (E2 : Rltb 0 (l1_norm (1, -1)) = true).
  { apply Rltb_true. unfold l1_norm, Rabs. simpl. repeat destruct Rcase_abs; lra. }
  rewrite E2. reflexivity.
Qed.

(** X8.  On a valid density map that has fewer cells of positive weight than
    the number of sites the interpreter computes from a ratio in [0, 1],
    the call raises ValueError with the world as it was: sampling without
    replacement has too few candidates. *)
Theorem sampling_f64_rejects_too_few_positive
  (a : ndarray) (n : nat) (p : spec_float) (k : Z) (drift : R)
  (display_filepath : option string) (w : world) :
  valid_density_map a n ->
  unit_ratio p ->
  sample_size_f64 a p = Ok k ->
  (Z.of_nat (count_positive (flatten a)) < k)%Z ->
  compressedSensing_f64 a p drift display_filepath w = (Raise ValueError, w).
Proof.
  intros Hv Hp Hk Hfew. unfold compressedSensing_f64.
  now rewrite (sampler_f64_too_few a n p k w Hv Hp Hk Hfew).
Qed.

Lemma sampling_f64_rejects_too_few_positive_witness :
  valid_density_map sparse_2x2 2 /\
  unit_ratio f64_one /\
  sample_size_f64 sparse_2x2 f64_one = Ok 4%Z /\
  (Z.of_nat (count_positive (flatten sparse_2x2)) < 4)%Z /\
  compressedSensing_f64 sparse_2x2 f64_one 0 None world_3_0 = (Raise ValueError, world_3_0).
Proof.
  assert (Hc : (Z.of_nat (count_positive (flatten sparse_2x2)) < 4)%Z).
  { rewrite sparse_2x2_count_positive. lia. }
  split; [exact sparse_2x2_valid|]. split; [exact f64_one_unit|].
  split; [exact f64_one_sample_size|]. split; [exact Hc|].
  apply (sampling_f64_rejects_too_few_positive sparse_2x2 2 f64_one 4 0 None world_3_0
           sparse_2x2_valid f64_one_unit f64_one_sample_size Hc).
Defined.

(** ** The start index on doubles *)

Lemma f64_add_abs_nonneg (x y : spec_float) : (0 <= F2Q (f64_add (SFabs x) (SFabs y)))%Q.
Proof.
  destruct x as [sx|sx| |sx mx ex], y as [sy|sy| |sy my ey];
    try (simpl; apply Qle_refl); try (simpl; apply Qlt_le_weak, F2Q_pos).
  unfold f64_add, SFadd. cbn [SFabs cond_Zopp].
  match goal with
  | |- context [binary_normalize _ _ ?z _ _] =>
      assert (Hz : (0 < z)%Z) by lia; destruct z as [|m|m]; [lia | | lia]
  end.
  unfold binary_normalize, binary_round. destruct (shl_align _ _ _) as [mz ez].
  apply binary_round_aux_nonneg.
Qed.

Lemma l1_f64_nonneg (c : point_f64) : 0 <= F2R (l1_f64 c).
Proof.
  unfold F2R, l1_f64. rewrite <- RMicromega.Q2R_0. apply Qle_Rle, f64_add_abs_nonneg.
Qed.

Lemma coord_body_f64_ok (shape0 : nat) (sc : spec_float) (v v' : loop_vars_f64)
  (pt : spec_float) :
  coord_body_f64 shape0 sc v pt = Ok v' ->
  exists c,
    coord_of_f64 shape0 sc pt = Ok c /\
    (vf_n v < length (vf_coord_arr v))%nat /\
    v' = if f64_ltb (vf_max_sum v) (l1_f64 c)
         then mk_vars_f64 (S (vf_n v)) (l1_f64 c) (vf_n v) (upd (vf_coord_arr v) (vf_n v) c)
         else mk_vars_f64 (S (vf_n v)) (vf_max_sum v) (vf_start_n v)
                          (upd (vf_coord_arr v) (vf_n v) c).
Proof.
  unfold coord_body_f64.
  destruct (coord_of_f64 shape0 sc pt) as [c|e]; [simpl|discriminate].
  destruct (Nat.lt_ge_cases (vf_n v) (length (vf_coord_arr v))) as [Hn | Hn].
  - rewrite setitem_nat by assumption. simpl. intros H. exists c.
    split; [reflexivity|]. split; [assumption|].
    destruct (f64_ltb _ _); now injection H as <-.
  - unfold setitem. rewrite py_index_out by lia. discriminate.
Qed.

(** The rows written before an iteration are not written again. *)
Lemma coord_loop_f64_keeps (shape0 : nat) (sc : spec_float) (pts : list spec_float) :
  forall v v',
    coord_loop_f64 shape0 sc v pts = Ok v' ->
    (vf_n v <= vf_n v')%nat /\
    forall j, (j < vf_n v)%nat ->
              nth_error (vf_coord_arr v') j = nth_error (vf_coord_arr v) j.
Proof.
  induction pts as [|pt pts IH]; intros v v' Hrun; simpl in Hrun.
  - injection Hrun as <-. split; [lia | reflexivity].
  - destruct (coord_body_f64 shape0 sc v pt) as [v1|e] eqn:Hb; [simpl in Hrun|discriminate].
    destruct (coord_body_f64_ok _ _ _ _ _ Hb) as (c & _ & Hn & Hv1).
    destruct (IH _ _ Hrun) as [Hle Hkeep].
    assert (Hn1 : vf_n v1 = S (vf_n v)) by (subst v1; destruct (f64_ltb _ _); reflexivity).
    assert (Ha1 : vf_coord_arr v1 = upd (vf_coord_arr v) (vf_n v) c)
      by (subst v1; destruct (f64_ltb _ _); reflexivity).
    split; [lia|]. intros j Hj. rewrite Hkeep by lia.
    rewrite Ha1. apply nth_error_upd_neq. lia.
Qed.

Lemma coord_body_f64_inv (shape0 : nat) (sc : spec_float) (v v' : loop_vars_f64)
  (pt : spec_float) :
  start_inv_f64 v ->
  coord_body_f64 shape0 sc v pt = Ok v' ->
  (forall c, nth_error (vf_coord_arr v') (vf_n v) = Some c ->
             f64_is_finite (l1_f64 c) = true) ->
  start_inv_f64 v'.
Proof.
  intros (Hfin & Hpos & Hall & Hst & Hfirst) Hb Hnew.
  destruct (coord_body_f64_ok _ _ _ _ _ Hb) as (c & _ & Hn & Hv').
  assert (Hc : f64_is_finite (l1_f64 c) = true).
  { apply Hnew. subst v'. destruct (f64_ltb _ _); simpl; now apply nth_error_upd_eq. }
  rewrite (f64_ltb_finite _ _ Hfin Hc) in Hv'.
  destruct (Rltb (F2R (vf_max_sum v)) (F2R (l1_f64 c))) eqn:E; subst v';
    unfold start_inv_f64; simpl.
  - apply Rltb_true in E. split; [exact Hc|]. split; [lra|]. split; [|split].
    + intros c' Hc'. destruct (in_upd _ _ _ _ Hc') as [-> | Hin]; [lra|].
      specialize (Hall _ Hin). lra.
    + left. split; [lia|]. exists c. split; [now apply nth_error_upd_eq | reflexivity].
    + intros j c' Hj Hc'. rewrite nth_error_upd_neq in Hc' by lia.
      apply nth_error_In, Hall in Hc'. lra.
  - apply Rltb_false in E. split; [exact Hfin|]. split; [exact Hpos|]. split; [|split].
    + intros c' Hc'. destruct (in_upd _ _ _ _ Hc') as [-> | Hin]; auto.
    + destruct Hst as [(Hlt & c0 & Hc0 & Hl) | Hz]; [left | right; assumption].
      split; [lia|]. exists c0. split; [|assumption].
      rewrite nth_error_upd_neq by lia. assumption.
    + intros j c' Hj Hc'.
      assert (Hjn : j <> vf_n v) by (destruct Hst as [[? _] | [_ ?]]; lia).
      rewrite nth_error_upd_neq in Hc' by assumption. now apply (Hfirst j).
Qed.

Lemma coord_loop_f64_inv (shape0 : nat) (sc : spec_float) (pts : list spec_float) :
  forall v v',
    start_inv_f64 v ->
    coord_loop_f64 shape0 sc v pts = Ok v' ->
    Forall (fun c => f64_is_finite (l1_f64 c) = true) (vf_coord_arr v') ->
    start_inv_f64 v'.
Proof.
  induction pts as [|pt pts IH]; intros v v' Hv Hrun Hfin; simpl in Hrun.
  - now injection Hrun as <-.
  - destruct (coord_body_f64 shape0 sc v pt) as [v1|e] eqn:Hb; [simpl in Hrun|discriminate].
    apply (IH v1 v'); [|assumption|assumption].
    apply (coord_body_f64_inv shape0 sc v v1 pt Hv Hb).
    intros c Hc.
    destruct (coord_body_f64_ok _ _ _ _ _ Hb) as (c1 & _ & Hn & Hv1).
    assert (Hn1 : vf_n v1 = S (vf_n v)) by (subst v1; destruct (f64_ltb _ _); reflexivity).
    destruct (coord_loop_f64_keeps _ _ _ _ _ Hrun) as [_ Hkeep].
    rewrite <- (Hkeep (vf_n v)) in Hc by lia.
    rewrite Forall_forall in Hfin. apply Hfin. now apply nth_error_In in Hc.
Qed.

Lemma start_inv_f64_zeros (k : nat) :
  start_inv_f64 (mk_vars_f64 0 f64_zero 0 (repeat (f64_zero, f64_zero) k)).
Proof.
  unfold start_inv_f64. simpl. split; [reflexivity|].
  rewrite F2R_f64_zero. split; [lra|]. split; [|split; [right; auto | intros; lia]].
  intros c Hc. apply repeat_spec in Hc. subst c.
  replace (l1_f64 (f64_zero, f64_zero)) with f64_zero by reflexivity.
  rewrite F2R_f64_zero. lra.
Qed.

(** X10.  The comparison that updates the start index is strict and is made
    on the computed sums [|x| + |y|]: when no computed sum overflows, the
    row at the start index has the largest computed sum, and every row
    before it has a strictly smaller one; among the rows at the largest
    computed sum the first drawn is the start. *)
Theorem start_index_f64_is_first_maximum
  (a : ndarray) (p : spec_float) (draw : list nat) (coords : list point_f64)
  (start_n j : nat) (c c0 : point_f64) :
  site_coordinates_f64 a p draw = Ok (coords, start_n) ->
  Forall (fun c => f64_is_finite (l1_f64 c) = true) coords ->
  nth_error coords j = Some c ->
  nth_error coords start_n = Some c0 ->
  F2R (l1_f64 c) <= F2R (l1_f64 c0) /\
  ((j < start_n)%nat -> F2R (l1_f64 c) < F2R (l1_f64 c0)).
Proof.
  unfold site_coordinates_f64.
  destruct (scale_const_f64 a) as [sc|e]; [simpl|discriminate].
  destruct (sample_size_f64 a p) as [k|e]; [simpl|discriminate].
  destruct (np_zeros_f64 k) as [arr0|e] eqn:Hz; [simpl|discriminate].
  destruct (coord_loop_f64 _ sc _ _) as [v|e] eqn:Hrun; [simpl|discriminate].
  intros [= <- <-] Hfin Hcj Hc0.
  unfold np_zeros_f64 in Hz. destruct (k <? 0)%Z; [discriminate|].
  injection Hz as <-.
  destruct (coord_loop_f64_inv _ _ _ _ _ (start_inv_f64_zeros _) Hrun Hfin)
    as (_ & _ & Hall & Hst & Hfirst).
  assert (Hmax : F2R (l1_f64 c) <= F2R (vf_max_sum v)).
  { apply Hall. now apply nth_error_In in Hcj. }
  destruct Hst as [(_ & c1 & Hc1 & Hl) | (Hzero & Hs0)].
  - rewrite Hc0 in Hc1. injection Hc1 as <-. rewrite Hl.
    split; [exact Hmax|]. intros Hj. now apply (Hfirst j).
  - rewrite Hzero, F2R_f64_zero in Hmax. pose proof (l1_f64_nonneg c0).
    split; [lra | lia].
Qed.

(** *** The 4 x 4 grid *)

Lemma three_sixteenths_sample_size : sample_size_f64 ones_4x4 three_sixteenths = Ok 3%Z.
Proof.
  unfold sample_size_f64.
  change (len_flat_input ones_4x4) with 16%nat.
  vm_compute. reflexivity.
Qed.

Lemma site_coordinates_f64_4x4 (draw : list nat) :
  site_coordinates_f64 ones_4x4 three_sixteenths draw
  = (v <- coord_loop_f64 4 (S754_finite false 6004799503160661 (-53))
            (mk_vars_f64 0 f64_zero 0 (repeat (f64_zero, f64_zero) 3))
            (map index_f64 draw) ;;
     Ok (vf_coord_arr v, vf_start_n v)).
Proof.
  unfold site_coordinates_f64. rewrite three_sixteenths_sample_size.
  reflexivity.
Qed.

(** The flat indices 2, 1 and 4 of a 4 x 4 grid are three sites whose exact
    coordinates have the same L1 norm 4/3; the computed sums are
    1.3333333333333333, 1.3333333333333335 and 1.3333333333333335, and the
    second site is the start. *)
Example site_coordinates_f64_2_1_4 :
  site_coordinates_f64 ones_4x4 three_sixteenths [2; 1; 4]%nat
  = Ok ([(f64_one, S754_finite false 6004799503160660 (-54));
         (f64_one, S754_finite true 6004799503160662 (-54));
         (S754_finite false 6004799503160662 (-54), SFopp f64_one)], 1%nat).
Proof. rewrite site_coordinates_f64_4x4. vm_compute. reflexivity. Qed.

Lemma start_index_f64_is_first_maximum_witness :
  let c := (f64_one, S754_finite false 6004799503160660 (-54)) in
  let c0 := (f64_one, S754_finite true 6004799503160662 (-54)) in
  let coords := [c; c0; (S754_finite false 6004799503160662 (-54), SFopp f64_one)] in
  site_coordinates_f64 ones_4x4 three_sixteenths [2; 1; 4]%nat = Ok (coords, 1%nat) /\
  Forall (fun c => f64_is_finite (l1_f64 c) = true) coords /\
  F2R (l1_f64 c) <= F2R (l1_f64 c0) /\
  ((0 < 1)%nat -> F2R (l1_f64 c) < F2R (l1_f64 c0)).
Proof.
  intros c c0 coords.
  assert (Hfin : Forall (fun c => f64_is_finite (l1_f64 c) = true) coords)
    by (repeat constructor).
  split; [exact site_coordinates_f64_2_1_4|]. split; [exact Hfin|].
  apply (start_index_f64_is_first_maximum ones_4x4 three_sixteenths [2; 1; 4]%nat
           coords 1 0 c c0 site_coordinates_f64_2_1_4 Hfin); reflexivity.
Defined.

(** The flat indices 1, 3 and 11: the second site, the corner [(1, 1)], is
    the start. *)
Example site_coordinates_f64_1_3_11 :
  site_coordinates_f64 ones_4x4 three_sixteenths [1; 3; 11]%nat
  = Ok (sites_1_3_11_f64, 1%nat).
Proof. rewrite site_coordinates_f64_4x4. vm_compute. reflexivity. Qed.

(** ** The planner on doubles *)

Lemma matrix_of_cdist_f64 (coords : list point_f64) :
  finite_distances coords ->
  matrix_of (dist_f64 coords) (length coords) (cdist_f64 coords coords).
Proof.
  intros Hfin. split; [unfold cdist_f64; apply length_map|].
  intros r row Hr. unfold cdist_f64 in Hr. rewrite nth_error_map in Hr.
  destruct (nth_error coords r) as [a|] eqn:Ha; simpl in Hr; [|discriminate].
  injection Hr as <-. split; [apply length_map|].
  intros c x Hx. rewrite nth_error_map in Hx.
  destruct (nth_error coords c) as [b|] eqn:Hb; simpl in Hx; [|discriminate].
  injection Hx as <-. unfold ext_of_f64, dist_f64.
  rewrite (Hfin a b (nth_error_In _ _ Ha) (nth_error_In _ _ Hb)).
  now rewrite (nth_error_nth _ _ _ Ha), (nth_error_nth _ _ _ Hb).
Qed.

(** The index array the planner builds from rows of doubles at finite
    computed distances. *)
Lemma nn_tsp_order_f64_correct (coords : list point_f64) (start_idx : Z) (s0 : nat) :
  finite_distances coords ->
  py_index (length coords) start_idx = Ok s0 ->
  exists order,
    nn_tsp_order_f64 coords start_idx = Ok (start_idx :: map Z.of_nat (tl order)) /\
    hd 0%nat order = s0 /\
    Permutation order (seq 0 (length coords)) /\
    greedy_by (dist_f64 coords) (length coords) order.
Proof.
  intros Hfin Hs.
  exact (nn_run_correct (dist_f64 coords) (length coords) (cdist_f64 coords coords)
           start_idx s0 (matrix_of_cdist_f64 coords Hfin) Hs).
Qed.

(** *** The three rows of [near_tie_f64] *)

Lemma Rltb_F2R (x y : spec_float) :
  Rltb (F2R x) (F2R y) = if Qlt_le_dec (F2Q x) (F2Q y) then true else false.
Proof.
  unfold F2R. destruct (Qlt_le_dec (F2Q x) (F2Q y)) as [Hlt | Hle].
  - apply Rltb_true. now apply Qlt_Rlt.
  - apply Rltb_false. now apply Qle_Rle.
Qed.

Lemma near_tie_f64_finite : finite_distances near_tie_f64.
Proof.
  intros a b Ha Hb. unfold near_tie_f64 in Ha, Hb. simpl in Ha, Hb.
  destruct Ha as [<- | [<- | [<- | []]]], Hb as [<- | [<- | [<- | []]]];
    vm_compute; reflexivity.
Qed.

(** The computed distances from the origin to the other two rows are the
    same double, 0.625. *)
Lemma near_tie_f64_distances :
  euclidean_f64 (nth 0 near_tie_f64 (f64_zero, f64_zero)) (nth 1 near_tie_f64 (f64_zero, f64_zero))
  = S754_finite false 5629499534213120 (-53) /\
  euclidean_f64 (nth 0 near_tie_f64 (f64_zero, f64_zero)) (nth 2 near_tie_f64 (f64_zero, f64_zero))
  = S754_finite false 5629499534213120 (-53).
Proof. split; vm_compute; reflexivity. Qed.

Example nn_tsp_order_near_tie_f64 :
  nn_tsp_order_f64 near_tie_f64 0 = Ok [0; 1; 2]%Z.
Proof.
  unfold nn_tsp_order_f64, cdist_f64, near_tie_f64.
  cbn [map length].
  repeat match goal with
         | |- context [euclidean_f64 ?a ?b] =>
             let v := eval vm_compute in (euclidean_f64 a b) in
             replace (euclidean_f64 a b) with v by (vm_compute; reflexivity)
         end.
  lazy -[F2R Rltb].
  repeat match goal with
         | |- context [Rltb (F2R ?x) (F2R ?y)] =>
             let b := eval vm_compute in
                        (if Qlt_le_dec (F2Q x) (F2Q y) then true else false) in
             replace (Rltb (F2R x) (F2R y)) with b
               by (rewrite Rltb_F2R; vm_compute; reflexivity)
         end.
  reflexivity.
Qed.

Lemma near_tie_f64_values :
  map point_value near_tie_f64
  = [(0, 0); (F2R (S754_finite false 6755399441055745 (-54)), 1 / 2); (5 / 8, 0)] /\
  3 / 8 < F2R (S754_finite false 6755399441055745 (-54)).
Proof.
  split.
  - unfold near_tie_f64, point_value. cbn [map fst snd].
    rewrite F2R_f64_zero.
    replace (F2R (S754_finite false 4503599627370496 (-53))) with (1 / 2).
    2:{ replace (1 / 2) with (Q2R (1 # 2)) by (unfold Q2R; simpl; lra).
        apply Qeq_eqR. reflexivity. }
    replace (F2R (S754_finite false 5629499534213120 (-53))) with (5 / 8).
    2:{ replace (5 / 8) with (Q2R (5 # 8)) by (unfold Q2R; simpl; lra).
        apply Qeq_eqR. reflexivity. }
    reflexivity.
  - replace (3 / 8) with (Q2R (3 # 8)) by (unfold Q2R; simpl; lra).
    apply Qlt_Rlt. vm_compute. reflexivity.
Qed.

(** From the corner [(1, 1)] of the 4 x 4 grid the planner goes to the third
    of the sites 1, 3, 11, at the computed distance 1.3333333333333333,
    before the first, at 1.3333333333333335. *)
Example nn_tsp_order_f64_1_3_11 :
  nn_tsp_order_f64 sites_1_3_11_f64 1 = Ok [1; 2; 0]%Z.
Proof.
  unfold nn_tsp_order_f64, cdist_f64, sites_1_3_11_f64.
  cbn [map length].
  repeat match goal with
         | |- context [euclidean_f64 ?a ?b] =>
             let v := eval vm_compute in (euclidean_f64 a b) in
             replace (euclidean_f64 a b) with v by (vm_compute; reflexivity)
         end.
  lazy -[F2R Rltb].
  repeat match goal with
         | |- context [Rltb (F2R ?x) (F2R ?y)] =>
             let b := eval vm_compute in
                        (if Qlt_le_dec (F2Q x) (F2Q y) then true else false) in
             replace (Rltb (F2R x) (F2R y)) with b
               by (rewrite Rltb_F2R; vm_compute; reflexivity)
         end.
  reflexivity.
Qed.

(** The exact coordinates of the flat indices 1 and 11 are at the same
    distance, 4/3, from the corner. *)
Lemma grid_4x4_exact_tie :
  euclidean (spec_coordinate 4 3) (spec_coordinate 4 1)
  = euclidean (spec_coordinate 4 3) (spec_coordinate 4 11).
Proof.
  unfold euclidean, spec_coordinate. cbn [fst snd Nat.div Nat.modulo Nat.divmod INR].
  f_equal. simpl. field.
Qed.

(** C7, as stated, fails: the distances the planner compares are rounded.
    From the origin, the row [(0.625, 0)] at position 2 is at the Euclidean
    distance 0.625 and the row [(0.375 + 2^-54, 0.5)] at position 1 is
    strictly farther; both computed distances round to the double 0.625,
    [argmin] returns the first of the two, and the planner visits position
    1, which is not at minimum Euclidean distance, before position 2.  And
    on the sites 1, 3, 11 of the 4 x 4 grid, whose exact coordinates put
    the first and the third at the same distance from the start (the
    second), the computed distances differ in the last bit and the planner
    visits the third site, not the one of lowest index, first. *)
Lemma nn_tsp_f64_visits_farther_point_first :
  (let pts := map point_value near_tie_f64 in
   nn_tsp_order_f64 near_tie_f64 0 = Ok [0; 1; 2]%Z /\
   dist_f64 near_tie_f64 0 1 = dist_f64 near_tie_f64 0 2 /\
   euclidean (nth 0 pts (0, 0)) (nth 2 pts (0, 0))
   < euclidean (nth 0 pts (0, 0)) (nth 1 pts (0, 0))) /\
  (site_coordinates_f64 ones_4x4 three_sixteenths [1; 3; 11]%nat
   = Ok (sites_1_3_11_f64, 1%nat) /\
   nn_tsp_order_f64 sites_1_3_11_f64 1 = Ok [1; 2; 0]%Z /\
   euclidean (spec_coordinate 4 3) (spec_coordinate 4 1)
   = euclidean (spec_coordinate 4 3) (spec_coordinate 4 11)).
Proof.
  split.
  - intros pts. split; [exact nn_tsp_order_near_tie_f64|]. split.
    + unfold dist_f64. destruct near_tie_f64_distances as [-> ->]. reflexivity.
    + unfold pts. destruct near_tie_f64_values as [-> Hx]. cbn [nth].
      unfold euclidean. cbn [fst snd].
      apply sqrt_lt_1_alt. nra.
  - split; [exact site_coordinates_f64_1_3_11|].
    split; [exact nn_tsp_order_f64_1_3_11 | exact grid_4x4_exact_tie].
Qed.

(** C7 (amended).  With a start index in range and computed distances that
    are all finite, the loop runs to its end and, at each of its [k-1] steps
    [i = 1 .. k-1], the position [order[i]] it selects is unvisited, no
    unvisited position is at a smaller computed distance (the float64 value
    [cdist] returns) from the current position [order[i-1]], and every
    unvisited position at the same computed distance has a higher or equal
    index; the tour returned lists the rows in that order. *)
Theorem nn_tsp_f64_nearest_lowest_index (coords : list point_f64) (start_idx : Z) :
  finite_distances coords ->
  (0 <= start_idx < Z.of_nat (length coords))%Z ->
  exists order,
    nn_tsp_order_f64 coords start_idx = Ok (map Z.of_nat order) /\
    nn_tsp_matrix_f64 coords start_idx
    = Ok (map (fun i => nth i coords (f64_zero, f64_zero)) order) /\
    length order = length coords /\
    nth 0 order 0%nat = Z.to_nat start_idx /\
    forall i, (1 <= i < length coords)%nat ->
      let visited := firstn i order in
      let current := nth (i - 1) order 0%nat in
      let nxt := nth i order 0%nat in
      (nxt < length coords)%nat /\
      ~ In nxt visited /\
      forall j, (j < length coords)%nat -> ~ In j visited ->
        dist_f64 coords current nxt <= dist_f64 coords current j /\
        (dist_f64 coords current j = dist_f64 coords current nxt -> (nxt <= j)%nat).
Proof.
  intros Hfin Hs.
  assert (Hidx : py_index (length coords) start_idx = Ok (Z.to_nat start_idx)).
  { rewrite <- (Z2Nat.id start_idx) at 1 by lia. apply py_index_nat. lia. }
  destruct (nn_tsp_order_f64_correct coords start_idx _ Hfin Hidx)
    as (order & Ho & Hhd & Hperm & Hgr).
  assert (Hlen : length order = length coords).
  { apply Permutation_length in Hperm. now rewrite length_seq in Hperm. }
  assert (Hmap : start_idx :: map Z.of_nat (tl order) = map Z.of_nat order).
  { destruct order as [|o order]; simpl in *; [lia|].
    subst o. rewrite Z2Nat.id by lia. reflexivity. }
  rewrite Hmap in Ho.
  exists order. split; [exact Ho|]. split; [|split; [exact Hlen | split]].
  - unfold nn_tsp_matrix_f64. rewrite Ho. simpl. apply take_rows_nat.
    apply Forall_forall. intros c Hc.
    apply (Permutation_in _ Hperm), in_seq in Hc. lia.
  - destruct order as [|o order]; simpl in *; [lia | exact Hhd].
  - intros i Hi. apply Hgr. lia.
Qed.

Lemma nn_tsp_f64_nearest_lowest_index_witness :
  finite_distances near_tie_f64 /\
  (0 <= 0 < Z.of_nat (length near_tie_f64))%Z /\
  exists order,
    nn_tsp_order_f64 near_tie_f64 0 = Ok (map Z.of_nat order) /\
    nn_tsp_matrix_f64 near_tie_f64 0
    = Ok (map (fun i => nth i near_tie_f64 (f64_zero, f64_zero)) order) /\
    length order = length near_tie_f64 /\
    nth 0 order 0%nat = Z.to_nat 0 /\
    forall i, (1 <= i < length near_tie_f64)%nat ->
      let visited := firstn i order in
      let current := nth (i - 1) order 0%nat in
      let nxt := nth i order 0%nat in
      (nxt < length near_tie_f64)%nat /\
      ~ In nxt visited /\
      forall j, (j < length near_tie_f64)%nat -> ~ In j visited ->
        dist_f64 near_tie_f64 current nxt <= dist_f64 near_tie_f64 current j /\
        (dist_f64 near_tie_f64 current j = dist_f64 near_tie_f64 current nxt ->
         (nxt <= j)%nat).
Proof.
  assert (Hs : (0 <= 0 < Z.of_nat (length near_tie_f64))%Z) by (simpl; lia).
  split; [exact near_tie_f64_finite|]. split; [exact Hs|].
  apply (nn_tsp_f64_nearest_lowest_index near_tie_f64 0 near_tie_f64_finite Hs).
Defined.

(** X1.  The description of the greedy choice leaves no freedom: on rows of
    doubles at finite computed distances, every order of all the positions
    that begins at the start index and in which each further position is an
    unvisited one at the smallest computed distance, of lowest index among
    those, is the index array the planner computes. *)
Theorem nn_tsp_order_f64_characterised
  (coords : list point_f64) (start_idx : Z) (order : list nat) :
  finite_distances coords ->
  (0 <= start_idx < Z.of_nat (length coords))%Z ->
  length order = length coords ->
  hd 0%nat order = Z.to_nat start_idx ->
  greedy_by (dist_f64 coords) (length coords) order ->
  nn_tsp_order_f64 coords start_idx = Ok (map Z.of_nat order).
Proof.
  intros Hfin Hs Hlen Hhd Hgr.
  assert (Hidx : py_index (length coords) start_idx = Ok (Z.to_nat start_idx)).
  { rewrite <- (Z2Nat.id start_idx) at 1 by lia. apply py_index_nat. lia. }
  destruct (nn_tsp_order_f64_correct coords start_idx _ Hfin Hidx)
    as (order' & Ho & Hhd' & Hperm & Hgr').
  assert (Hlen' : length order' = length coords).
  { apply Permutation_length in Hperm. now rewrite length_seq in Hperm. }
  assert (E : order' = order).
  { apply (greedy_by_unique (dist_f64 coords) (length coords)); try assumption; congruence. }
  subst order'. rewrite Ho.
  destruct order as [|o order]; simpl in *; [lia|].
  subst o. now rewrite Z2Nat.id by lia.
Qed.

(** On [near_tie_f64] the order 0, 1, 2 is greedy: positions 1 and 2 are at
    the same computed distance from position 0, and 1 is the lower. *)
Lemma greedy_near_tie_f64 :
  greedy_by (dist_f64 near_tie_f64) (length near_tie_f64) [0; 1; 2]%nat.
Proof.
  intros m Hm. simpl in Hm.
  assert (Hm' : m = 1%nat \/ m = 2%nat) by lia.
  destruct Hm' as [-> | ->]; cbn [firstn nth Nat.sub].
  - split; [simpl; lia|]. split; [intros [H | []]; discriminate|].
    intros j Hj Hn. simpl in Hj.
    assert (Hj' : j = 1%nat \/ j = 2%nat).
    { destruct j as [|[|[|j]]]; [exfalso; apply Hn; now left | auto | auto | lia]. }
    unfold dist_f64.
    destruct near_tie_f64_distances as [E1 E2].
    destruct Hj' as [-> | ->]; [split; [lra | lia]|].
    rewrite E1, E2. split; [lra | lia].
  - split; [simpl; lia|]. split; [intros [H | [H | []]]; discriminate|].
    intros j Hj Hn. simpl in Hj.
    assert (j = 2%nat).
    { destruct j as [|[|[|j]]]; [exfalso; apply Hn; simpl; auto
                                | exfalso; apply Hn; simpl; auto | reflexivity | lia]. }
    subst j. split; [lra | lia].
Qed.

Lemma nn_tsp_order_f64_characterised_witness :
  finite_distances near_tie_f64 /\
  (0 <= 0 < Z.of_nat (length near_tie_f64))%Z /\
  greedy_by (dist_f64 near_tie_f64) (length near_tie_f64) [0; 1; 2]%nat /\
  nn_tsp_order_f64 near_tie_f64 0 = Ok (map Z.of_nat [0; 1; 2]%nat).
Proof.
  assert (Hs : (0 <= 0 < Z.of_nat (length near_tie_f64))%Z) by (simpl; lia).
  split; [exact near_tie_f64_finite|]. split; [exact Hs|].
  split; [exact greedy_near_tie_f64|].
  apply (nn_tsp_order_f64_characterised near_tie_f64 0 [0; 1; 2]%nat
           near_tie_f64_finite Hs); [reflexivity | reflexivity | exact greedy_near_tie_f64].
Defined.
